(** * Pre-activation ResNet and Wide ResNet for CIFAR: architecture assembly

    A shallow embedding of
      pytorch_image_classification/models/cifar/resnet_preact.py
      pytorch_image_classification/models/cifar/wrn.py
    and the properties of the architecture-assembly logic: blocks per stage
    from the depth, channel widths, shortcut selection, placement of the
    pre-activation, the stage builder, the feature-size probe and the shape
    of the forward pass.

    Tensors are not computed numerically.  The numeric engine is an interface
    ([Engine]); blocks and networks are written once over it, the way the
    source is written over [torch].  Structural properties hold for every
    engine; shape properties are proved for the reference engine [ShapeEngine],
    where a tensor is its shape. *)

From Stdlib Require Import ZArith NArith List String Ascii Bool Lia QArith.
From Stdlib Require Import DecimalString DecimalNat.
Import ListNotations.

Local Open Scope string_scope.
Local Open Scope N_scope.
Local Open Scope list_scope.

Set Implicit Arguments.

(* ================================================================== *)
(** ** Python exceptions and fallible computations *)

Inductive error : Type :=
| AssertionError
| AttributeError
| IndexError
| ValueError
| RuntimeError.

Inductive result (A : Type) : Type :=
| Ok (a : A)
| Err (e : error).

Arguments Ok {A} a.
Arguments Err {A} e.

Definition rbind {A B} (r : result A) (k : A -> result B) : result B :=
  match r with
  | Ok a => k a
  | Err e => Err e
  end.

Definition is_ok {A} (r : result A) : bool :=
  match r with Ok _ => true | Err _ => false end.

Declare Scope result_scope.
Delimit Scope result_scope with result.
Notation "x <- c ;; k" := (rbind c (fun x => k))
  (at level 61, c at next level, right associativity) : result_scope.

(** [assert c]. *)
Definition assert (c : bool) : result unit :=
  if c then Ok tt else Err AssertionError.

(** [l[i]] on a Python list, for a non-negative index. *)
Definition getitem {A} (l : list A) (i : nat) : result A :=
  match nth_error l i with
  | Some a => Ok a
  | None => Err IndexError
  end.

(** [range(n)] for a Python int [n]: empty when [n <= 0]. *)
Definition range (n : Z) : list nat := seq 0 (Z.to_nat n).

(** [f'{n}'] for a non-negative int. *)
Definition str_of_nat (n : nat) : string :=
  NilEmpty.string_of_uint (Nat.to_uint n).

(* ================================================================== *)
(** ** Layers: the hyper-parameters the constructors of [torch.nn] receive *)

Record Conv2d : Type := mkConv2d {
  conv_in_channels : N;
  conv_out_channels : N;
  kernel_size : N;
  conv_stride : N;
  padding : N;
  bias : bool
}.

Record BatchNorm2d : Type := mkBatchNorm2d { num_features : N }.

Record Linear : Type := mkLinear { in_features : N; out_features : N }.

(** An argument of [Tensor.view]: a size, or [-1]. *)
Inductive dim : Type :=
| Dim (n : N)
| Infer.

(* ================================================================== *)
(** ** The numeric engine (external collaborator) *)

Class Engine (T : Type) : Type := {
  zeros : list N -> T;                       (* torch.zeros(shape, dtype=float32) *)
  size : T -> list N;                        (* x.size(), x.shape *)
  conv2d : Conv2d -> T -> result T;          (* nn.Conv2d.forward *)
  batch_norm : BatchNorm2d -> T -> result T; (* nn.BatchNorm2d.forward *)
  relu : T -> T;                             (* F.relu(_, inplace=True) *)
  dropout : Q -> bool -> T -> result T;      (* F.dropout(_, p, training, inplace=False) *)
  iadd : T -> T -> result T;                 (* y += s *)
  adaptive_avg_pool2d : T -> N -> result T;  (* F.adaptive_avg_pool2d(_, output_size) *)
  view : list dim -> T -> result T;          (* x.view(...) *)
  linear : Linear -> T -> result T           (* nn.Linear.forward *)
}.

(** [nn.Module]: something with a [forward]. *)
Class Module (T A : Type) : Type := forward : A -> T -> result T.

(** [nn.Sequential]: named sub-modules, applied in insertion order. *)
Definition Sequential (A : Type) : Type := list (string * A).

Fixpoint has_name {A} (name : string) (s : Sequential A) : bool :=
  match s with
  | [] => false
  | (n, _) :: s' => String.eqb n name || has_name name s'
  end.

Fixpoint replace_module {A} (name : string) (m : A) (s : Sequential A)
  : Sequential A :=
  match s with
  | [] => []
  | (n, m') :: s' =>
      if String.eqb n name then (n, m) :: s'
      else (n, m') :: replace_module name m s'
  end.

(** [add_module(name, m)]: a new name is appended, an existing one keeps its
    position and gets the new module. *)
Definition add_module {A} (name : string) (m : A) (s : Sequential A)
  : Sequential A :=
  if has_name name s then replace_module name m s else s ++ [(name, m)].

Fixpoint Sequential_forward {T A} `{Module T A} (s : Sequential A) (x : T)
  : result T :=
  match s with
  | [] => Ok x
  | (_, m) :: s' => (y <- forward m x ;; Sequential_forward s' y)%result
  end.

#[export] Instance Sequential_Module {T A} `{Module T A}
  : Module T (Sequential A) := Sequential_forward.

#[export] Instance Conv2d_Module {T} `{Engine T} : Module T Conv2d := conv2d.

(** The modules of a [Sequential], without their names. *)
Definition modules {A} (s : Sequential A) : list A := map snd s.
Definition names {A} (s : Sequential A) : list string := map fst s.

Notation "' pat <- c ;; k" :=
  (rbind c (fun x => match x with pat => k end))
  (at level 61, pat pattern, c at next level, right associativity)
  : result_scope.

(* ================================================================== *)
(** ** Global state of the engine and calls of the convolutional part *)

(** A call of [_forward_conv]: its argument and whether gradient tracking was
    enabled when it was made. *)
Record Call (T : Type) : Type := mkCall {
  call_grad : bool;
  call_input : T
}.

(** [grad_enabled] is [torch.is_grad_enabled()]; [calls] lists the calls of
    [_forward_conv] so far, oldest first. *)
Record Torch (T : Type) : Type := mkTorch {
  grad_enabled : bool;
  calls : list (Call T)
}.

(** Computations that read and write the global state and may raise. *)
Definition M (T A : Type) : Type := Torch T -> result A * Torch T.

Definition mret {T A} (a : A) : M T A := fun w => (Ok a, w).

Definition mbind {T A B} (m : M T A) (k : A -> M T B) : M T B :=
  fun w =>
    match m w with
    | (Ok a, w') => k a w'
    | (Err e, w') => (Err e, w')
    end.

Definition lift {T A} (r : result A) : M T A := fun w => (r, w).

Declare Scope torch_scope.
Delimit Scope torch_scope with torch.
Notation "x <- c ;; k" := (mbind c (fun x => k))
  (at level 61, c at next level, right associativity) : torch_scope.
Notation "' pat <- c ;; k" :=
  (mbind c (fun x => match x with pat => k end))
  (at level 61, pat pattern, c at next level, right associativity)
  : torch_scope.

(** [with torch.no_grad(): body]: tracking is switched off for the body and
    the previous mode is restored on exit, also when the body raises. *)
Definition no_grad {T A} (body : M T A) : M T A :=
  fun w =>
    let prev := grad_enabled w in
    let (r, w') := body (mkTorch false (calls w)) in
    (r, mkTorch prev (calls w')).

(** Entering [_forward_conv] with argument [x]. *)
Definition enter_forward_conv {T} (x : T) : M T unit :=
  fun w =>
    (Ok tt, mkTorch (grad_enabled w) (calls w ++ [mkCall (grad_enabled w) x])).

(* ================================================================== *)
(** ** The configuration *)

(** [config.model.resnet_preact], [config.model.wrn], [config.model.init_mode]
    and [config.dataset].  [depth] is a Python int, negative values included;
    channel counts, sizes and the widening factor are non-negative ints; the
    dropout rate is a rational standing for the Python float. *)
Module Config.

Module ResnetPreact.
Record t : Type := mk {
  initial_channels : N;
  remove_first_relu : bool;
  add_last_bn : bool;
  block_type : string;
  depth : Z;
  preact_stage : list bool
}.
End ResnetPreact.

Module Wrn.
Record t : Type := mk {
  depth : Z;
  initial_channels : N;
  widening_factor : N;
  drop_rate : Q
}.
End Wrn.

Record Model : Type := mkModel {
  resnet_preact : ResnetPreact.t;
  wrn : Wrn.t;
  init_mode : string
}.

Record Dataset : Type := mkDataset {
  n_channels : N;
  image_size : N;
  n_classes : N
}.

Record t : Type := mk {
  model : Model;
  dataset : Dataset
}.

End Config.

(** Modelled from the spec: [create_initializer] of the package's
    [initializer] module is not among the sources.  The spec gives it as
    [initialize(layer) -> void], applied once to every parameterized
    sub-layer.  Weights are not part of this model, so all that is kept is
    whether making the initializer for the configured mode succeeds; it is a
    parameter of the construction. *)
Class Initializers : Type := create_initializer : string -> result unit.

(* ================================================================== *)
(** ** resnet_preact.py *)

Module resnet_preact.

(** *** BasicBlock *)

Record BasicBlock : Type := mkBasicBlock {
  _remove_first_relu : bool;
  _add_last_bn : bool;
  _preact : bool;
  bn1 : BatchNorm2d;
  conv1 : Conv2d;
  bn2 : BatchNorm2d;
  conv2 : Conv2d;
  bn3 : option BatchNorm2d;       (* set only when add_last_bn *)
  shortcut : Sequential Conv2d
}.

Definition BasicBlock_expansion : N := 1.

Definition BasicBlock_init (in_channels out_channels stride : N)
    (remove_first_relu add_last_bn preact : bool) : BasicBlock :=
  {| _remove_first_relu := remove_first_relu;
     _add_last_bn := add_last_bn;
     _preact := preact;
     bn1 := mkBatchNorm2d in_channels;
     conv1 := mkConv2d in_channels out_channels 3 stride 1 false;
     bn2 := mkBatchNorm2d out_channels;
     conv2 := mkConv2d out_channels out_channels 3 1 1 false;
     bn3 := if add_last_bn then Some (mkBatchNorm2d out_channels) else None;
     shortcut :=
       if negb (in_channels =? out_channels) then
         add_module "conv"
           (mkConv2d in_channels out_channels 1 stride 0 false) []
       else [] |}.

Definition BasicBlock_forward {T} `{Engine T} (self : BasicBlock) (x : T)
  : result T :=
  ('(x, y) <-
     (if _preact self then
        b <- batch_norm (bn1 self) x ;;
        let x := relu b in            (* shortcut after preactivation *)
        y <- conv2d (conv1 self) x ;;
        Ok (x, y)
      else
        (* preactivation only for residual path *)
        y <- batch_norm (bn1 self) x ;;
        let y := if negb (_remove_first_relu self) then relu y else y in
        y <- conv2d (conv1 self) y ;;
        Ok (x, y)) ;;
   b <- batch_norm (bn2 self) y ;;
   y <- conv2d (conv2 self) (relu b) ;;
   y <- (if _add_last_bn self then
           match bn3 self with
           | Some l => batch_norm l y
           | None => Err AttributeError
           end
         else Ok y) ;;
   s <- forward (shortcut self) x ;;
   iadd y s)%result.

(** *** BottleneckBlock *)

Record BottleneckBlock : Type := mkBottleneckBlock {
  b_remove_first_relu : bool;
  b_add_last_bn : bool;
  b_preact : bool;
  b_bn1 : BatchNorm2d;
  b_conv1 : Conv2d;
  b_bn2 : BatchNorm2d;
  b_conv2 : Conv2d;
  b_bn3 : BatchNorm2d;
  b_conv3 : Conv2d;
  b_bn4 : option BatchNorm2d;     (* set only when add_last_bn *)
  b_shortcut : Sequential Conv2d
}.

Definition BottleneckBlock_expansion : N := 4.

Definition BottleneckBlock_init (in_channels out_channels stride : N)
    (remove_first_relu add_last_bn preact : bool) : BottleneckBlock :=
  let bottleneck_channels := out_channels / BottleneckBlock_expansion in
  {| b_remove_first_relu := remove_first_relu;
     b_add_last_bn := add_last_bn;
     b_preact := preact;
     b_bn1 := mkBatchNorm2d in_channels;
     b_conv1 := mkConv2d in_channels bottleneck_channels 1 1 0 false;
     b_bn2 := mkBatchNorm2d bottleneck_channels;
     b_conv2 :=
       mkConv2d bottleneck_channels bottleneck_channels 3 stride 1 false;
     b_bn3 := mkBatchNorm2d bottleneck_channels;
     b_conv3 := mkConv2d bottleneck_channels out_channels 1 1 0 false;
     b_bn4 := if add_last_bn then Some (mkBatchNorm2d out_channels) else None;
     b_shortcut :=
       if negb (in_channels =? out_channels) then
         add_module "conv"
           (mkConv2d in_channels out_channels 1 stride 0 false) []
       else [] |}.

Definition BottleneckBlock_forward {T} `{Engine T} (self : BottleneckBlock)
    (x : T) : result T :=
  ('(x, y) <-
     (if b_preact self then
        b <- batch_norm (b_bn1 self) x ;;
        let x := relu b in            (* shortcut after preactivation *)
        y <- conv2d (b_conv1 self) x ;;
        Ok (x, y)
      else
        (* preactivation only for residual path *)
        y <- batch_norm (b_bn1 self) x ;;
        let y := if negb (b_remove_first_relu self) then relu y else y in
        y <- conv2d (b_conv1 self) y ;;
        Ok (x, y)) ;;
   b <- batch_norm (b_bn2 self) y ;;
   y <- conv2d (b_conv2 self) (relu b) ;;
   b <- batch_norm (b_bn3 self) y ;;
   y <- conv2d (b_conv3 self) (relu b) ;;
   y <- (if b_add_last_bn self then
           match b_bn4 self with
           | Some l => batch_norm l y
           | None => Err AttributeError
           end
         else Ok y) ;;
   s <- forward (b_shortcut self) x ;;
   iadd y s)%result.

(** *** The block class handed to the stage builder *)

Inductive block_class : Type :=
| BasicBlock_class
| BottleneckBlock_class.

Definition expansion (block : block_class) : N :=
  match block with
  | BasicBlock_class => BasicBlock_expansion
  | BottleneckBlock_class => BottleneckBlock_expansion
  end.

Inductive Block : Type :=
| Basic (b : BasicBlock)
| Bottleneck (b : BottleneckBlock).

(** [block(in_channels, out_channels, stride=.., remove_first_relu=..,
    add_last_bn=.., preact=..)]. *)
Definition block_init (block : block_class)
    (in_channels out_channels stride : N)
    (remove_first_relu add_last_bn preact : bool) : Block :=
  match block with
  | BasicBlock_class =>
      Basic (BasicBlock_init in_channels out_channels stride
               remove_first_relu add_last_bn preact)
  | BottleneckBlock_class =>
      Bottleneck (BottleneckBlock_init in_channels out_channels stride
                    remove_first_relu add_last_bn preact)
  end.

#[global] Instance Block_Module {T} `{Engine T} : Module T Block :=
  fun blk x =>
    match blk with
    | Basic b => BasicBlock_forward b x
    | Bottleneck b => BottleneckBlock_forward b x
    end.

(** *** Network *)

(** [feature_size] and [fc] are the attributes [__init__] sets last; they
    are absent while the feature size is being measured. *)
Record Network : Type := mkNetwork {
  net_remove_first_relu : bool;
  net_add_last_bn : bool;
  conv : Conv2d;
  stage1 : Sequential Block;
  stage2 : Sequential Block;
  stage3 : Sequential Block;
  bn : BatchNorm2d;
  feature_size : option N;
  fc : option Linear
}.

Definition n_channels (initial_channels : N) (block : block_class) : list N :=
  [ initial_channels;
    initial_channels * 2 * expansion block;
    initial_channels * 4 * expansion block ].

(** [self] is read for [_remove_first_relu] and [_add_last_bn] only. *)
Definition _make_stage (self_remove_first_relu self_add_last_bn : bool)
    (in_channels out_channels : N) (n_blocks : Z) (block : block_class)
    (stride : N) (preact : bool) : Sequential Block :=
  fold_left
    (fun stage index =>
       let block_name := ("block" ++ str_of_nat (index + 1)%nat)%string in
       if (index =? 0)%nat then
         add_module block_name
           (block_init block in_channels out_channels stride
              self_remove_first_relu self_add_last_bn preact)
           stage
       else
         add_module block_name
           (block_init block out_channels out_channels 1
              self_remove_first_relu self_add_last_bn false)
           stage)
    (range n_blocks) [].

Definition _forward_conv {T} `{Engine T} (self : Network) (x : T) : M T T :=
  (_ <- enter_forward_conv x ;;
   lift (x <- conv2d (conv self) x ;;
         x <- forward (stage1 self) x ;;
         x <- forward (stage2 self) x ;;
         x <- forward (stage3 self) x ;;
         b <- batch_norm (bn self) x ;;  (* apply BN and ReLU before average pooling *)
         adaptive_avg_pool2d (relu b) 1)%result)%torch.

Definition Network_forward {T} `{Engine T} (self : Network) (x : T) : M T T :=
  (x <- _forward_conv self x ;;
   lift (n <- getitem (size x) 0 ;;
         x <- view [Dim n; Infer] x ;;
         match fc self with
         | Some l => linear l x
         | None => Err AttributeError
         end)%result)%torch.

Definition Network_init {T} {E : Engine T} {I : Initializers}
    (config : Config.t)
  : M T Network :=
  let model_config := Config.resnet_preact (Config.model config) in
  let initial_channels := Config.ResnetPreact.initial_channels model_config in
  let remove_first_relu := Config.ResnetPreact.remove_first_relu model_config in
  let add_last_bn := Config.ResnetPreact.add_last_bn model_config in
  let block_type := Config.ResnetPreact.block_type model_config in
  let depth := Config.ResnetPreact.depth model_config in
  let preact_stage := Config.ResnetPreact.preact_stage model_config in
  let dataset := Config.dataset config in
  (_ <- lift (assert (existsb (String.eqb block_type) ["basic"; "bottleneck"])) ;;
   '(block, n_blocks_per_stage) <-
     lift (if String.eqb block_type "basic" then
             let n_blocks_per_stage := ((depth - 2) / 6)%Z in
             _ <- assert (n_blocks_per_stage * 6 + 2 =? depth)%Z ;;
             Ok (BasicBlock_class, n_blocks_per_stage)
           else
             let n_blocks_per_stage := ((depth - 2) / 9)%Z in
             _ <- assert (n_blocks_per_stage * 9 + 2 =? depth)%Z ;;
             Ok (BottleneckBlock_class, n_blocks_per_stage))%result ;;
   let n_channels := n_channels initial_channels block in
   let conv :=
     mkConv2d (Config.n_channels dataset) (nth 0 n_channels 0) 3 1 1 false in
   preact1 <- lift (getitem preact_stage 0) ;;
   let stage1 :=
     _make_stage remove_first_relu add_last_bn
       (nth 0 n_channels 0) (nth 0 n_channels 0) n_blocks_per_stage block
       1 preact1 in
   preact2 <- lift (getitem preact_stage 1) ;;
   let stage2 :=
     _make_stage remove_first_relu add_last_bn
       (nth 0 n_channels 0) (nth 1 n_channels 0) n_blocks_per_stage block
       2 preact2 in
   preact3 <- lift (getitem preact_stage 2) ;;
   let stage3 :=
     _make_stage remove_first_relu add_last_bn
       (nth 1 n_channels 0) (nth 2 n_channels 0) n_blocks_per_stage block
       2 preact3 in
   let bn := mkBatchNorm2d (nth 2 n_channels 0) in
   let self :=
     mkNetwork remove_first_relu add_last_bn conv stage1 stage2 stage3 bn
       None None in
   (* compute conv feature size *)
   feature_size <-
     no_grad
       (let dummy_data :=
          zeros [1; Config.n_channels dataset; Config.image_size dataset;
                 Config.image_size dataset] in
        out <- _forward_conv self dummy_data ;;
        lift (flat <- view [Infer] out ;; getitem (size flat) 0)%result) ;;
   let fc := mkLinear feature_size (Config.n_classes dataset) in
   (* initialize weights *)
   _ <- lift (create_initializer (Config.init_mode (Config.model config))) ;;
   mret (mkNetwork remove_first_relu add_last_bn conv stage1 stage2 stage3 bn
           (Some feature_size) (Some fc)))%torch.

End resnet_preact.

(* ================================================================== *)
(** ** wrn.py *)

(** [drop_rate > 0] on the rationals standing for Python floats. *)
Definition Qpositive (q : Q) : bool := negb (Qle_bool q 0).

Module wrn.

(** *** BasicBlock *)

Record BasicBlock : Type := mkBasicBlock {
  drop_rate : Q;
  _preactivate_both : bool;
  bn1 : BatchNorm2d;
  conv1 : Conv2d;
  bn2 : BatchNorm2d;
  conv2 : Conv2d;
  shortcut : Sequential Conv2d;
  training : bool                 (* nn.Module.training, True after __init__ *)
}.

Definition BasicBlock_init (in_channels out_channels stride : N)
    (drop_rate : Q) : BasicBlock :=
  {| drop_rate := drop_rate;
     _preactivate_both := negb (in_channels =? out_channels);
     bn1 := mkBatchNorm2d in_channels;
     conv1 := mkConv2d in_channels out_channels 3 stride 1 false;
     bn2 := mkBatchNorm2d out_channels;
     conv2 := mkConv2d out_channels out_channels 3 1 1 false;
     shortcut :=
       if negb (in_channels =? out_channels) then
         add_module "conv"
           (mkConv2d in_channels out_channels 1 stride 0 false) []
       else [];
     training := true |}.

Definition BasicBlock_forward {T} `{Engine T} (self : BasicBlock) (x : T)
  : result T :=
  ('(x, y) <-
     (if _preactivate_both self then
        b <- batch_norm (bn1 self) x ;;
        let x := relu b in            (* shortcut after preactivation *)
        y <- conv2d (conv1 self) x ;;
        Ok (x, y)
      else
        b <- batch_norm (bn1 self) x ;;
        let y := relu b in            (* preactivation only for residual path *)
        y <- conv2d (conv1 self) y ;;
        Ok (x, y)) ;;
   y <- (if Qpositive (drop_rate self) then
           dropout (drop_rate self) (training self) y
         else Ok y) ;;
   b <- batch_norm (bn2 self) y ;;
   y <- conv2d (conv2 self) (relu b) ;;
   s <- forward (shortcut self) x ;;
   iadd y s)%result.

#[global] Instance BasicBlock_Module {T} `{Engine T} : Module T BasicBlock :=
  BasicBlock_forward.

(** *** Network *)

Record Network : Type := mkNetwork {
  conv : Conv2d;
  stage1 : Sequential BasicBlock;
  stage2 : Sequential BasicBlock;
  stage3 : Sequential BasicBlock;
  bn : BatchNorm2d;
  feature_size : option N;
  fc : option Linear
}.

Definition n_channels (initial_channels widening_factor : N) : list N :=
  [ initial_channels;
    initial_channels * widening_factor;
    initial_channels * 2 * widening_factor;
    initial_channels * 4 * widening_factor ].

(** [block] is the class, called as its constructor. *)
Definition _make_stage (in_channels out_channels : N) (n_blocks : Z)
    (block : N -> N -> N -> Q -> BasicBlock) (stride : N) (drop_rate : Q)
  : Sequential BasicBlock :=
  fold_left
    (fun stage index =>
       let block_name := ("block" ++ str_of_nat (index + 1)%nat)%string in
       if (index =? 0)%nat then
         add_module block_name
           (block in_channels out_channels stride drop_rate) stage
       else
         add_module block_name
           (block out_channels out_channels 1 drop_rate) stage)
    (range n_blocks) [].

Definition _forward_conv {T} `{Engine T} (self : Network) (x : T) : M T T :=
  (_ <- enter_forward_conv x ;;
   lift (x <- conv2d (conv self) x ;;
         x <- forward (stage1 self) x ;;
         x <- forward (stage2 self) x ;;
         x <- forward (stage3 self) x ;;
         b <- batch_norm (bn self) x ;;
         adaptive_avg_pool2d (relu b) 1)%result)%torch.

Definition Network_forward {T} `{Engine T} (self : Network) (x : T) : M T T :=
  (x <- _forward_conv self x ;;
   lift (n <- getitem (size x) 0 ;;
         x <- view [Dim n; Infer] x ;;
         match fc self with
         | Some l => linear l x
         | None => Err AttributeError
         end)%result)%torch.

Definition Network_init {T} {E : Engine T} {I : Initializers}
    (config : Config.t)
  : M T Network :=
  let model_config := Config.wrn (Config.model config) in
  let depth := Config.Wrn.depth model_config in
  let initial_channels := Config.Wrn.initial_channels model_config in
  let widening_factor := Config.Wrn.widening_factor model_config in
  let drop_rate := Config.Wrn.drop_rate model_config in
  let dataset := Config.dataset config in
  let block := BasicBlock_init in
  let n_blocks_per_stage := ((depth - 4) / 6)%Z in
  (_ <- lift (assert (n_blocks_per_stage * 6 + 4 =? depth)%Z) ;;
   let n_channels := n_channels initial_channels widening_factor in
   let conv :=
     mkConv2d (Config.n_channels dataset) (nth 0 n_channels 0) 3 1 1 false in
   let stage1 :=
     _make_stage (nth 0 n_channels 0) (nth 1 n_channels 0)
       n_blocks_per_stage block 1 drop_rate in
   let stage2 :=
     _make_stage (nth 1 n_channels 0) (nth 2 n_channels 0)
       n_blocks_per_stage block 2 drop_rate in
   let stage3 :=
     _make_stage (nth 2 n_channels 0) (nth 3 n_channels 0)
       n_blocks_per_stage block 2 drop_rate in
   let bn := mkBatchNorm2d (nth 3 n_channels 0) in
   let self := mkNetwork conv stage1 stage2 stage3 bn None None in
   (* compute conv feature size *)
   feature_size <-
     no_grad
       (let dummy_data :=
          zeros [1; Config.n_channels dataset; Config.image_size dataset;
                 Config.image_size dataset] in
        out <- _forward_conv self dummy_data ;;
        lift (flat <- view [Infer] out ;; getitem (size flat) 0)%result) ;;
   let fc := mkLinear feature_size (Config.n_classes dataset) in
   (* initialize weights *)
   _ <- lift (create_initializer (Config.init_mode (Config.model config))) ;;
   mret (mkNetwork conv stage1 stage2 stage3 bn
           (Some feature_size) (Some fc)))%torch.

End wrn.

(* ================================================================== *)
(** ** The reference engine: tensors as shapes *)

(** Modelled from the spec: the numeric engine is an external collaborator
    (tensor allocation, convolution, batch normalization, elementwise add,
    rectified-linear activation, global average pooling, dense layer) whose
    failures are shape mismatches.  Here a tensor is its shape and each
    primitive follows the shape contract of [torch]; values are outside this
    engine.  The layers are in the mode [nn.Module.__init__] leaves them in,
    the training mode: neither source file calls [eval()]. *)
Definition Shape : Type := list N.

(** Output length of a convolution along one axis. *)
Definition conv_out (h k s p : N) : N := (h + 2 * p - k) / s + 1.

(** Channels of the result of a convolution applied to an input with [c]
    channels: an input without channels gives a result without channels. *)
Definition conv_channels (c : N) (l : Conv2d) : N :=
  if c =? 0 then 0 else conv_out_channels l.

Definition shape_conv2d (l : Conv2d) (x : Shape) : result Shape :=
  let k := kernel_size l in
  let s := conv_stride l in
  let p := padding l in
  if (s =? 0) || (k =? 0) || (conv_out_channels l =? 0) then Err RuntimeError
  else
    match x with
    | [b; c; h; w] =>
        if (c =? conv_in_channels l) && (k <=? h + 2 * p) && (k <=? w + 2 * p)
        then Ok [b; conv_channels c l; conv_out h k s p; conv_out w k s p]
        else Err RuntimeError
    | [c; h; w] =>                           (* unbatched input *)
        if (c =? conv_in_channels l) && (k <=? h + 2 * p) && (k <=? w + 2 * p)
        then Ok [conv_channels c l; conv_out h k s p; conv_out w k s p]
        else Err RuntimeError
    | _ => Err RuntimeError
    end.

(** A normalization layer in training mode: a 4-D input, more than one value
    per channel (the product of the sizes other than the channels is not 1),
    and the channel count the layer was built for, checked in this order.  A
    layer built for no channel has no weight to scale its input with. *)
Definition shape_batch_norm (l : BatchNorm2d) (x : Shape) : result Shape :=
  match x with
  | [b; c; h; w] =>
      if b * h * w =? 1 then Err ValueError  (* expected more than 1 value per channel *)
      else if c =? num_features l then
        if c =? 0 then Err IndexError else Ok x
      else Err RuntimeError
  | _ => Err ValueError                      (* expected 4D input *)
  end.

Definition shape_dropout (p : Q) (training : bool) (x : Shape) : result Shape :=
  if Qle_bool 0 p && Qle_bool p 1 then Ok x else Err ValueError.

(** [s] broadcasts to [y]; both are given last axis first. *)
Fixpoint broadcasts_to (s y : list N) : bool :=
  match s, y with
  | [], _ => true
  | _ :: _, [] => false
  | a :: s', b :: y' => ((a =? b) || (a =? 1)) && broadcasts_to s' y'
  end.

Definition shape_iadd (y s : Shape) : result Shape :=
  if broadcasts_to (rev s) (rev y) then Ok y else Err RuntimeError.

Definition shape_adaptive_avg_pool2d (x : Shape) (o : N) : result Shape :=
  match x with
  | [b; c; h; w] =>
      if (1 <=? h) && (1 <=? w) then Ok [b; c; o; o] else Err RuntimeError
  | [c; h; w] =>
      if (1 <=? h) && (1 <=? w) then Ok [c; o; o] else Err RuntimeError
  | _ => Err RuntimeError
  end.

Definition numel (x : Shape) : N := fold_right N.mul 1 x.

Definition known_product (ds : list dim) : N :=
  fold_right (fun d acc => match d with Dim n => n * acc | Infer => acc end) 1 ds.

Definition count_infer (ds : list dim) : nat :=
  List.length (filter (fun d => match d with Infer => true | Dim _ => false end) ds).

Definition fill_infer (v : N) (ds : list dim) : Shape :=
  map (fun d => match d with Dim n => n | Infer => v end) ds.

Definition shape_view (ds : list dim) (x : Shape) : result Shape :=
  let known := known_product ds in
  match count_infer ds with
  | O => if known =? numel x then Ok (fill_infer 0 ds) else Err RuntimeError
  | S O =>
      if known =? 0 then Err RuntimeError    (* -1 cannot be inferred *)
      else if numel x mod known =? 0 then Ok (fill_infer (numel x / known) ds)
      else Err RuntimeError
  | _ => Err RuntimeError                    (* only one dimension can be inferred *)
  end.

Definition shape_linear (l : Linear) (x : Shape) : result Shape :=
  match rev x with
  | last :: front =>
      if last =? in_features l then Ok (rev (out_features l :: front))
      else Err RuntimeError
  | [] => Err RuntimeError
  end.

#[export] Instance ShapeEngine : Engine Shape := {|
  zeros := fun s => s;
  size := fun x => x;
  conv2d := shape_conv2d;
  batch_norm := shape_batch_norm;
  relu := fun x => x;
  dropout := shape_dropout;
  iadd := shape_iadd;
  adaptive_avg_pool2d := shape_adaptive_avg_pool2d;
  view := shape_view;
  linear := shape_linear
|}.

(** The engine with the computed expression kept next to the shape: which
    primitive was applied to which signal. *)
Inductive Expr : Type :=
| Input
| Zeros
| EConv2d (l : Conv2d) (e : Expr)
| EBatchNorm (l : BatchNorm2d) (e : Expr)
| ERelu (e : Expr)
| EDropout (p : Q) (training : bool) (e : Expr)
| EAdd (y s : Expr)
| EAvgPool (e : Expr)
| EView (e : Expr)
| ELinear (l : Linear) (e : Expr).

Definition Traced : Type := (Shape * Expr)%type.

Definition traced (f : Shape -> result Shape) (g : Expr -> Expr) (x : Traced)
  : result Traced :=
  (s <- f (fst x) ;; Ok (s, g (snd x)))%result.

#[export] Instance TracedEngine : Engine Traced := {|
  zeros := fun s => (s, Zeros);
  size := fun x => fst x;
  conv2d := fun l => traced (shape_conv2d l) (EConv2d l);
  batch_norm := fun l => traced (shape_batch_norm l) (EBatchNorm l);
  relu := fun x => (fst x, ERelu (snd x));
  dropout := fun p t => traced (shape_dropout p t) (EDropout p t);
  iadd := fun y s =>
    (r <- shape_iadd (fst y) (fst s) ;; Ok (r, EAdd (snd y) (snd s)))%result;
  adaptive_avg_pool2d := fun x o =>
    traced (fun s => shape_adaptive_avg_pool2d s o) EAvgPool x;
  view := fun ds => traced (shape_view ds) EView;
  linear := fun l => traced (shape_linear l) (ELinear l)
|}.

(** Modelled from the spec: the initializer that exists for every mode (the
    spec lists no failure of it). *)
Definition any_initializer : Initializers := fun _ => Ok tt.

(** The state a program starts in: tracking enabled, no call made. *)
Definition fresh {T} : Torch T := mkTorch true [].

(* ================================================================== *)
(** ** Views of the source used in the statements *)

(** What a computation returns and the state it leaves. *)
Definition returned {T A} (m : M T A) (w : Torch T) : result A := fst (m w).
Definition final_state {T A} (m : M T A) (w : Torch T) : Torch T := snd (m w).

(** What [_forward_conv] returns; it does not depend on the global state. *)
Definition rp_features {T} `{Engine T} (self : resnet_preact.Network) (x : T)
  : result T := returned (resnet_preact._forward_conv self x) fresh.

Definition wrn_features {T} `{Engine T} (self : wrn.Network) (x : T)
  : result T := returned (wrn._forward_conv self x) fresh.

(** Hyper-parameters of a block, read off its layers. *)
Definition rp_block_in (b : resnet_preact.Block) : N :=
  match b with
  | resnet_preact.Basic b => conv_in_channels (resnet_preact.conv1 b)
  | resnet_preact.Bottleneck b => conv_in_channels (resnet_preact.b_conv1 b)
  end.

Definition rp_block_out (b : resnet_preact.Block) : N :=
  match b with
  | resnet_preact.Basic b => conv_out_channels (resnet_preact.conv2 b)
  | resnet_preact.Bottleneck b => conv_out_channels (resnet_preact.b_conv3 b)
  end.

(** The convolution that carries the stride: the first 3x3 of a basic block,
    the 3x3 of a bottleneck block. *)
Definition rp_block_stride (b : resnet_preact.Block) : N :=
  match b with
  | resnet_preact.Basic b => conv_stride (resnet_preact.conv1 b)
  | resnet_preact.Bottleneck b => conv_stride (resnet_preact.b_conv2 b)
  end.

Definition wrn_block_out (b : wrn.BasicBlock) : N := conv_out_channels (wrn.conv2 b).
Definition wrn_block_stride (b : wrn.BasicBlock) : N := conv_stride (wrn.conv1 b).

(** The name the stage builder gives the block at [index]. *)
Definition block_name (index : nat) : string :=
  ("block" ++ str_of_nat (index + 1)%nat)%string.

(** *** The blocks as the specification words them

    A block is a residual path and a shortcut path merged by addition; the
    specification says which signal each path receives. *)

(** Residual path of a basic block, from the pre-activation signal on:
    conv 3x3 (stride), normalize, activate, conv 3x3, optional last
    normalization. *)
Definition spec_basic_residual {T} `{Engine T} (self : resnet_preact.BasicBlock)
    (a : T) : result T :=
  (y <- conv2d (resnet_preact.conv1 self) a ;;
   b <- batch_norm (resnet_preact.bn2 self) y ;;
   y <- conv2d (resnet_preact.conv2 self) (relu b) ;;
   if resnet_preact._add_last_bn self then
     match resnet_preact.bn3 self with
     | Some l => batch_norm l y
     | None => Err AttributeError
     end
   else Ok y)%result.

(** Residual path of a bottleneck block, from the pre-activation signal on. *)
Definition spec_bottleneck_residual {T} `{Engine T}
    (self : resnet_preact.BottleneckBlock) (a : T) : result T :=
  (y <- conv2d (resnet_preact.b_conv1 self) a ;;
   b <- batch_norm (resnet_preact.b_bn2 self) y ;;
   y <- conv2d (resnet_preact.b_conv2 self) (relu b) ;;
   b <- batch_norm (resnet_preact.b_bn3 self) y ;;
   y <- conv2d (resnet_preact.b_conv3 self) (relu b) ;;
   if resnet_preact.b_add_last_bn self then
     match resnet_preact.b_bn4 self with
     | Some l => batch_norm l y
     | None => Err AttributeError
     end
   else Ok y)%result.

(** The placement rule: from the input [x] and its normalization [n], the
    signal of the residual path and the signal of the shortcut path. *)
Definition spec_placement {T} `{Engine T} (preact remove_first_relu : bool)
    (x n : T) : T * T :=
  if preact then (relu n, relu n)
  else ((if remove_first_relu then n else relu n), x).

Definition spec_BasicBlock_forward {T} `{Engine T}
    (self : resnet_preact.BasicBlock) (x : T) : result T :=
  (n <- batch_norm (resnet_preact.bn1 self) x ;;
   let (to_residual, to_shortcut) :=
     spec_placement (resnet_preact._preact self)
       (resnet_preact._remove_first_relu self) x n in
   y <- spec_basic_residual self to_residual ;;
   s <- forward (resnet_preact.shortcut self) to_shortcut ;;
   iadd y s)%result.

Definition spec_BottleneckBlock_forward {T} `{Engine T}
    (self : resnet_preact.BottleneckBlock) (x : T) : result T :=
  (n <- batch_norm (resnet_preact.b_bn1 self) x ;;
   let (to_residual, to_shortcut) :=
     spec_placement (resnet_preact.b_preact self)
       (resnet_preact.b_remove_first_relu self) x n in
   y <- spec_bottleneck_residual self to_residual ;;
   s <- forward (resnet_preact.b_shortcut self) to_shortcut ;;
   iadd y s)%result.

(** The wrn block: the activation after the first normalization is always
    applied; [same_channels] decides what the shortcut path receives; dropout
    sits between the two convolutions when the rate is positive. *)
Definition spec_wrn_forward {T} `{Engine T} (same_channels : bool)
    (self : wrn.BasicBlock) (x : T) : result T :=
  (n <- batch_norm (wrn.bn1 self) x ;;
   let a := relu n in
   y <- conv2d (wrn.conv1 self) a ;;
   y <- (if Qpositive (wrn.drop_rate self)
         then dropout (wrn.drop_rate self) (wrn.training self) y
         else Ok y) ;;
   b <- batch_norm (wrn.bn2 self) y ;;
   y <- conv2d (wrn.conv2 self) (relu b) ;;
   s <- forward (wrn.shortcut self) (if same_channels then x else a) ;;
   iadd y s)%result.

(** The 1x1 projection a shortcut holds when it is not the identity. *)
Definition projection (in_channels out_channels stride : N)
  : Sequential Conv2d :=
  [("conv", mkConv2d in_channels out_channels 1 stride 0 false)].

(** The block class and the blocks per stage [Network.__init__] of
    resnet_preact derives from [block_type] and [depth], with its depth
    assertion. *)
Definition rp_choice (block_type : string) (depth : Z)
  : result (resnet_preact.block_class * Z) :=
  if String.eqb block_type "basic" then
    (_ <- assert (((depth - 2) / 6) * 6 + 2 =? depth)%Z ;;
     Ok (resnet_preact.BasicBlock_class, ((depth - 2) / 6)%Z))%result
  else
    (_ <- assert (((depth - 2) / 9) * 9 + 2 =? depth)%Z ;;
     Ok (resnet_preact.BottleneckBlock_class, ((depth - 2) / 9)%Z))%result.

(** The block the stage builder makes at [index]: [first] at index 0, [rest]
    afterwards. *)
Definition nth_block {A} (first rest : A) (index : nat) : A :=
  if (index =? 0)%nat then first else rest.

(** The dropout rate is usable: not positive (dropout is skipped), or at
    most one. *)
Definition drop_rate_ok (p : Q) : bool := negb (Qpositive p) || Qle_bool p 1.

(** The network the assembler of resnet_preact puts together from the input
    channel count, the initial width, the two flags, the block class, the
    blocks per stage and the three pre-activation flags; [fs] and [fc] are
    the two attributes set last. *)
Definition rp_assembled (nc ic : N) (rfr alb : bool)
    (block : resnet_preact.block_class) (n : Z) (p1 p2 p3 : bool)
    (fs : option N) (fc : option Linear) : resnet_preact.Network :=
  let e := resnet_preact.expansion block in
  resnet_preact.mkNetwork rfr alb
    (mkConv2d nc ic 3 1 1 false)
    (resnet_preact._make_stage rfr alb ic ic n block 1 p1)
    (resnet_preact._make_stage rfr alb ic (ic * 2 * e) n block 2 p2)
    (resnet_preact._make_stage rfr alb (ic * 2 * e) (ic * 4 * e) n block 2 p3)
    (mkBatchNorm2d (ic * 4 * e))
    fs fc.

(** The same for wrn, from the input channel count, the initial width, the
    widening factor, the blocks per stage and the dropout rate. *)
Definition wrn_assembled (nc ic wf : N) (n : Z) (p : Q)
    (fs : option N) (fc : option Linear) : wrn.Network :=
  wrn.mkNetwork
    (mkConv2d nc ic 3 1 1 false)
    (wrn._make_stage ic (ic * wf) n wrn.BasicBlock_init 1 p)
    (wrn._make_stage (ic * wf) (ic * 2 * wf) n wrn.BasicBlock_init 2 p)
    (wrn._make_stage (ic * 2 * wf) (ic * 4 * wf) n wrn.BasicBlock_init 2 p)
    (mkBatchNorm2d (ic * 4 * wf))
    fs fc.

(** The dummy input of the feature-size probe. *)
Definition dummy_data {T} `{Engine T} (config : Config.t) : T :=
  zeros [1; Config.n_channels (Config.dataset config);
         Config.image_size (Config.dataset config);
         Config.image_size (Config.dataset config)].

(** The state after one call of [_forward_conv] on [x] made with tracking
    in mode [g], the mode of [w] being kept. *)
Definition after_call {T} (w : Torch T) (g : bool) (x : T) : Torch T :=
  mkTorch (grad_enabled w) (calls w ++ [mkCall g x]).

(** *** The depth relation as the specification words it *)

(** Blocks per stage, [(depth - c) / k]. *)
Definition rp_blocks_per_stage (block_type : string) (depth : Z) : Z :=
  if String.eqb block_type "basic" then ((depth - 2) / 6)%Z
  else ((depth - 2) / 9)%Z.

Definition wrn_blocks_per_stage (depth : Z) : Z := ((depth - 4) / 6)%Z.

(** The exact divisibility relation of each variant. *)
Definition rp_depth_relation (block_type : string) (depth : Z) : Prop :=
  (block_type = "basic"
   /\ (rp_blocks_per_stage block_type depth * 6 + 2)%Z = depth)
  \/ (block_type = "bottleneck"
      /\ (rp_blocks_per_stage block_type depth * 9 + 2)%Z = depth).

Definition wrn_depth_relation (depth : Z) : Prop :=
  (wrn_blocks_per_stage depth * 6 + 4)%Z = depth.

(** The block class a block type stands for. *)
Definition rp_block_class (block_type : string) : resnet_preact.block_class :=
  if String.eqb block_type "basic" then resnet_preact.BasicBlock_class
  else resnet_preact.BottleneckBlock_class.

(** The rest of a configuration is usable: the images have at least one
    channel, every convolution has at least one output channel (a bottleneck
    block needs an initial width of four), the image is at least 5 pixels
    wide (the probe is a batch of one image, and a quarter of its width,
    rounded up, must leave more than one value per channel for the
    normalization layers in training mode), the three pre-activation flags
    are given, the dropout rate is usable and the initializer exists. *)
Definition rp_well_sized `{Initializers} (config : Config.t) : Prop :=
  let mc := Config.resnet_preact (Config.model config) in
  1 <= Config.n_channels (Config.dataset config)
  /\ 1 <= Config.ResnetPreact.initial_channels mc
          / resnet_preact.expansion
              (rp_block_class (Config.ResnetPreact.block_type mc))
  /\ 5 <= Config.image_size (Config.dataset config)
  /\ (3 <= List.length (Config.ResnetPreact.preact_stage mc))%nat
  /\ create_initializer (Config.init_mode (Config.model config)) = Ok tt.

Definition wrn_well_sized `{Initializers} (config : Config.t) : Prop :=
  let mc := Config.wrn (Config.model config) in
  1 <= Config.n_channels (Config.dataset config)
  /\ 1 <= Config.Wrn.initial_channels mc
  /\ 1 <= Config.Wrn.widening_factor mc
  /\ 5 <= Config.image_size (Config.dataset config)
  /\ drop_rate_ok (Config.Wrn.drop_rate mc) = true
  /\ create_initializer (Config.init_mode (Config.model config)) = Ok tt.

(** *** The forward pass as the specification words it *)

(** [x1 .. x7] and [y] are the results of, in order: the stem convolution,
    the three stages, the final normalization, the activation followed by
    global average pooling, the flattening, and the classifier. *)
Definition in_order {T} `{Engine T} (stem : Conv2d)
    (stage1 stage2 stage3 : T -> result T) (bn : BatchNorm2d)
    (fc : option Linear) (x x1 x2 x3 x4 x5 x6 x7 y : T) : Prop :=
  conv2d stem x = Ok x1
  /\ stage1 x1 = Ok x2
  /\ stage2 x2 = Ok x3
  /\ stage3 x3 = Ok x4
  /\ batch_norm bn x4 = Ok x5
  /\ adaptive_avg_pool2d (relu x5) 1 = Ok x6
  /\ (exists n, getitem (size x6) 0 = Ok n /\ view [Dim n; Infer] x6 = Ok x7)
  /\ (exists l, fc = Some l /\ linear l x7 = Ok y).

(** The forward pass as the specification words it: stem, stage 1, stage 2,
    stage 3, final normalization and activation, global average pooling to
    1x1, flattening to (batch, features), linear classifier; the first step
    that raises ends the pass. *)
Definition spec_forward {T} `{Engine T} (stem : Conv2d)
    (stage1 stage2 stage3 : T -> result T) (bn : BatchNorm2d)
    (fc : option Linear) (x : T) : result T :=
  (x1 <- conv2d stem x ;;
   x2 <- stage1 x1 ;;
   x3 <- stage2 x2 ;;
   x4 <- stage3 x3 ;;
   x5 <- batch_norm bn x4 ;;
   x6 <- adaptive_avg_pool2d (relu x5) 1 ;;
   n <- getitem (size x6) 0 ;;
   x7 <- view [Dim n; Infer] x6 ;;
   match fc with
   | Some l => linear l x7
   | None => Err AttributeError
   end)%result.

(** The stride of the first block of a stage. *)
Definition first_stride {A} (stride_of : A -> N) (stage : Sequential A)
  : option N := option_map stride_of (hd_error (modules stage)).

(** *** Configurations used as examples *)

Definition example_config (block_type : string) (depth : Z) : Config.t :=
  Config.mk
    (Config.mkModel
       (Config.ResnetPreact.mk 16 false false block_type depth
          [true; true; true])
       (Config.Wrn.mk depth 16 10 0)
       "kaiming_fan_out")
    (Config.mkDataset 3 32 10).

(* ================================================================== *)
(** ** Further views of the source *)

(** The shortcut of a block of either class. *)
Definition rp_block_shortcut (b : resnet_preact.Block) : Sequential Conv2d :=
  match b with
  | resnet_preact.Basic b => resnet_preact.shortcut b
  | resnet_preact.Bottleneck b => resnet_preact.b_shortcut b
  end.

(** A shortcut is chosen the way the stride would also ask for: it is the
    identity exactly when the channel counts agree and the stride is 1. *)
Definition shortcut_by_stride (shortcut : Sequential Conv2d)
    (in_channels out_channels stride : N) : Prop :=
  shortcut = [] <-> (in_channels = out_channels /\ stride = 1).

(** The configuration with another image size. *)
Definition with_image_size (config : Config.t) (image_size : N) : Config.t :=
  Config.mk (Config.model config)
    (Config.mkDataset (Config.n_channels (Config.dataset config)) image_size
       (Config.n_classes (Config.dataset config))).

(** Layers per block of a block type: 6 for the basic block (the literal
    the depth assertion uses), 9 otherwise. *)
Definition rp_layers_per_block (block_type : string) : Z :=
  if String.eqb block_type "basic" then 6%Z else 9%Z.

(* ================================================================== *)
(** * Properties *)

(** ** Computations that may raise *)

Lemma assert_ok (c : bool) : assert c = Ok tt <-> c = true.
Proof. destruct c; simpl; split; intro E; try reflexivity; discriminate E. Qed.

Lemma is_ok_bind_false {A B} (r : result A) (k : A -> result B) :
  is_ok r = false -> is_ok (rbind r k) = false.
Proof. destruct r; [discriminate | reflexivity]. Qed.

(** Case analysis on the first primitive of a sequence of calls. *)
Ltac on_call :=
  match goal with
  | |- context [rbind ?r _] =>
      lazymatch r with
      | rbind _ _ => fail
      | Ok _ => fail
      | Err _ => fail
      | _ => destruct r; cbn [rbind]; try reflexivity
      end
  end.

(** ** The shortcut *)

Lemma shortcut_choice (cin cout stride : N) :
  (if negb (cin =? cout)
   then add_module "conv" (mkConv2d cin cout 1 stride 0 false) []
   else [])
  = if cin =? cout then [] else projection cin cout stride.
Proof. now destruct (cin =? cout). Qed.

Lemma shortcut_cases {T} `{Engine T} (cin cout stride : N) (x : T)
    (s : Sequential Conv2d) :
  s = (if cin =? cout then [] else projection cin cout stride) ->
  (s = [] <-> cin = cout)
  /\ (cin = cout -> forward s x = Ok x)
  /\ (cin <> cout -> s = projection cin cout stride).
Proof.
  intros ->. destruct (N.eqb_spec cin cout) as [Heq|Hne]; repeat split;
    intros; try reflexivity; try assumption; try contradiction.
  discriminate.
Qed.

(** C2, as the code has it.  In every residual block (basic and bottleneck
    of resnet_preact, basic of wrn) the shortcut is the identity exactly when
    [in_channels == out_channels], whatever the stride; otherwise it is a 1x1
    convolution with the stride of the block. *)
Theorem C2_shortcut_selection :
  forall (T : Type) (E : Engine T) (in_channels out_channels stride : N)
         (rfr alb preact : bool) (p : Q) (x : T),
    let basic :=
      resnet_preact.shortcut
        (resnet_preact.BasicBlock_init in_channels out_channels stride
           rfr alb preact) in
    let bottleneck :=
      resnet_preact.b_shortcut
        (resnet_preact.BottleneckBlock_init in_channels out_channels stride
           rfr alb preact) in
    let wide :=
      wrn.shortcut (wrn.BasicBlock_init in_channels out_channels stride p) in
    ((basic = [] <-> in_channels = out_channels)
     /\ (in_channels = out_channels -> forward basic x = Ok x)
     /\ (in_channels <> out_channels ->
         basic = projection in_channels out_channels stride))
    /\ ((bottleneck = [] <-> in_channels = out_channels)
        /\ (in_channels = out_channels -> forward bottleneck x = Ok x)
        /\ (in_channels <> out_channels ->
            bottleneck = projection in_channels out_channels stride))
    /\ ((wide = [] <-> in_channels = out_channels)
        /\ (in_channels = out_channels -> forward wide x = Ok x)
        /\ (in_channels <> out_channels ->
            wide = projection in_channels out_channels stride)).
Proof.
  intros T E cin cout stride rfr alb preact p x basic bottleneck wide.
  refine (conj _ (conj _ _));
    apply shortcut_cases with (stride := stride); apply shortcut_choice.
Qed.

(** C2 as stated fails: a block with equal channel counts and stride 2 has
    the identity shortcut, not a strided 1x1 convolution. *)
Lemma C2_counterexample :
  ~ (resnet_preact.shortcut
       (resnet_preact.BasicBlock_init 16 16 2 false false false) = []
     <-> (16 = 16 /\ 2 = 1))
  /\ ~ (resnet_preact.b_shortcut
          (resnet_preact.BottleneckBlock_init 16 16 2 false false false) = []
        <-> (16 = 16 /\ 2 = 1))
  /\ ~ (wrn.shortcut (wrn.BasicBlock_init 16 16 2 0) = []
        <-> (16 = 16 /\ 2 = 1)).
Proof.
  repeat split; intros [H _]; destruct (H eq_refl) as [_ H2]; discriminate H2.
Qed.

(** The strided block with the identity shortcut cannot add its two paths
    on an 8x8 input: the residual path is 4x4. *)
Example strided_identity_shortcut :
  resnet_preact.BasicBlock_forward
    (resnet_preact.BasicBlock_init 16 16 2 false false false) [1; 16; 8; 8]
  = Err RuntimeError.
Proof. reflexivity. Qed.

(** ** Placement of the pre-activation *)

Section Placement.

Context {T : Type} `{Engine T}.

Lemma BasicBlock_forward_spec (self : resnet_preact.BasicBlock) (x : T) :
  resnet_preact.BasicBlock_forward self x = spec_BasicBlock_forward self x.
Proof.
  unfold resnet_preact.BasicBlock_forward, spec_BasicBlock_forward,
    spec_placement, spec_basic_residual.
  destruct (resnet_preact._preact self); cbn [rbind negb].
  - repeat on_call.
  - destruct (resnet_preact._remove_first_relu self); cbn [negb];
      repeat on_call.
Qed.

Lemma BottleneckBlock_forward_spec (self : resnet_preact.BottleneckBlock)
    (x : T) :
  resnet_preact.BottleneckBlock_forward self x
  = spec_BottleneckBlock_forward self x.
Proof.
  unfold resnet_preact.BottleneckBlock_forward, spec_BottleneckBlock_forward,
    spec_placement, spec_bottleneck_residual.
  destruct (resnet_preact.b_preact self); cbn [rbind negb].
  - repeat on_call.
  - destruct (resnet_preact.b_remove_first_relu self); cbn [negb];
      repeat on_call.
Qed.

End Placement.

(** C3. In the forward pass of the pre-activation blocks (basic and
    bottleneck) the input is normalized first.  With [preact] the activation
    follows and the activated signal feeds both the residual and the shortcut
    path.  Without [preact] the activation is applied unless
    [remove_first_relu], the result feeds the residual path only, and the
    shortcut path receives the raw input. *)
Theorem C3_preactivation_placement :
  forall (T : Type) (E : Engine T)
         (basic : resnet_preact.BasicBlock)
         (bottleneck : resnet_preact.BottleneckBlock)
         (remove_first_relu : bool) (x n : T),
    resnet_preact.BasicBlock_forward basic x = spec_BasicBlock_forward basic x
    /\ resnet_preact.BottleneckBlock_forward bottleneck x
       = spec_BottleneckBlock_forward bottleneck x
    /\ spec_placement true remove_first_relu x n = (relu n, relu n)
    /\ spec_placement false false x n = (relu n, x)
    /\ spec_placement false true x n = (n, x).
Proof.
  intros. repeat split.
  - apply BasicBlock_forward_spec.
  - apply BottleneckBlock_forward_spec.
Qed.

(** The placement on a concrete block: with [preact] the projection of the
    shortcut reads the activated signal, without it the raw input. *)
Example placement_traced :
  let x : Traced := ([1; 16; 8; 8], Input) in
  let a := ERelu (EBatchNorm (mkBatchNorm2d 16) Input) in
  let residual e :=
    EConv2d (mkConv2d 32 32 3 1 1 false)
      (ERelu (EBatchNorm (mkBatchNorm2d 32)
                (EConv2d (mkConv2d 16 32 3 2 1 false) e))) in
  let project := EConv2d (mkConv2d 16 32 1 2 0 false) in
  resnet_preact.BasicBlock_forward
    (resnet_preact.BasicBlock_init 16 32 2 false false true) x
  = Ok ([1; 32; 4; 4], EAdd (residual a) (project a))
  /\ resnet_preact.BasicBlock_forward
       (resnet_preact.BasicBlock_init 16 32 2 false false false) x
     = Ok ([1; 32; 4; 4], EAdd (residual a) (project Input))
  /\ resnet_preact.BasicBlock_forward
       (resnet_preact.BasicBlock_init 16 32 2 true false false) x
     = Ok ([1; 32; 4; 4],
           EAdd (residual (EBatchNorm (mkBatchNorm2d 16) Input))
                (project Input)).
Proof. repeat split. Qed.

(** C9. A pre-activation block (basic or bottleneck) constructed with
    [preact = true] computes the same output whatever [remove_first_relu]
    is, in particular for true and for false, on every input and for every
    engine. *)
Theorem C9_remove_first_relu_ignored_under_preact :
  forall (T : Type) (E : Engine T) (in_channels out_channels stride : N)
         (add_last_bn : bool) (x : T),
    (forall r1 r2 : bool,
        resnet_preact.BasicBlock_forward
          (resnet_preact.BasicBlock_init in_channels out_channels stride
             r1 add_last_bn true) x
        = resnet_preact.BasicBlock_forward
            (resnet_preact.BasicBlock_init in_channels out_channels stride
               r2 add_last_bn true) x)
    /\ (forall r1 r2 : bool,
          resnet_preact.BottleneckBlock_forward
            (resnet_preact.BottleneckBlock_init in_channels out_channels
               stride r1 add_last_bn true) x
          = resnet_preact.BottleneckBlock_forward
              (resnet_preact.BottleneckBlock_init in_channels out_channels
                 stride r2 add_last_bn true) x)
    /\ resnet_preact.BasicBlock_forward
         (resnet_preact.BasicBlock_init in_channels out_channels stride
            true add_last_bn true) x
       = resnet_preact.BasicBlock_forward
           (resnet_preact.BasicBlock_init in_channels out_channels stride
              false add_last_bn true) x
    /\ resnet_preact.BottleneckBlock_forward
         (resnet_preact.BottleneckBlock_init in_channels out_channels stride
            true add_last_bn true) x
       = resnet_preact.BottleneckBlock_forward
           (resnet_preact.BottleneckBlock_init in_channels out_channels stride
              false add_last_bn true) x.
Proof.
  intros T E cin cout stride alb x.
  assert (Hbasic : forall r1 r2 : bool,
    resnet_preact.BasicBlock_forward
      (resnet_preact.BasicBlock_init cin cout stride r1 alb true) x
    = resnet_preact.BasicBlock_forward
        (resnet_preact.BasicBlock_init cin cout stride r2 alb true) x).
  { intros r1 r2. rewrite !BasicBlock_forward_spec.
    unfold spec_BasicBlock_forward.
    cbn [resnet_preact._preact resnet_preact._remove_first_relu
         resnet_preact.BasicBlock_init spec_placement].
    reflexivity. }
  assert (Hbottleneck : forall r1 r2 : bool,
    resnet_preact.BottleneckBlock_forward
      (resnet_preact.BottleneckBlock_init cin cout stride r1 alb true) x
    = resnet_preact.BottleneckBlock_forward
        (resnet_preact.BottleneckBlock_init cin cout stride r2 alb true) x).
  { intros r1 r2. rewrite !BottleneckBlock_forward_spec.
    unfold spec_BottleneckBlock_forward.
    cbn [resnet_preact.b_preact resnet_preact.b_remove_first_relu
         resnet_preact.BottleneckBlock_init spec_placement].
    reflexivity. }
  repeat split; auto.
Qed.

(** Without [preact] the flag does change the output. *)
Example remove_first_relu_matters_without_preact :
  let x : Traced := ([1; 16; 8; 8], Input) in
  resnet_preact.BasicBlock_forward
    (resnet_preact.BasicBlock_init 16 16 1 true false false) x
  <> resnet_preact.BasicBlock_forward
       (resnet_preact.BasicBlock_init 16 16 1 false false false) x.
Proof. cbv. discriminate. Qed.

(** ** The wrn block *)

Lemma wrn_forward_spec {T} `{Engine T} (in_channels out_channels stride : N)
    (drop_rate : Q) (x : T) :
  wrn.BasicBlock_forward
    (wrn.BasicBlock_init in_channels out_channels stride drop_rate) x
  = spec_wrn_forward (in_channels =? out_channels)
      (wrn.BasicBlock_init in_channels out_channels stride drop_rate) x.
Proof.
  unfold wrn.BasicBlock_forward, spec_wrn_forward.
  cbn [wrn._preactivate_both wrn.BasicBlock_init wrn.bn1 wrn.conv1 wrn.bn2
       wrn.conv2 wrn.shortcut wrn.drop_rate wrn.training].
  destruct (in_channels =? out_channels); cbn [negb rbind];
    destruct (Qpositive drop_rate); repeat on_call.
Qed.

(** C10. In the wrn block the signal of the shortcut path is decided by the
    channel equality fixed at construction: with different channel counts the
    normalized and activated input feeds both paths; with equal counts the
    shortcut is the identity on the raw input and only the residual path is
    pre-activated.  The first activation is always applied, and dropout sits
    between the two convolutions exactly when [drop_rate > 0]. *)
Theorem C10_wrn_block_forward :
  forall (T : Type) (E : Engine T) (in_channels out_channels stride : N)
         (drop_rate : Q) (x : T),
    let self := wrn.BasicBlock_init in_channels out_channels stride drop_rate in
    wrn._preactivate_both self = negb (in_channels =? out_channels)
    /\ wrn.BasicBlock_forward self x
       = spec_wrn_forward (in_channels =? out_channels) self x
    /\ wrn.shortcut self
       = (if in_channels =? out_channels then []
          else projection in_channels out_channels stride).
Proof.
  intros. repeat split.
  - apply wrn_forward_spec.
  - unfold self; cbn [wrn.shortcut wrn.BasicBlock_init].
    destruct (in_channels =? out_channels); reflexivity.
Qed.

(** Dropout appears in the computed expression for a positive rate only. *)
Example wrn_dropout_traced :
  let x : Traced := ([1; 16; 8; 8], Input) in
  let a := ERelu (EBatchNorm (mkBatchNorm2d 16) Input) in
  let tail e :=
    EConv2d (mkConv2d 16 16 3 1 1 false)
      (ERelu (EBatchNorm (mkBatchNorm2d 16) e)) in
  let first := EConv2d (mkConv2d 16 16 3 1 1 false) a in
  wrn.BasicBlock_forward (wrn.BasicBlock_init 16 16 1 (3 # 10)) x
  = Ok ([1; 16; 8; 8], EAdd (tail (EDropout (3 # 10) true first)) Input)
  /\ wrn.BasicBlock_forward (wrn.BasicBlock_init 16 16 1 0) x
     = Ok ([1; 16; 8; 8], EAdd (tail first) Input).
Proof. split; reflexivity. Qed.

(** ** Construction, step by step *)

Section Init.

Context {T : Type} {E : Engine T} {I : Initializers}.

Lemma rp_forward_conv_run (self : resnet_preact.Network) (x : T) (w : Torch T) :
  resnet_preact._forward_conv self x w
  = (rp_features self x, after_call w (grad_enabled w) x).
Proof. reflexivity. Qed.

Lemma wrn_forward_conv_run (self : wrn.Network) (x : T) (w : Torch T) :
  wrn._forward_conv self x w
  = (wrn_features self x, after_call w (grad_enabled w) x).
Proof. reflexivity. Qed.

Ltac config_fields :=
  cbn [Config.resnet_preact Config.wrn Config.model Config.dataset
       Config.ResnetPreact.initial_channels
       Config.ResnetPreact.remove_first_relu Config.ResnetPreact.add_last_bn
       Config.ResnetPreact.block_type Config.ResnetPreact.depth
       Config.ResnetPreact.preact_stage
       Config.Wrn.depth Config.Wrn.initial_channels
       Config.Wrn.widening_factor Config.Wrn.drop_rate
       Config.n_channels Config.image_size Config.n_classes Config.init_mode]
    in *.

(** What a successful construction of the resnet_preact network went
    through. *)
Lemma rp_init_inv (cfg : Config.t) (w w' : Torch T)
    (net : resnet_preact.Network) :
  resnet_preact.Network_init cfg w = (Ok net, w') ->
  let mc := Config.resnet_preact (Config.model cfg) in
  let ds := Config.dataset cfg in
  exists block n p1 p2 p3 out flat fsz,
    existsb (String.eqb (Config.ResnetPreact.block_type mc))
      ["basic"; "bottleneck"] = true
    /\ rp_choice (Config.ResnetPreact.block_type mc)
         (Config.ResnetPreact.depth mc) = Ok (block, n)
    /\ Config.ResnetPreact.preact_stage mc
       = p1 :: p2 :: p3 :: skipn 3 (Config.ResnetPreact.preact_stage mc)
    /\ net
       = rp_assembled (Config.n_channels ds)
           (Config.ResnetPreact.initial_channels mc)
           (Config.ResnetPreact.remove_first_relu mc)
           (Config.ResnetPreact.add_last_bn mc) block n p1 p2 p3
           (Some fsz) (Some (mkLinear fsz (Config.n_classes ds)))
    /\ rp_features net (dummy_data cfg) = Ok out
    /\ view [Infer] out = Ok flat
    /\ getitem (size flat) 0 = Ok fsz
    /\ create_initializer (Config.init_mode (Config.model cfg)) = Ok tt
    /\ w' = after_call w false (dummy_data cfg).
Proof.
  destruct cfg as [[[ic rfr alb bt depth ps] wr mode] [nc img ncls]].
  unfold resnet_preact.Network_init, dummy_data. config_fields.
  unfold mbind at 1. unfold lift at 1.
  destruct (assert _) as [[]|e] eqn:Hbt; [|discriminate].
  apply assert_ok in Hbt.
  unfold mbind at 1. unfold lift at 1.
  fold (rp_choice bt depth).
  destruct (rp_choice bt depth) as [[block n]|e] eqn:Hch; [|discriminate].
  unfold mbind at 1. unfold lift at 1.
  destruct ps as [|p1 ps]; [discriminate|]. cbn [getitem nth_error].
  unfold mbind at 1. unfold lift at 1.
  destruct ps as [|p2 ps]; [discriminate|]. cbn [getitem nth_error].
  unfold mbind at 1. unfold lift at 1.
  destruct ps as [|p3 ps]; [discriminate|]. cbn [getitem nth_error].
  cbn [resnet_preact.n_channels nth].
  unfold mbind at 1. unfold no_grad.
  cbn [grad_enabled calls].
  unfold mbind at 1. rewrite rp_forward_conv_run.
  cbn [grad_enabled calls after_call].
  match goal with |- context [rp_features ?s ?d] =>
    destruct (rp_features s d) as [out|e] eqn:Hout; [|discriminate] end.
  unfold lift at 1.
  destruct (view [Infer] out) as [flat|e] eqn:Hflat; [|discriminate].
  cbn [rbind].
  destruct (getitem (size flat) 0) as [fsz|e] eqn:Hfsz; [|discriminate].
  unfold mbind at 1. unfold lift at 1.
  destruct (create_initializer mode) as [[]|e] eqn:Hinit; [|discriminate].
  unfold mret. intro Heq. injection Heq as <- <-.
  exists block, n, p1, p2, p3, out, flat, fsz.
  cbn [skipn]. repeat split; try assumption.
Qed.

(** A construction of the resnet_preact network that goes through. *)
Lemma rp_init_ok (cfg : Config.t) (w : Torch T)
    (block : resnet_preact.block_class) (n : Z) (p1 p2 p3 : bool)
    (ps : list bool) (out flat : T) (fsz : N) :
  let mc := Config.resnet_preact (Config.model cfg) in
  let ds := Config.dataset cfg in
  existsb (String.eqb (Config.ResnetPreact.block_type mc))
    ["basic"; "bottleneck"] = true ->
  rp_choice (Config.ResnetPreact.block_type mc)
    (Config.ResnetPreact.depth mc) = Ok (block, n) ->
  Config.ResnetPreact.preact_stage mc = p1 :: p2 :: p3 :: ps ->
  rp_features
    (rp_assembled (Config.n_channels ds)
       (Config.ResnetPreact.initial_channels mc)
       (Config.ResnetPreact.remove_first_relu mc)
       (Config.ResnetPreact.add_last_bn mc) block n p1 p2 p3 None None)
    (dummy_data cfg) = Ok out ->
  view [Infer] out = Ok flat ->
  getitem (size flat) 0 = Ok fsz ->
  create_initializer (Config.init_mode (Config.model cfg)) = Ok tt ->
  resnet_preact.Network_init cfg w
  = (Ok (rp_assembled (Config.n_channels ds)
           (Config.ResnetPreact.initial_channels mc)
           (Config.ResnetPreact.remove_first_relu mc)
           (Config.ResnetPreact.add_last_bn mc) block n p1 p2 p3
           (Some fsz) (Some (mkLinear fsz (Config.n_classes ds)))),
     after_call w false (dummy_data cfg)).
Proof.
  destruct cfg as [[[ic rfr alb bt depth pss] wr mode] [nc img ncls]].
  unfold dummy_data. config_fields.
  intros Hbt Hch Hps Hout Hflat Hfsz Hinit.
  unfold resnet_preact.Network_init. config_fields.
  rewrite Hbt. fold (rp_choice bt depth). rewrite Hch, Hps, Hinit.
  unfold mbind, lift, no_grad, mret. cbn [assert getitem nth_error].
  rewrite rp_forward_conv_run. cbn [resnet_preact.n_channels nth].
  cbn [grad_enabled calls after_call].
  unfold rp_assembled in Hout. rewrite Hout, Hflat. cbn [rbind].
  now rewrite Hfsz.
Qed.

(** A failed depth or block-type assertion fails the construction. *)
Lemma rp_init_assertion (cfg : Config.t) (w : Torch T) (e : error) :
  let mc := Config.resnet_preact (Config.model cfg) in
  rp_choice (Config.ResnetPreact.block_type mc)
    (Config.ResnetPreact.depth mc) = Err e ->
  returned (resnet_preact.Network_init cfg) w = Err AssertionError.
Proof.
  destruct cfg as [[[ic rfr alb bt depth pss] wr mode] [nc img ncls]].
  config_fields. intro Hch.
  unfold returned, resnet_preact.Network_init. config_fields.
  fold (rp_choice bt depth). rewrite Hch.
  unfold mbind, lift. destruct (existsb _ _); [|reflexivity].
  cbn [assert fst]. unfold rp_choice in Hch.
  destruct (String.eqb bt "basic");
    destruct (assert _) as [[]|e''] eqn:Ha in Hch; try discriminate;
    unfold assert in Ha;
    match type of Ha with (if ?c then _ else _) = _ =>
      destruct c; [discriminate|] end;
    injection Ha as <-; injection Hch as <-; reflexivity.
Qed.

(** The same three facts for wrn. *)
Lemma wrn_init_inv (cfg : Config.t) (w w' : Torch T) (net : wrn.Network) :
  wrn.Network_init cfg w = (Ok net, w') ->
  let mc := Config.wrn (Config.model cfg) in
  let ds := Config.dataset cfg in
  let n := ((Config.Wrn.depth mc - 4) / 6)%Z in
  exists out flat fsz,
    (n * 6 + 4)%Z = Config.Wrn.depth mc
    /\ net
       = wrn_assembled (Config.n_channels ds) (Config.Wrn.initial_channels mc)
           (Config.Wrn.widening_factor mc) n (Config.Wrn.drop_rate mc)
           (Some fsz) (Some (mkLinear fsz (Config.n_classes ds)))
    /\ wrn_features net (dummy_data cfg) = Ok out
    /\ view [Infer] out = Ok flat
    /\ getitem (size flat) 0 = Ok fsz
    /\ create_initializer (Config.init_mode (Config.model cfg)) = Ok tt
    /\ w' = after_call w false (dummy_data cfg).
Proof.
  destruct cfg as [[rp [depth ic wf p] mode] [nc img ncls]].
  unfold wrn.Network_init, dummy_data. config_fields.
  unfold mbind at 1. unfold lift at 1.
  destruct (assert _) as [[]|e] eqn:Hd; [|discriminate].
  apply assert_ok in Hd. apply Z.eqb_eq in Hd.
  cbn [wrn.n_channels nth].
  unfold mbind at 1. unfold no_grad.
  cbn [grad_enabled calls].
  unfold mbind at 1. rewrite wrn_forward_conv_run.
  cbn [grad_enabled calls after_call].
  match goal with |- context [wrn_features ?s ?d] =>
    destruct (wrn_features s d) as [out|e] eqn:Hout; [|discriminate] end.
  unfold lift at 1.
  destruct (view [Infer] out) as [flat|e] eqn:Hflat; [|discriminate].
  cbn [rbind].
  destruct (getitem (size flat) 0) as [fsz|e] eqn:Hfsz; [|discriminate].
  unfold mbind at 1. unfold lift at 1.
  destruct (create_initializer mode) as [[]|e] eqn:Hinit; [|discriminate].
  unfold mret. intro Heq. injection Heq as <- <-.
  exists out, flat, fsz.
  repeat split; try assumption.
Qed.

Lemma wrn_init_ok (cfg : Config.t) (w : Torch T) (out flat : T) (fsz : N) :
  let mc := Config.wrn (Config.model cfg) in
  let ds := Config.dataset cfg in
  let n := ((Config.Wrn.depth mc - 4) / 6)%Z in
  (n * 6 + 4)%Z = Config.Wrn.depth mc ->
  wrn_features
    (wrn_assembled (Config.n_channels ds) (Config.Wrn.initial_channels mc)
       (Config.Wrn.widening_factor mc) n (Config.Wrn.drop_rate mc) None None)
    (dummy_data cfg) = Ok out ->
  view [Infer] out = Ok flat ->
  getitem (size flat) 0 = Ok fsz ->
  create_initializer (Config.init_mode (Config.model cfg)) = Ok tt ->
  wrn.Network_init cfg w
  = (Ok (wrn_assembled (Config.n_channels ds) (Config.Wrn.initial_channels mc)
           (Config.Wrn.widening_factor mc) n (Config.Wrn.drop_rate mc)
           (Some fsz) (Some (mkLinear fsz (Config.n_classes ds)))),
     after_call w false (dummy_data cfg)).
Proof.
  destruct cfg as [[rp [depth ic wf p] mode] [nc img ncls]].
  unfold dummy_data. config_fields.
  intros Hd Hout Hflat Hfsz Hinit.
  unfold wrn.Network_init. config_fields.
  apply Z.eqb_eq in Hd. rewrite Hd, Hinit.
  unfold mbind, lift, no_grad, mret. cbn [assert].
  rewrite wrn_forward_conv_run. cbn [wrn.n_channels nth].
  cbn [grad_enabled calls after_call].
  unfold wrn_assembled in Hout. rewrite Hout, Hflat. cbn [rbind].
  now rewrite Hfsz.
Qed.

Lemma wrn_init_assertion (cfg : Config.t) (w : Torch T) :
  let mc := Config.wrn (Config.model cfg) in
  (((Config.Wrn.depth mc - 4) / 6) * 6 + 4)%Z <> Config.Wrn.depth mc ->
  returned (wrn.Network_init cfg) w = Err AssertionError.
Proof.
  destruct cfg as [[rp [depth ic wf p] mode] [nc img ncls]].
  config_fields. intro Hd. apply Z.eqb_neq in Hd.
  unfold returned, wrn.Network_init. config_fields.
  now rewrite Hd.
Qed.

End Init.

(** ** The stage builder *)

Lemma str_of_nat_inj (a b : nat) : str_of_nat a = str_of_nat b -> a = b.
Proof.
  unfold str_of_nat. intro E.
  apply (f_equal NilEmpty.uint_of_string) in E.
  rewrite !NilEmpty.usu in E. injection E as E.
  now apply Unsigned.to_uint_inj.
Qed.

Lemma block_name_inj (i j : nat) : block_name i = block_name j -> i = j.
Proof.
  unfold block_name. cbn [String.append]. intro E.
  injection E as E. apply str_of_nat_inj in E. lia.
Qed.

Lemma has_name_false {A} (name : string) (s : Sequential A) :
  ~ In name (names s) -> has_name name s = false.
Proof.
  induction s as [|[n m] s IH]; cbn [has_name names map fst In]; intro Hn.
  - reflexivity.
  - apply orb_false_intro.
    + apply String.eqb_neq. intro E. apply Hn. now left.
    + apply IH. intro Hin. apply Hn. now right.
Qed.

Lemma add_module_fresh {A} (name : string) (m : A) (s : Sequential A) :
  ~ In name (names s) -> add_module name m s = s ++ [(name, m)].
Proof.
  intro Hn. unfold add_module. now rewrite has_name_false.
Qed.

Lemma names_app {A} (s t : Sequential A) : names (s ++ t) = names s ++ names t.
Proof. unfold names. apply map_app. Qed.

(** Adding the blocks [k], [k+1], ... under their names to a stage that holds
    the blocks before [k] appends them in order. *)
Lemma add_blocks {A} (f : nat -> A) (m k : nat) (acc : Sequential A) :
  names acc = map block_name (seq 0 k) ->
  fold_left (fun stage i => add_module (block_name i) (f i) stage) (seq k m) acc
  = acc ++ map (fun i => (block_name i, f i)) (seq k m).
Proof.
  revert k acc. induction m as [|m IH]; intros k acc Hacc.
  - cbn [seq map fold_left]. now rewrite app_nil_r.
  - cbn [seq map fold_left].
    rewrite add_module_fresh.
    + rewrite IH.
      * now rewrite <- app_assoc.
      * rewrite names_app, Hacc, seq_S, map_app. reflexivity.
    + rewrite Hacc. intro Hin. apply in_map_iff in Hin.
      destruct Hin as [j [Hj Hin]]. apply block_name_inj in Hj. subst j.
      apply in_seq in Hin. lia.
Qed.

Lemma fold_left_ext {A B} (f g : A -> B -> A) (l : list B) (a : A) :
  (forall x y, f x y = g x y) -> fold_left f l a = fold_left g l a.
Proof.
  intro Hfg. revert a. induction l as [|y l IH]; intro a; cbn [fold_left].
  - reflexivity.
  - now rewrite Hfg, IH.
Qed.

Lemma map_nth_block_tail {A} (first rest : A) (k m : nat) :
  map (nth_block first rest) (seq (S k) m) = repeat rest m.
Proof.
  revert k. induction m as [|m IH]; intro k; cbn [seq map repeat].
  - reflexivity.
  - now rewrite IH.
Qed.

Lemma stage_of_fold {A} (first rest : A) (n : Z) :
  fold_left
    (fun stage i => add_module (block_name i) (nth_block first rest i) stage)
    (range n) []
  = map (fun i => (block_name i, nth_block first rest i)) (range n).
Proof.
  unfold range. now rewrite add_blocks.
Qed.

Lemma rp_make_stage_eq (rfr alb : bool) (cin cout : N) (n : Z)
    (block : resnet_preact.block_class) (stride : N) (preact : bool) :
  resnet_preact._make_stage rfr alb cin cout n block stride preact
  = map (fun i =>
           (block_name i,
            nth_block
              (resnet_preact.block_init block cin cout stride rfr alb preact)
              (resnet_preact.block_init block cout cout 1 rfr alb false) i))
      (range n).
Proof.
  rewrite <- stage_of_fold. unfold resnet_preact._make_stage.
  apply fold_left_ext. intros stage i. unfold nth_block, block_name.
  now destruct (i =? 0)%nat.
Qed.

Lemma wrn_make_stage_eq (cin cout : N) (n : Z)
    (block : N -> N -> N -> Q -> wrn.BasicBlock) (stride : N) (p : Q) :
  wrn._make_stage cin cout n block stride p
  = map (fun i =>
           (block_name i,
            nth_block (block cin cout stride p) (block cout cout 1 p) i))
      (range n).
Proof.
  rewrite <- stage_of_fold. unfold wrn._make_stage.
  apply fold_left_ext. intros stage i. unfold nth_block, block_name.
  now destruct (i =? 0)%nat.
Qed.

Lemma modules_stage {A} (first rest : A) (n : Z) :
  (1 <= n)%Z ->
  modules (map (fun i => (block_name i, nth_block first rest i)) (range n))
  = first :: repeat rest (Z.to_nat n - 1).
Proof.
  intro Hn. unfold modules, range. rewrite map_map. cbn [snd].
  destruct (Z.to_nat n) as [|m] eqn:Hm; [lia|].
  cbn [seq map]. rewrite map_nth_block_tail.
  now replace (S m - 1)%nat with m by lia.
Qed.

Lemma names_stage {A} (first rest : A) (n : Z) :
  names (map (fun i => (block_name i, nth_block first rest i)) (range n))
  = map block_name (range n).
Proof. unfold names. now rewrite map_map. Qed.

(** C5. Called with [n_blocks >= 1] the stage builder returns exactly
    [n_blocks] blocks, named [block1] .. [blockN] in order: the first maps
    [in_channels] to [out_channels] with the given stride (and, in
    resnet_preact, the given [preact] flag); every other one maps
    [out_channels] to [out_channels] with stride 1 (and [preact = False]; in
    wrn, where the flag is derived from the channels, it pre-activates the
    residual path only). *)
Theorem C5_stage_blocks :
  forall (rfr alb : bool) (in_channels out_channels : N) (n_blocks : Z)
         (block : resnet_preact.block_class) (stride : N) (preact : bool)
         (drop_rate : Q),
    (1 <= n_blocks)%Z ->
    let rp_stage :=
      resnet_preact._make_stage rfr alb in_channels out_channels n_blocks
        block stride preact in
    let wrn_stage :=
      wrn._make_stage in_channels out_channels n_blocks wrn.BasicBlock_init
        stride drop_rate in
    (modules rp_stage
     = resnet_preact.block_init block in_channels out_channels stride
         rfr alb preact
       :: repeat
            (resnet_preact.block_init block out_channels out_channels 1
               rfr alb false)
            (Z.to_nat n_blocks - 1)
     /\ names rp_stage = map block_name (seq 0 (Z.to_nat n_blocks))
     /\ Z.of_nat (List.length rp_stage) = n_blocks)
    /\ (modules wrn_stage
        = wrn.BasicBlock_init in_channels out_channels stride drop_rate
          :: repeat
               (wrn.BasicBlock_init out_channels out_channels 1 drop_rate)
               (Z.to_nat n_blocks - 1)
        /\ names wrn_stage = map block_name (seq 0 (Z.to_nat n_blocks))
        /\ Z.of_nat (List.length wrn_stage) = n_blocks
        /\ wrn._preactivate_both
             (wrn.BasicBlock_init out_channels out_channels 1 drop_rate)
           = false).
Proof.
  intros rfr alb cin cout n block stride preact p Hn rp_stage wrn_stage.
  unfold rp_stage, wrn_stage.
  rewrite rp_make_stage_eq, wrn_make_stage_eq.
  rewrite !modules_stage by assumption. rewrite !names_stage.
  rewrite !length_map. unfold range. rewrite length_seq.
  repeat split; try lia.
  cbn [wrn._preactivate_both wrn.BasicBlock_init]. now rewrite N.eqb_refl.
Qed.

Lemma C5_stage_blocks_witness :
  modules (resnet_preact._make_stage false false 16 32 3
             resnet_preact.BasicBlock_class 2 true)
  = [ resnet_preact.block_init resnet_preact.BasicBlock_class 16 32 2
        false false true;
      resnet_preact.block_init resnet_preact.BasicBlock_class 32 32 1
        false false false;
      resnet_preact.block_init resnet_preact.BasicBlock_class 32 32 1
        false false false ].
Proof.
  exact (proj1 (proj1 (C5_stage_blocks false false 16 32
                         resnet_preact.BasicBlock_class 2 true 0
                         (n_blocks := 3) ltac:(lia)))).
Defined.

(** The stage builder has no failure path: for [n_blocks < 1] the loop body
    never runs and the empty stage is returned. *)
Lemma make_stage_nonpositive {A} (f : Sequential A -> nat -> Sequential A)
    (n : Z) :
  (n < 1)%Z -> fold_left f (range n) [] = [].
Proof.
  intro Hn. unfold range. now replace (Z.to_nat n) with 0%nat by lia.
Qed.

(** C4, as the code has it.  Called with [n_blocks < 1] the stage builder
    does not fail: it returns the empty stage, whose forward pass returns its
    input. *)
Theorem C4_stage_builder_nonpositive :
  forall (T : Type) (E : Engine T) (rfr alb : bool)
         (in_channels out_channels : N) (n_blocks : Z)
         (block : resnet_preact.block_class) (stride : N) (preact : bool)
         (drop_rate : Q) (x : T),
    (n_blocks < 1)%Z ->
    resnet_preact._make_stage rfr alb in_channels out_channels n_blocks
      block stride preact = []
    /\ wrn._make_stage in_channels out_channels n_blocks wrn.BasicBlock_init
         stride drop_rate = []
    /\ forward
         (resnet_preact._make_stage rfr alb in_channels out_channels n_blocks
            block stride preact) x = Ok x
    /\ forward
         (wrn._make_stage in_channels out_channels n_blocks
            wrn.BasicBlock_init stride drop_rate) x = Ok x.
Proof.
  intros T E rfr alb cin cout n block stride preact p x Hn.
  unfold resnet_preact._make_stage, wrn._make_stage.
  rewrite !make_stage_nonpositive by assumption.
  repeat split.
Qed.

Lemma C4_stage_builder_nonpositive_witness :
  resnet_preact._make_stage false false 16 16 0
    resnet_preact.BasicBlock_class 1 true = []
  /\ forward (T := Shape)
       (resnet_preact._make_stage false false 16 16 0
          resnet_preact.BasicBlock_class 1 true) [1; 16; 32; 32]
     = Ok [1; 16; 32; 32].
Proof.
  destruct (C4_stage_builder_nonpositive ShapeEngine false false 16 16
              resnet_preact.BasicBlock_class 1 true 0 [1; 16; 32; 32]
              (n_blocks := 0) ltac:(lia)) as [H1 [_ [H3 _]]].
  split; [exact H1 | exact H3].
Defined.

(** C4 as stated fails: a stage of zero (or a negative number of) blocks is
    built without any error, in both families. *)
Lemma C4_counterexample :
  (0 < 1)%Z /\ (-1 < 1)%Z
  /\ resnet_preact._make_stage false false 16 16 0
       resnet_preact.BasicBlock_class 1 true = []
  /\ resnet_preact._make_stage false false 16 16 (-1)
       resnet_preact.BottleneckBlock_class 1 true = []
  /\ wrn._make_stage 16 160 0 wrn.BasicBlock_init 1 0 = [].
Proof. repeat split. Qed.

(** ** Shapes under the reference engine *)

Lemma conv_out_pos (h k s p : N) : 1 <= conv_out h k s p.
Proof. unfold conv_out. generalize ((h + 2 * p - k) / s). lia. Qed.

Lemma conv_out_unit (h : N) : 1 <= h -> conv_out h 3 1 1 = h.
Proof. intro Hh. unfold conv_out. rewrite N.div_1_r. lia. Qed.

Lemma conv_out_pointwise (h s : N) : conv_out h 1 s 0 = conv_out h 3 s 1.
Proof. unfold conv_out. do 2 f_equal. lia. Qed.

Lemma conv_out_pointwise_unit (h : N) : 1 <= h -> conv_out h 1 1 0 = h.
Proof. intro Hh. rewrite conv_out_pointwise. now apply conv_out_unit. Qed.

Lemma conv_out_le (h s : N) : 1 <= s -> 1 <= h -> conv_out h 3 s 1 <= h.
Proof.
  intros Hs Hh. unfold conv_out.
  replace (h + 2 * 1 - 3) with (h - 1) by lia.
  assert (Hq : (h - 1) / s <= h - 1) by (apply N.Div0.div_le_upper_bound; nia).
  lia.
Qed.

(** More than one value per channel on a map is more than one on every
    larger map. *)
Lemma values_shrink (b h w h' w' : N) :
  1 <= h' -> 1 <= w' -> h' <= h -> w' <= w ->
  b * h' * w' <> 1 -> b * h * w <> 1.
Proof.
  intros Hh' Hw' Hh Hw Hne Heq. apply Hne.
  apply N.eq_mul_1 in Heq. destruct Heq as [Hbh ->].
  apply N.eq_mul_1 in Hbh. destruct Hbh as [-> ->].
  assert (h' = 1) as -> by lia. assert (w' = 1) as -> by lia. reflexivity.
Qed.

Lemma values_after_conv (b h w s : N) :
  1 <= s -> 1 <= h -> 1 <= w ->
  b * conv_out h 3 s 1 * conv_out w 3 s 1 <> 1 -> b * h * w <> 1.
Proof.
  intros Hs Hh Hw. apply values_shrink;
    first [apply conv_out_pos | now apply conv_out_le].
Qed.

Lemma width_of_quotient (c e : N) : 1 <= c / e -> 1 <= c.
Proof.
  intro Hq. destruct (N.eq_dec c 0) as [->|Hc]; [|lia].
  rewrite N.Div0.div_0_l in Hq. lia.
Qed.

Lemma shape_conv2d_ok (l : Conv2d) (b c h w : N) :
  c = conv_in_channels l -> 1 <= c ->
  1 <= conv_stride l -> 1 <= kernel_size l -> 1 <= conv_out_channels l ->
  kernel_size l <= h + 2 * padding l ->
  kernel_size l <= w + 2 * padding l ->
  shape_conv2d l [b; c; h; w]
  = Ok [b; conv_out_channels l;
        conv_out h (kernel_size l) (conv_stride l) (padding l);
        conv_out w (kernel_size l) (conv_stride l) (padding l)].
Proof.
  intros Hc Hc1 Hs Hk Ho Hh Hw. unfold shape_conv2d, conv_channels.
  replace (c =? 0) with false by (symmetry; apply N.eqb_neq; lia).
  replace (conv_stride l =? 0) with false by (symmetry; apply N.eqb_neq; lia).
  replace (kernel_size l =? 0) with false by (symmetry; apply N.eqb_neq; lia).
  replace (conv_out_channels l =? 0) with false
    by (symmetry; apply N.eqb_neq; lia).
  cbn [orb]. subst c. rewrite N.eqb_refl.
  replace (kernel_size l <=? h + 2 * padding l) with true
    by (symmetry; apply N.leb_le; lia).
  replace (kernel_size l <=? w + 2 * padding l) with true
    by (symmetry; apply N.leb_le; lia).
  reflexivity.
Qed.

Lemma shape_conv2d_no_output (l : Conv2d) (x : Shape) :
  conv_out_channels l = 0 -> shape_conv2d l x = Err RuntimeError.
Proof.
  intro Ho. unfold shape_conv2d. rewrite Ho. cbn [N.eqb].
  now rewrite !orb_true_r.
Qed.

(** A convolution keeps the batch size, and its result has no channels when
    its input has none. *)
Lemma shape_conv2d_inv (l : Conv2d) (b c h w : N) (y : Shape) :
  shape_conv2d l [b; c; h; w] = Ok y ->
  exists h' w', y = [b; conv_channels c l; h'; w'].
Proof.
  unfold shape_conv2d. destruct (_ || _); [discriminate|].
  destruct (_ && _); [|discriminate].
  intro Heq. injection Heq as <-. eauto.
Qed.

Lemma shape_batch_norm_ok (l : BatchNorm2d) (b c h w : N) :
  c = num_features l -> 1 <= c -> b * h * w <> 1 ->
  shape_batch_norm l [b; c; h; w] = Ok [b; c; h; w].
Proof.
  intros Hc Hc1 Hv. unfold shape_batch_norm.
  replace (b * h * w =? 1) with false by (symmetry; now apply N.eqb_neq).
  replace (c =? 0) with false by (symmetry; apply N.eqb_neq; lia).
  subst c. now rewrite N.eqb_refl.
Qed.

(** In training mode a single value per channel is rejected. *)
Lemma shape_batch_norm_single (l : BatchNorm2d) (b c h w : N) :
  b * h * w = 1 -> shape_batch_norm l [b; c; h; w] = Err ValueError.
Proof.
  intro Hv. unfold shape_batch_norm.
  now replace (b * h * w =? 1) with true by (symmetry; now apply N.eqb_eq).
Qed.

Lemma shape_batch_norm_mismatch (l : BatchNorm2d) (b c h w : N) :
  c <> num_features l \/ c = 0 ->
  is_ok (shape_batch_norm l [b; c; h; w]) = false.
Proof.
  intro Hc. unfold shape_batch_norm.
  destruct (b * h * w =? 1); [reflexivity|].
  destruct (N.eqb_spec c (num_features l)) as [Heq|Hne]; [|reflexivity].
  destruct Hc as [Hc|Hc]; [contradiction|]. now rewrite Hc.
Qed.

Lemma broadcasts_to_refl (y : list N) : broadcasts_to y y = true.
Proof.
  induction y as [|a y IH]; cbn [broadcasts_to]; [reflexivity|].
  now rewrite N.eqb_refl, IH.
Qed.

Lemma shape_iadd_same (y : Shape) : shape_iadd y y = Ok y.
Proof. unfold shape_iadd. now rewrite broadcasts_to_refl. Qed.

(** The primitives of the reference engine, by their shape functions. *)
Ltac shape_ops :=
  cbn [conv2d batch_norm relu dropout iadd adaptive_avg_pool2d view linear
       zeros size ShapeEngine] in *.

Ltac conv_ok :=
  rewrite shape_conv2d_ok
    by (cbn [conv_in_channels conv_out_channels kernel_size conv_stride
             padding]; first [reflexivity | assumption | lia]);
  cbn [conv_in_channels conv_out_channels kernel_size conv_stride padding rbind].

Ltac bn_ok :=
  rewrite shape_batch_norm_ok by first [reflexivity | assumption | lia];
  cbn [rbind].

Ltac bn_single :=
  rewrite shape_batch_norm_single by assumption; cbn [rbind].

(** A shortcut built for [cin -> cout] with [stride] brings the input of a
    block to the shape of its residual path. *)
Lemma shortcut_shape (cin cout stride b h w : N) :
  1 <= stride -> 1 <= cin -> 1 <= cout -> 1 <= h -> 1 <= w ->
  (cin = cout -> stride = 1) ->
  forward (T := Shape) (A := Sequential Conv2d)
    (if negb (cin =? cout)
     then add_module "conv" (mkConv2d cin cout 1 stride 0 false) []
     else [])
    [b; cin; h; w]
  = Ok [b; cout; conv_out h 3 stride 1; conv_out w 3 stride 1].
Proof.
  intros Hs Hi Ho Hh Hw Hid.
  destruct (N.eqb_spec cin cout) as [Heq|Hne]; cbn [negb].
  - rewrite (Hid Heq), Heq, !conv_out_unit by assumption. reflexivity.
  - cbn [add_module has_name app forward Sequential_Module Sequential_forward].
    unfold forward at 1, Conv2d_Module. shape_ops. conv_ok.
    now rewrite !conv_out_pointwise.
Qed.

(** [y] if the flag holds and [y] otherwise: the activation does not change
    a shape. *)
Lemma either_way {A} (c : bool) (y : A) : (if c then y else y) = y.
Proof. now destruct c. Qed.

Ltac basic_block_fields :=
  unfold resnet_preact.BasicBlock_forward, resnet_preact.BasicBlock_init;
  cbn [resnet_preact._preact resnet_preact._remove_first_relu
       resnet_preact._add_last_bn resnet_preact.bn1 resnet_preact.conv1
       resnet_preact.bn2 resnet_preact.conv2 resnet_preact.bn3
       resnet_preact.shortcut];
  shape_ops.

Ltac bottleneck_block_fields :=
  unfold resnet_preact.BottleneckBlock_forward,
    resnet_preact.BottleneckBlock_init, resnet_preact.BottleneckBlock_expansion;
  cbn [resnet_preact.b_preact resnet_preact.b_remove_first_relu
       resnet_preact.b_add_last_bn resnet_preact.b_bn1 resnet_preact.b_conv1
       resnet_preact.b_bn2 resnet_preact.b_conv2 resnet_preact.b_bn3
       resnet_preact.b_conv3 resnet_preact.b_bn4 resnet_preact.b_shortcut];
  shape_ops.

Ltac wrn_block_fields :=
  unfold wrn.BasicBlock_forward, wrn.BasicBlock_init;
  cbn [wrn._preactivate_both wrn.drop_rate wrn.bn1 wrn.conv1 wrn.bn2
       wrn.conv2 wrn.shortcut wrn.training];
  shape_ops.

Lemma basic_block_shape (cin cout stride : N) (rfr alb preact : bool)
    (b h w : N) :
  1 <= stride -> 1 <= cin -> 1 <= cout -> 1 <= h -> 1 <= w ->
  (cin = cout -> stride = 1) ->
  b * conv_out h 3 stride 1 * conv_out w 3 stride 1 <> 1 ->
  resnet_preact.BasicBlock_forward
    (resnet_preact.BasicBlock_init cin cout stride rfr alb preact)
    [b; cin; h; w]
  = Ok [b; cout; conv_out h 3 stride 1; conv_out w 3 stride 1].
Proof.
  intros Hs Hi Ho Hh Hw Hid Hv.
  pose proof (conv_out_pos h 3 stride 1) as Hh'.
  pose proof (conv_out_pos w 3 stride 1) as Hw'.
  pose proof (@values_after_conv b h w stride Hs Hh Hw Hv) as Hv0.
  basic_block_fields.
  destruct preact; bn_ok; rewrite ?either_way; conv_ok; bn_ok; conv_ok;
    rewrite !conv_out_unit by assumption;
    (destruct alb; [bn_ok|cbn [rbind]]);
    rewrite shortcut_shape by assumption; cbn [rbind];
    apply shape_iadd_same.
Qed.

Lemma bottleneck_block_shape (cin cout stride : N) (rfr alb preact : bool)
    (b h w : N) :
  1 <= stride -> 1 <= cin -> 1 <= cout / 4 -> 1 <= h -> 1 <= w ->
  (cin = cout -> stride = 1) ->
  b * conv_out h 3 stride 1 * conv_out w 3 stride 1 <> 1 ->
  resnet_preact.BottleneckBlock_forward
    (resnet_preact.BottleneckBlock_init cin cout stride rfr alb preact)
    [b; cin; h; w]
  = Ok [b; cout; conv_out h 3 stride 1; conv_out w 3 stride 1].
Proof.
  intros Hs Hi Hbc Hh Hw Hid Hv.
  pose proof (@width_of_quotient _ _ Hbc) as Ho.
  pose proof (conv_out_pos h 3 stride 1) as Hh'.
  pose proof (conv_out_pos w 3 stride 1) as Hw'.
  pose proof (@values_after_conv b h w stride Hs Hh Hw Hv) as Hv0.
  bottleneck_block_fields.
  destruct preact; bn_ok; rewrite ?either_way; conv_ok;
    rewrite !conv_out_pointwise_unit by assumption;
    bn_ok; conv_ok; bn_ok; conv_ok;
    rewrite !conv_out_pointwise_unit by assumption;
    (destruct alb; [bn_ok|cbn [rbind]]);
    rewrite shortcut_shape by assumption; cbn [rbind];
    apply shape_iadd_same.
Qed.

(** A block of either class, built for [cin -> cout] with [stride], maps
    [(b, cin, h, w)] to [(b, cout, h', w')], provided the result has more
    than one value per channel. *)
Lemma rp_block_shape (block : resnet_preact.block_class)
    (cin cout stride : N) (rfr alb preact : bool) (b h w : N) :
  1 <= stride -> 1 <= cin -> 1 <= cout / resnet_preact.expansion block ->
  1 <= h -> 1 <= w ->
  (cin = cout -> stride = 1) ->
  b * conv_out h 3 stride 1 * conv_out w 3 stride 1 <> 1 ->
  forward (T := Shape)
    (resnet_preact.block_init block cin cout stride rfr alb preact)
    [b; cin; h; w]
  = Ok [b; cout; conv_out h 3 stride 1; conv_out w 3 stride 1].
Proof.
  intros Hs Hi Hbc Hh Hw Hid Hv. destruct block;
    cbn [resnet_preact.block_init forward resnet_preact.Block_Module];
    cbn [resnet_preact.expansion resnet_preact.BasicBlock_expansion
         resnet_preact.BottleneckBlock_expansion] in Hbc.
  - apply basic_block_shape; try assumption. now rewrite N.div_1_r in Hbc.
  - now apply bottleneck_block_shape.
Qed.

(** A block whose result would have a single value per channel fails in a
    normalization layer: in the first one when its input already has a
    single value per channel, otherwise in the one that follows the strided
    convolution. *)
Lemma basic_block_single (cin cout stride : N) (rfr alb preact : bool)
    (b h w : N) :
  1 <= stride -> 1 <= cin -> 1 <= cout -> 1 <= h -> 1 <= w ->
  b * conv_out h 3 stride 1 * conv_out w 3 stride 1 = 1 ->
  resnet_preact.BasicBlock_forward
    (resnet_preact.BasicBlock_init cin cout stride rfr alb preact)
    [b; cin; h; w]
  = Err ValueError.
Proof.
  intros Hs Hi Ho Hh Hw Hv. basic_block_fields.
  destruct (N.eq_dec (b * h * w) 1) as [Hv0|Hv0].
  - destruct preact; now bn_single.
  - destruct preact; bn_ok; rewrite ?either_way; conv_ok; now bn_single.
Qed.

Lemma bottleneck_block_single (cin cout stride : N) (rfr alb preact : bool)
    (b h w : N) :
  1 <= stride -> 1 <= cin -> 1 <= cout / 4 -> 1 <= h -> 1 <= w ->
  b * conv_out h 3 stride 1 * conv_out w 3 stride 1 = 1 ->
  resnet_preact.BottleneckBlock_forward
    (resnet_preact.BottleneckBlock_init cin cout stride rfr alb preact)
    [b; cin; h; w]
  = Err ValueError.
Proof.
  intros Hs Hi Hbc Hh Hw Hv. bottleneck_block_fields.
  destruct (N.eq_dec (b * h * w) 1) as [Hv0|Hv0].
  - destruct preact; now bn_single.
  - destruct preact; bn_ok; rewrite ?either_way; conv_ok;
      rewrite !conv_out_pointwise_unit by assumption;
      bn_ok; conv_ok; now bn_single.
Qed.

Lemma rp_block_single (block : resnet_preact.block_class)
    (cin cout stride : N) (rfr alb preact : bool) (b h w : N) :
  1 <= stride -> 1 <= cin -> 1 <= cout / resnet_preact.expansion block ->
  1 <= h -> 1 <= w ->
  b * conv_out h 3 stride 1 * conv_out w 3 stride 1 = 1 ->
  forward (T := Shape)
    (resnet_preact.block_init block cin cout stride rfr alb preact)
    [b; cin; h; w]
  = Err ValueError.
Proof.
  intros Hs Hi Hbc Hh Hw Hv. destruct block;
    cbn [resnet_preact.block_init forward resnet_preact.Block_Module];
    cbn [resnet_preact.expansion resnet_preact.BasicBlock_expansion
         resnet_preact.BottleneckBlock_expansion] in Hbc.
  - apply basic_block_single; try assumption. now rewrite N.div_1_r in Hbc.
  - now apply bottleneck_block_single.
Qed.

(** A block rejects an input that does not have the channels it was built
    for: its first layer is a normalization over [cin] channels. *)
Lemma rp_block_wrong_channels (block : resnet_preact.block_class)
    (cin cout stride : N) (rfr alb preact : bool) (b c h w : N) :
  c <> cin ->
  is_ok (forward (T := Shape)
           (resnet_preact.block_init block cin cout stride rfr alb preact)
           [b; c; h; w]) = false.
Proof.
  intro Hc.
  pose proof (@shape_batch_norm_mismatch (mkBatchNorm2d cin) b c h w
                (or_introl Hc)) as Hbn.
  destruct block;
    cbn [resnet_preact.block_init forward resnet_preact.Block_Module];
    [basic_block_fields | bottleneck_block_fields];
    destruct preact; destruct (shape_batch_norm _ _); try discriminate Hbn;
    reflexivity.
Qed.

Lemma dropout_step (p : Q) (training : bool) (y : Shape) :
  drop_rate_ok p = true ->
  (if Qpositive p then shape_dropout p training y else Ok y) = Ok y.
Proof.
  unfold drop_rate_ok, Qpositive, shape_dropout. intro Hp.
  destruct (Qle_bool p 0) eqn:Hp0; cbn [negb] in *; [reflexivity|].
  cbn [orb] in Hp. rewrite Hp, andb_true_r.
  replace (Qle_bool 0 p) with true; [reflexivity|].
  symmetry. apply Qle_bool_iff. apply Qlt_le_weak. apply Qnot_le_lt.
  intro Hle. apply Qle_bool_iff in Hle. congruence.
Qed.

Lemma dropout_step_bad (p : Q) (training : bool) (y : Shape) :
  drop_rate_ok p = false ->
  (if Qpositive p then shape_dropout p training y else Ok y) = Err ValueError.
Proof.
  unfold drop_rate_ok, shape_dropout. intro Hp.
  apply orb_false_elim in Hp. destruct Hp as [Hpos H1].
  apply negb_false_iff in Hpos. rewrite Hpos, H1. now rewrite andb_false_r.
Qed.

Lemma wrn_block_shape (cin cout stride : N) (p : Q) (b h w : N) :
  1 <= stride -> 1 <= cin -> 1 <= cout -> 1 <= h -> 1 <= w ->
  (cin = cout -> stride = 1) ->
  drop_rate_ok p = true ->
  b * conv_out h 3 stride 1 * conv_out w 3 stride 1 <> 1 ->
  forward (T := Shape) (wrn.BasicBlock_init cin cout stride p) [b; cin; h; w]
  = Ok [b; cout; conv_out h 3 stride 1; conv_out w 3 stride 1].
Proof.
  intros Hs Hi Ho Hh Hw Hid Hp Hv.
  pose proof (conv_out_pos h 3 stride 1) as Hh'.
  pose proof (conv_out_pos w 3 stride 1) as Hw'.
  pose proof (@values_after_conv b h w stride Hs Hh Hw Hv) as Hv0.
  unfold forward, wrn.BasicBlock_Module. wrn_block_fields.
  destruct (negb (cin =? cout)) eqn:Hce; bn_ok; conv_ok;
    rewrite dropout_step by assumption; cbn [rbind];
    bn_ok; conv_ok; rewrite !conv_out_unit by assumption;
    pose proof (@shortcut_shape cin cout stride b h w Hs Hi Ho Hh Hw Hid) as Hsc;
    rewrite Hce in Hsc; rewrite Hsc; cbn [rbind]; apply shape_iadd_same.
Qed.

Lemma wrn_block_single (cin cout stride : N) (p : Q) (b h w : N) :
  1 <= stride -> 1 <= cin -> 1 <= cout -> 1 <= h -> 1 <= w ->
  drop_rate_ok p = true ->
  b * conv_out h 3 stride 1 * conv_out w 3 stride 1 = 1 ->
  forward (T := Shape) (wrn.BasicBlock_init cin cout stride p) [b; cin; h; w]
  = Err ValueError.
Proof.
  intros Hs Hi Ho Hh Hw Hp Hv.
  unfold forward, wrn.BasicBlock_Module. wrn_block_fields.
  destruct (N.eq_dec (b * h * w) 1) as [Hv0|Hv0].
  - destruct (negb (cin =? cout)); now bn_single.
  - destruct (negb (cin =? cout)); bn_ok; conv_ok;
      rewrite dropout_step by assumption; cbn [rbind]; now bn_single.
Qed.

(** With a dropout rate above 1 the block fails, at the latest in the
    dropout. *)
Lemma wrn_block_bad_rate (cin cout stride : N) (p : Q) (x : Shape) :
  drop_rate_ok p = false ->
  is_ok (forward (T := Shape) (wrn.BasicBlock_init cin cout stride p) x) = false.
Proof.
  intros Hp.
  unfold forward, wrn.BasicBlock_Module. wrn_block_fields.
  destruct (negb (cin =? cout)); destruct (shape_batch_norm _ _);
    cbn [rbind is_ok]; try reflexivity;
    destruct (shape_conv2d _ _); cbn [rbind is_ok]; try reflexivity;
    now rewrite dropout_step_bad.
Qed.

Lemma wrn_block_wrong_channels (cin cout stride : N) (p : Q) (b c h w : N) :
  c <> cin ->
  is_ok (forward (T := Shape) (wrn.BasicBlock_init cin cout stride p)
           [b; c; h; w]) = false.
Proof.
  intro Hc.
  pose proof (@shape_batch_norm_mismatch (mkBatchNorm2d cin) b c h w
                (or_introl Hc)) as Hbn.
  unfold forward, wrn.BasicBlock_Module. wrn_block_fields.
  destruct (negb (cin =? cout)); destruct (shape_batch_norm _ _);
    try discriminate Hbn; reflexivity.
Qed.

(** ** Forward pass of a stage *)

Lemma rest_blocks_forward {A} `{Module Shape A} (first rest : A) (y : Shape)
    (k m : nat) :
  forward rest y = Ok y ->
  forward (A := Sequential A)
    (map (fun i => (block_name i, nth_block first rest i)) (seq (S k) m)) y
  = Ok y.
Proof.
  intro Hrest. revert k. induction m as [|m IH]; intro k.
  - reflexivity.
  - cbn [seq map forward Sequential_Module Sequential_forward nth_block
         Nat.eqb].
    rewrite Hrest. cbn [rbind]. apply IH.
Qed.

Lemma stage_forward {A} `{Module Shape A} (first rest : A) (n : Z)
    (x y : Shape) :
  (1 <= n)%Z ->
  forward first x = Ok y ->
  forward rest y = Ok y ->
  forward (A := Sequential A)
    (map (fun i => (block_name i, nth_block first rest i)) (range n)) x
  = Ok y.
Proof.
  intros Hn Hfirst Hrest. unfold range.
  destruct (Z.to_nat n) as [|m] eqn:Hm; [lia|].
  cbn [seq map forward Sequential_Module Sequential_forward nth_block Nat.eqb].
  rewrite Hfirst. cbn [rbind]. now apply rest_blocks_forward.
Qed.

Lemma stage_forward_first_fails {A} `{Module Shape A} (first rest : A) (n : Z)
    (x : Shape) (e : error) :
  (1 <= n)%Z ->
  forward first x = Err e ->
  forward (A := Sequential A)
    (map (fun i => (block_name i, nth_block first rest i)) (range n)) x
  = Err e.
Proof.
  intros Hn Hfirst. unfold range.
  destruct (Z.to_nat n) as [|m] eqn:Hm; [lia|].
  cbn [seq map forward Sequential_Module Sequential_forward nth_block Nat.eqb].
  now rewrite Hfirst.
Qed.

Lemma stage_forward_first_not_ok {A} `{Module Shape A} (first rest : A)
    (n : Z) (x : Shape) :
  (1 <= n)%Z ->
  is_ok (forward first x) = false ->
  is_ok (forward (A := Sequential A)
           (map (fun i => (block_name i, nth_block first rest i)) (range n)) x)
  = false.
Proof.
  intros Hn Hfirst.
  destruct (forward first x) as [y|e] eqn:Hf; [discriminate Hfirst|].
  now erewrite stage_forward_first_fails by eassumption.
Qed.

Lemma rp_stage_shape (rfr alb : bool) (cin cout : N) (n : Z)
    (block : resnet_preact.block_class) (stride : N) (preact : bool)
    (b h w : N) :
  (1 <= n)%Z ->
  1 <= stride -> 1 <= cin -> 1 <= cout / resnet_preact.expansion block ->
  1 <= h -> 1 <= w ->
  (cin = cout -> stride = 1) ->
  b * conv_out h 3 stride 1 * conv_out w 3 stride 1 <> 1 ->
  forward (T := Shape)
    (resnet_preact._make_stage rfr alb cin cout n block stride preact)
    [b; cin; h; w]
  = Ok [b; cout; conv_out h 3 stride 1; conv_out w 3 stride 1].
Proof.
  intros Hn Hs Hi Hbc Hh Hw Hid Hv. rewrite rp_make_stage_eq.
  pose proof (@width_of_quotient _ _ Hbc) as Ho.
  apply stage_forward; [assumption| |].
  - now apply rp_block_shape.
  - pose proof (conv_out_pos h 3 stride 1) as Hh'.
    pose proof (conv_out_pos w 3 stride 1) as Hw'.
    rewrite rp_block_shape
      by first [assumption | lia | intros; reflexivity
               | now rewrite !conv_out_unit by assumption].
    now rewrite !conv_out_unit.
Qed.

Lemma wrn_stage_shape (cin cout : N) (n : Z) (stride : N) (p : Q)
    (b h w : N) :
  (1 <= n)%Z ->
  1 <= stride -> 1 <= cin -> 1 <= cout -> 1 <= h -> 1 <= w ->
  (cin = cout -> stride = 1) ->
  drop_rate_ok p = true ->
  b * conv_out h 3 stride 1 * conv_out w 3 stride 1 <> 1 ->
  forward (T := Shape)
    (wrn._make_stage cin cout n wrn.BasicBlock_init stride p) [b; cin; h; w]
  = Ok [b; cout; conv_out h 3 stride 1; conv_out w 3 stride 1].
Proof.
  intros Hn Hs Hi Ho Hh Hw Hid Hp Hv. rewrite wrn_make_stage_eq.
  apply stage_forward; [assumption| |].
  - now apply wrn_block_shape.
  - pose proof (conv_out_pos h 3 stride 1) as Hh'.
    pose proof (conv_out_pos w 3 stride 1) as Hw'.
    rewrite wrn_block_shape
      by first [assumption | lia | intros; reflexivity
               | now rewrite !conv_out_unit by assumption].
    now rewrite !conv_out_unit.
Qed.

(** A stage whose result would have a single value per channel fails in its
    first block. *)
Lemma rp_stage_single (rfr alb : bool) (cin cout : N) (n : Z)
    (block : resnet_preact.block_class) (stride : N) (preact : bool)
    (b h w : N) :
  (1 <= n)%Z ->
  1 <= stride -> 1 <= cin -> 1 <= cout / resnet_preact.expansion block ->
  1 <= h -> 1 <= w ->
  b * conv_out h 3 stride 1 * conv_out w 3 stride 1 = 1 ->
  forward (T := Shape)
    (resnet_preact._make_stage rfr alb cin cout n block stride preact)
    [b; cin; h; w]
  = Err ValueError.
Proof.
  intros Hn Hs Hi Hbc Hh Hw Hv. rewrite rp_make_stage_eq.
  apply stage_forward_first_fails; [assumption|]. now apply rp_block_single.
Qed.

Lemma wrn_stage_single (cin cout : N) (n : Z) (stride : N) (p : Q)
    (b h w : N) :
  (1 <= n)%Z ->
  1 <= stride -> 1 <= cin -> 1 <= cout -> 1 <= h -> 1 <= w ->
  drop_rate_ok p = true ->
  b * conv_out h 3 stride 1 * conv_out w 3 stride 1 = 1 ->
  forward (T := Shape)
    (wrn._make_stage cin cout n wrn.BasicBlock_init stride p) [b; cin; h; w]
  = Err ValueError.
Proof.
  intros Hn Hs Hi Ho Hh Hw Hp Hv. rewrite wrn_make_stage_eq.
  apply stage_forward_first_fails; [assumption|]. now apply wrn_block_single.
Qed.

(** ** The convolutional part and the classifier, by shape *)

Ltac div_lia := zify; Z.to_euclidean_division_equations; lia.

Lemma expansion_cases (block : resnet_preact.block_class) :
  resnet_preact.expansion block = 1 \/ resnet_preact.expansion block = 4.
Proof. destruct block; [now left | now right]. Qed.

Lemma shape_pool_ok (b c h w : N) :
  1 <= h -> 1 <= w ->
  shape_adaptive_avg_pool2d [b; c; h; w] 1 = Ok [b; c; 1; 1].
Proof.
  intros Hh Hw. unfold shape_adaptive_avg_pool2d.
  replace (1 <=? h) with true by (symmetry; now apply N.leb_le).
  now replace (1 <=? w) with true by (symmetry; now apply N.leb_le).
Qed.

Lemma shape_view_all (c : N) : shape_view [Infer] [1; c; 1; 1] = Ok [c].
Proof.
  unfold shape_view.
  cbn [count_infer filter List.length known_product fold_right numel N.eqb
       fill_infer map].
  rewrite N.mod_1_r, N.div_1_r. cbn [N.eqb]. do 2 f_equal. lia.
Qed.

Lemma shape_view_batch (b c : N) :
  1 <= b -> shape_view [Dim b; Infer] [b; c; 1; 1] = Ok [b; c].
Proof.
  intro Hb. unfold shape_view.
  cbn [count_infer filter List.length known_product fold_right numel
       fill_infer map].
  replace (b * 1 =? 0) with false by (symmetry; apply N.eqb_neq; lia).
  replace (b * (c * (1 * (1 * 1)))) with (c * (b * 1)) by lia.
  rewrite N.Div0.mod_mul, N.div_mul by lia. reflexivity.
Qed.

Lemma shape_linear_ok (l : Linear) (b c : N) :
  c = in_features l -> shape_linear l [b; c] = Ok [b; out_features l].
Proof.
  intros ->. unfold shape_linear. cbn [rev app in_features]. now rewrite N.eqb_refl.
Qed.

(** The map after the two stride-2 stages has more than one value per
    channel exactly when the batch or the image is large enough. *)
Lemma conv_out_twice (h : N) :
  1 <= h -> conv_out (conv_out h 3 2 1) 3 2 1 = (h + 3) / 4.
Proof. intro Hh. unfold conv_out. div_lia. Qed.

Lemma values_after_two_strides (b h w : N) :
  1 <= b -> 1 <= h -> 1 <= w ->
  b * conv_out (conv_out h 3 2 1) 3 2 1 * conv_out (conv_out w 3 2 1) 3 2 1 <> 1
  <-> 2 <= b \/ 5 <= h \/ 5 <= w.
Proof.
  intros Hb Hh Hw. rewrite !conv_out_twice by assumption.
  assert (Hh3 : 1 <= (h + 3) / 4 /\ (5 <= h <-> 2 <= (h + 3) / 4)) by div_lia.
  assert (Hw3 : 1 <= (w + 3) / 4 /\ (5 <= w <-> 2 <= (w + 3) / 4)) by div_lia.
  revert Hh3 Hw3. generalize ((h + 3) / 4) ((w + 3) / 4). intros h3 w3 Hh3 Hw3.
  split.
  - intro Hne.
    destruct (N.eq_dec b 1) as [->|]; [|lia].
    destruct (N.eq_dec h3 1) as [->|]; [|lia].
    destruct (N.eq_dec w3 1) as [->|]; [|lia].
    now contradiction Hne.
  - intros Hlarge Heq. apply N.eq_mul_1 in Heq. destruct Heq as [Hbh ->].
    apply N.eq_mul_1 in Hbh. destruct Hbh as [-> ->]. lia.
Qed.

(** The shapes along the convolutional part of resnet_preact. *)
Lemma rp_trunk_shapes nc ic rfr alb block n p1 p2 p3 (b h w : N) :
  let e := resnet_preact.expansion block in
  let h2 := conv_out h 3 2 1 in
  let w2 := conv_out w 3 2 1 in
  let h3 := conv_out h2 3 2 1 in
  let w3 := conv_out w2 3 2 1 in
  (1 <= n)%Z -> 1 <= nc -> 1 <= ic / e -> 1 <= h -> 1 <= w ->
  b * h3 * w3 <> 1 ->
  shape_conv2d (mkConv2d nc ic 3 1 1 false) [b; nc; h; w] = Ok [b; ic; h; w]
  /\ forward (T := Shape)
       (resnet_preact._make_stage rfr alb ic ic n block 1 p1) [b; ic; h; w]
     = Ok [b; ic; h; w]
  /\ forward (T := Shape)
       (resnet_preact._make_stage rfr alb ic (ic * 2 * e) n block 2 p2)
       [b; ic; h; w]
     = Ok [b; ic * 2 * e; h2; w2]
  /\ forward (T := Shape)
       (resnet_preact._make_stage rfr alb (ic * 2 * e) (ic * 4 * e) n block
          2 p3)
       [b; ic * 2 * e; h2; w2]
     = Ok [b; ic * 4 * e; h3; w3]
  /\ shape_batch_norm (mkBatchNorm2d (ic * 4 * e)) [b; ic * 4 * e; h3; w3]
     = Ok [b; ic * 4 * e; h3; w3].
Proof.
  intros e h2 w2 h3 w3 Hn Hnc Hic Hh Hw Hv3.
  pose proof (conv_out_pos h 3 2 1) as Hh2.
  pose proof (conv_out_pos w 3 2 1) as Hw2.
  assert (Hv2 : b * h2 * w2 <> 1)
    by (apply (@values_after_conv b h2 w2 2); first [assumption | lia]).
  assert (Hv1 : b * h * w <> 1)
    by (apply (@values_after_conv b h w 2); first [assumption | lia]).
  assert (He : e = 1 \/ e = 4) by apply expansion_cases.
  assert (Hic1 : 1 <= ic) by now apply width_of_quotient in Hic.
  repeat apply conj.
  - conv_ok. now rewrite !conv_out_unit.
  - rewrite rp_stage_shape
      by first [assumption | lia | intros; reflexivity
               | now rewrite !conv_out_unit by assumption].
    now rewrite !conv_out_unit.
  - apply rp_stage_shape; try assumption; try lia.
    fold e. destruct He as [He|He]; rewrite He; div_lia.
  - apply rp_stage_shape; try assumption; try lia.
    fold e. destruct He as [He|He]; rewrite He; div_lia.
  - apply shape_batch_norm_ok; [reflexivity | | assumption].
    fold e. destruct He as [He|He]; rewrite He; lia.
Qed.

Lemma rp_features_eq (self : resnet_preact.Network) (x : Shape) :
  rp_features self x
  = (x <- shape_conv2d (resnet_preact.conv self) x ;;
     x <- forward (resnet_preact.stage1 self) x ;;
     x <- forward (resnet_preact.stage2 self) x ;;
     x <- forward (resnet_preact.stage3 self) x ;;
     b <- shape_batch_norm (resnet_preact.bn self) x ;;
     shape_adaptive_avg_pool2d b 1)%result.
Proof. reflexivity. Qed.

Ltac rp_network_fields :=
  unfold rp_assembled;
  cbn [resnet_preact.conv resnet_preact.stage1 resnet_preact.stage2
       resnet_preact.stage3 resnet_preact.bn].

Ltac wrn_network_fields :=
  unfold wrn_assembled;
  cbn [wrn.conv wrn.stage1 wrn.stage2 wrn.stage3 wrn.bn].

Lemma rp_features_shape nc ic rfr alb block n p1 p2 p3 fs fc (b h w : N) :
  (1 <= n)%Z -> 1 <= nc -> 1 <= ic / resnet_preact.expansion block ->
  1 <= h -> 1 <= w ->
  b * conv_out (conv_out h 3 2 1) 3 2 1 * conv_out (conv_out w 3 2 1) 3 2 1
  <> 1 ->
  rp_features (rp_assembled nc ic rfr alb block n p1 p2 p3 fs fc) [b; nc; h; w]
  = Ok [b; ic * 4 * resnet_preact.expansion block; 1; 1].
Proof.
  intros Hn Hnc Hic Hh Hw Hv.
  destruct (@rp_trunk_shapes nc ic rfr alb block n p1 p2 p3 b h w
              Hn Hnc Hic Hh Hw Hv) as (H0 & H1 & H2 & H3 & H4).
  rewrite rp_features_eq. rp_network_fields.
  rewrite H0. cbn [rbind]. rewrite H1. cbn [rbind]. rewrite H2. cbn [rbind].
  rewrite H3. cbn [rbind]. rewrite H4. cbn [rbind].
  apply shape_pool_ok; apply conv_out_pos.
Qed.

(** Without blocks the last normalization does not get the width it was
    built for: the convolutional part fails on every 4-D input. *)
Lemma rp_features_no_blocks nc ic rfr alb block n p1 p2 p3 fs fc (b c h w : N) :
  (n < 1)%Z ->
  is_ok (rp_features (rp_assembled nc ic rfr alb block n p1 p2 p3 fs fc)
           [b; c; h; w]) = false.
Proof.
  intro Hn. rewrite rp_features_eq. rp_network_fields.
  unfold resnet_preact._make_stage. rewrite !make_stage_nonpositive by assumption.
  cbn [forward Sequential_Module Sequential_forward].
  destruct (N.eq_dec ic 0) as [Hic|Hic].
  { now rewrite shape_conv2d_no_output. }
  destruct (shape_conv2d _ _) as [y|e] eqn:Hconv; [|reflexivity].
  apply shape_conv2d_inv in Hconv. destruct Hconv as (h' & w' & ->).
  cbn [rbind].
  pose proof (@shape_batch_norm_mismatch
                (mkBatchNorm2d (ic * 4 * resnet_preact.expansion block))
                b (conv_channels c (mkConv2d nc ic 3 1 1 false)) h' w') as Hbn.
  destruct (shape_batch_norm _ _); [|reflexivity].
  discriminate Hbn. left. unfold conv_channels.
  cbn [num_features conv_out_channels].
  destruct (expansion_cases block) as [He|He]; rewrite He;
    destruct (c =? 0); lia.
Qed.

(** A bottleneck narrower than one channel cannot be convolved. *)
Lemma rp_features_too_narrow nc ic rfr alb block n p1 p2 p3 fs fc (b c h w : N) :
  ic / resnet_preact.expansion block = 0 ->
  is_ok (rp_features (rp_assembled nc ic rfr alb block n p1 p2 p3 fs fc)
           [b; c; h; w]) = false.
Proof.
  intro Hic. destruct (Z_lt_le_dec n 1) as [Hn|Hn].
  { now apply rp_features_no_blocks. }
  rewrite rp_features_eq. rp_network_fields.
  destruct (shape_conv2d _ _) as [x|e] eqn:Hconv; [|reflexivity].
  cbn [rbind].
  rewrite rp_make_stage_eq.
  assert (Hfirst : exists e,
    forward (T := Shape)
      (resnet_preact.block_init block ic ic 1 rfr alb p1) x = Err e).
  { destruct block;
      unfold resnet_preact.expansion, resnet_preact.BasicBlock_expansion,
        resnet_preact.BottleneckBlock_expansion in Hic.
    - rewrite N.div_1_r in Hic. subst ic.
      rewrite shape_conv2d_no_output in Hconv by reflexivity. discriminate.
    - cbn [resnet_preact.block_init forward resnet_preact.Block_Module].
      unfold resnet_preact.BottleneckBlock_forward,
        resnet_preact.BottleneckBlock_init,
        resnet_preact.BottleneckBlock_expansion.
      cbn [resnet_preact.b_preact resnet_preact.b_remove_first_relu
           resnet_preact.b_bn1 resnet_preact.b_conv1].
      shape_ops. rewrite Hic.
      destruct p1; destruct (shape_batch_norm _ x) as [y|e]; cbn [rbind];
        try (eexists; reflexivity);
        rewrite shape_conv2d_no_output by reflexivity;
        eexists; reflexivity. }
  destruct Hfirst as [e Hfirst].
  now erewrite stage_forward_first_fails by eassumption.
Qed.

Lemma stem_empty_image (nc ic b c h w : N) :
  h = 0 \/ w = 0 ->
  shape_conv2d (mkConv2d nc ic 3 1 1 false) [b; c; h; w] = Err RuntimeError.
Proof.
  intro Hhw. unfold shape_conv2d.
  cbn [kernel_size conv_stride padding conv_out_channels conv_in_channels].
  destruct ((1 =? 0) || (3 =? 0) || (ic =? 0)); [reflexivity|].
  destruct Hhw as [-> | ->]; cbn [N.add N.mul N.leb N.compare Pos.compare
    Pos.compare_cont andb]; now rewrite ?andb_false_r.
Qed.

(** A stem built for no input channel gives a result without channels, which
    the first block rejects. *)
Lemma rp_features_no_channels ic rfr alb block n p1 p2 p3 fs fc (b h w : N) :
  (1 <= n)%Z -> 1 <= ic ->
  is_ok (rp_features (rp_assembled 0 ic rfr alb block n p1 p2 p3 fs fc)
           [b; 0; h; w]) = false.
Proof.
  intros Hn Hic. rewrite rp_features_eq. rp_network_fields.
  destruct (shape_conv2d _ _) as [y|e] eqn:Hconv; [|reflexivity].
  apply shape_conv2d_inv in Hconv. destruct Hconv as (h' & w' & ->).
  cbn [rbind conv_channels N.eqb]. rewrite rp_make_stage_eq.
  rewrite (@is_ok_bind_false _ _ (forward _ _)); [reflexivity|].
  apply stage_forward_first_not_ok; [assumption|].
  apply rp_block_wrong_channels. lia.
Qed.

(** With a single value per channel after the two stride-2 stages, a
    normalization layer fails: in the first stage whose result has a single
    value per channel. *)
Lemma rp_features_single nc ic rfr alb block n p1 p2 p3 fs fc (b h w : N) :
  (1 <= n)%Z -> 1 <= nc -> 1 <= ic / resnet_preact.expansion block ->
  1 <= h -> 1 <= w ->
  b * conv_out (conv_out h 3 2 1) 3 2 1 * conv_out (conv_out w 3 2 1) 3 2 1
  = 1 ->
  rp_features (rp_assembled nc ic rfr alb block n p1 p2 p3 fs fc) [b; nc; h; w]
  = Err ValueError.
Proof.
  intros Hn Hnc Hic Hh Hw Hv3.
  pose proof (conv_out_pos h 3 2 1) as Hh2.
  pose proof (conv_out_pos w 3 2 1) as Hw2.
  assert (He : resnet_preact.expansion block = 1
               \/ resnet_preact.expansion block = 4) by apply expansion_cases.
  assert (Hic1 : 1 <= ic) by now apply width_of_quotient in Hic.
  assert (Hic2 : 1 <= ic * 2 * resnet_preact.expansion block
                      / resnet_preact.expansion block)
    by (destruct He as [He|He]; rewrite He in *; div_lia).
  assert (Hic4 : 1 <= ic * 4 * resnet_preact.expansion block
                      / resnet_preact.expansion block)
    by (destruct He as [He|He]; rewrite He in *; div_lia).
  rewrite rp_features_eq. rp_network_fields.
  conv_ok. rewrite !conv_out_unit by assumption.
  destruct (N.eq_dec (b * h * w) 1) as [Hv1|Hv1].
  { rewrite rp_stage_single
      by first [assumption | lia | now rewrite !conv_out_unit by assumption].
    reflexivity. }
  rewrite rp_stage_shape
    by first [assumption | lia | intros; reflexivity
             | now rewrite !conv_out_unit by assumption].
  cbn [rbind]. rewrite !conv_out_unit by assumption.
  destruct (N.eq_dec (b * conv_out h 3 2 1 * conv_out w 3 2 1) 1) as [Hv2|Hv2].
  { rewrite rp_stage_single by first [assumption | lia]. reflexivity. }
  rewrite rp_stage_shape by first [assumption | lia].
  cbn [rbind].
  rewrite rp_stage_single by first [assumption | lia]. reflexivity.
Qed.

(** When the probe of resnet_preact goes through. *)
Lemma rp_probe_iff nc ic rfr alb block n p1 p2 p3 fs fc (b h w : N) :
  is_ok (rp_features (rp_assembled nc ic rfr alb block n p1 p2 p3 fs fc)
           [b; nc; h; w]) = true
  <-> (1 <= n)%Z /\ 1 <= nc /\ 1 <= ic / resnet_preact.expansion block
      /\ 1 <= h /\ 1 <= w
      /\ b * conv_out (conv_out h 3 2 1) 3 2 1
         * conv_out (conv_out w 3 2 1) 3 2 1 <> 1.
Proof.
  split.
  - intro Hok.
    destruct (Z_lt_le_dec n 1) as [Hn|Hn].
    { rewrite rp_features_no_blocks in Hok by assumption. discriminate. }
    destruct (N.eq_dec (ic / resnet_preact.expansion block) 0) as [Hic|Hic].
    { rewrite rp_features_too_narrow in Hok by assumption. discriminate. }
    assert (Hic' : 1 <= ic / resnet_preact.expansion block)
      by (revert Hic; generalize (ic / resnet_preact.expansion block);
          intros q Hq; lia).
    destruct (N.eq_dec nc 0) as [Hnc|Hnc].
    { subst nc. rewrite rp_features_no_channels in Hok;
        [discriminate | assumption | now apply width_of_quotient in Hic']. }
    destruct (N.eq_dec h 0) as [Hh|Hh].
    { rewrite rp_features_eq in Hok. unfold rp_assembled in Hok.
      cbn [resnet_preact.conv] in Hok.
      rewrite stem_empty_image in Hok by now left. discriminate. }
    destruct (N.eq_dec w 0) as [Hw|Hw].
    { rewrite rp_features_eq in Hok. unfold rp_assembled in Hok.
      cbn [resnet_preact.conv] in Hok.
      rewrite stem_empty_image in Hok by now right. discriminate. }
    repeat apply conj; try assumption; try lia.
    intro Hv. rewrite rp_features_single in Hok by first [assumption | lia].
    discriminate.
  - intros (Hn & Hnc & Hic & Hh & Hw & Hv). now rewrite rp_features_shape.
Qed.

(** The shapes along the convolutional part of wrn. *)
Lemma wrn_trunk_shapes nc ic wf n p (b h w : N) :
  let h2 := conv_out h 3 2 1 in
  let w2 := conv_out w 3 2 1 in
  let h3 := conv_out h2 3 2 1 in
  let w3 := conv_out w2 3 2 1 in
  (1 <= n)%Z -> 1 <= nc -> 1 <= ic -> 1 <= wf -> 1 <= h -> 1 <= w ->
  drop_rate_ok p = true ->
  b * h3 * w3 <> 1 ->
  shape_conv2d (mkConv2d nc ic 3 1 1 false) [b; nc; h; w] = Ok [b; ic; h; w]
  /\ forward (T := Shape)
       (wrn._make_stage ic (ic * wf) n wrn.BasicBlock_init 1 p) [b; ic; h; w]
     = Ok [b; ic * wf; h; w]
  /\ forward (T := Shape)
       (wrn._make_stage (ic * wf) (ic * 2 * wf) n wrn.BasicBlock_init 2 p)
       [b; ic * wf; h; w]
     = Ok [b; ic * 2 * wf; h2; w2]
  /\ forward (T := Shape)
       (wrn._make_stage (ic * 2 * wf) (ic * 4 * wf) n wrn.BasicBlock_init 2 p)
       [b; ic * 2 * wf; h2; w2]
     = Ok [b; ic * 4 * wf; h3; w3]
  /\ shape_batch_norm (mkBatchNorm2d (ic * 4 * wf)) [b; ic * 4 * wf; h3; w3]
     = Ok [b; ic * 4 * wf; h3; w3].
Proof.
  intros h2 w2 h3 w3 Hn Hnc Hic Hwf Hh Hw Hp Hv3.
  pose proof (conv_out_pos h 3 2 1) as Hh2.
  pose proof (conv_out_pos w 3 2 1) as Hw2.
  assert (Hv2 : b * h2 * w2 <> 1)
    by (apply (@values_after_conv b h2 w2 2); first [assumption | lia]).
  assert (Hv1 : b * h * w <> 1)
    by (apply (@values_after_conv b h w 2); first [assumption | lia]).
  assert (Hc1 : 1 <= ic * wf) by nia.
  assert (Hc2 : 1 <= ic * 2 * wf) by nia.
  assert (Hc4 : 1 <= ic * 4 * wf) by nia.
  repeat apply conj.
  - conv_ok. now rewrite !conv_out_unit.
  - rewrite wrn_stage_shape
      by first [assumption | lia | intros; reflexivity
               | now rewrite !conv_out_unit by assumption].
    now rewrite !conv_out_unit.
  - apply wrn_stage_shape; try assumption; try nia.
  - apply wrn_stage_shape; try assumption; try nia.
  - now apply shape_batch_norm_ok.
Qed.

Lemma wrn_features_eq (self : wrn.Network) (x : Shape) :
  wrn_features self x
  = (x <- shape_conv2d (wrn.conv self) x ;;
     x <- forward (wrn.stage1 self) x ;;
     x <- forward (wrn.stage2 self) x ;;
     x <- forward (wrn.stage3 self) x ;;
     b <- shape_batch_norm (wrn.bn self) x ;;
     shape_adaptive_avg_pool2d b 1)%result.
Proof. reflexivity. Qed.

Lemma wrn_features_shape nc ic wf n p fs fc (b h w : N) :
  (1 <= n)%Z -> 1 <= nc -> 1 <= ic -> 1 <= wf -> 1 <= h -> 1 <= w ->
  drop_rate_ok p = true ->
  b * conv_out (conv_out h 3 2 1) 3 2 1 * conv_out (conv_out w 3 2 1) 3 2 1
  <> 1 ->
  wrn_features (wrn_assembled nc ic wf n p fs fc) [b; nc; h; w]
  = Ok [b; ic * 4 * wf; 1; 1].
Proof.
  intros Hn Hnc Hic Hwf Hh Hw Hp Hv.
  destruct (@wrn_trunk_shapes nc ic wf n p b h w Hn Hnc Hic Hwf Hh Hw Hp Hv)
    as (H0 & H1 & H2 & H3 & H4).
  rewrite wrn_features_eq. wrn_network_fields.
  rewrite H0. cbn [rbind]. rewrite H1. cbn [rbind]. rewrite H2. cbn [rbind].
  rewrite H3. cbn [rbind]. rewrite H4. cbn [rbind].
  apply shape_pool_ok; apply conv_out_pos.
Qed.

Lemma wrn_features_no_blocks nc ic wf n p fs fc (b c h w : N) :
  (n < 1)%Z ->
  is_ok (wrn_features (wrn_assembled nc ic wf n p fs fc) [b; c; h; w]) = false.
Proof.
  intro Hn. rewrite wrn_features_eq. wrn_network_fields.
  unfold wrn._make_stage. rewrite !make_stage_nonpositive by assumption.
  cbn [forward Sequential_Module Sequential_forward].
  destruct (N.eq_dec ic 0) as [Hic|Hic].
  { now rewrite shape_conv2d_no_output. }
  destruct (shape_conv2d _ _) as [y|e] eqn:Hconv; [|reflexivity].
  apply shape_conv2d_inv in Hconv. destruct Hconv as (h' & w' & ->).
  cbn [rbind].
  pose proof (@shape_batch_norm_mismatch (mkBatchNorm2d (ic * 4 * wf))
                b (conv_channels c (mkConv2d nc ic 3 1 1 false)) h' w') as Hbn.
  destruct (shape_batch_norm _ _); [|reflexivity].
  discriminate Hbn. unfold conv_channels. cbn [num_features conv_out_channels].
  destruct (c =? 0); [now right | left].
  destruct (N.eq_dec wf 0) as [->|Hwf]; nia.
Qed.

Lemma wrn_features_no_channels ic wf n p fs fc (b h w : N) :
  (1 <= n)%Z -> 1 <= ic ->
  is_ok (wrn_features (wrn_assembled 0 ic wf n p fs fc) [b; 0; h; w]) = false.
Proof.
  intros Hn Hic. rewrite wrn_features_eq. wrn_network_fields.
  destruct (shape_conv2d _ _) as [y|e] eqn:Hconv; [|reflexivity].
  apply shape_conv2d_inv in Hconv. destruct Hconv as (h' & w' & ->).
  cbn [rbind conv_channels N.eqb]. rewrite wrn_make_stage_eq.
  rewrite (@is_ok_bind_false _ _ (forward _ _)); [reflexivity|].
  apply stage_forward_first_not_ok; [assumption|].
  apply wrn_block_wrong_channels. lia.
Qed.

(** A widening factor of 0 leaves the first block without output channels. *)
Lemma wrn_features_no_width nc ic n p fs fc (x : Shape) :
  (1 <= n)%Z ->
  is_ok (wrn_features (wrn_assembled nc ic 0 n p fs fc) x) = false.
Proof.
  intros Hn. rewrite wrn_features_eq. wrn_network_fields.
  destruct (shape_conv2d _ _) as [y|e] eqn:Hconv; [|reflexivity].
  cbn [rbind]. rewrite wrn_make_stage_eq.
  rewrite (@is_ok_bind_false _ _ (forward _ _)); [reflexivity|].
  apply stage_forward_first_not_ok; [assumption|].
  unfold forward, wrn.BasicBlock_Module. wrn_block_fields.
  destruct (negb _); destruct (shape_batch_norm _ _); cbn [rbind is_ok];
    try reflexivity;
    now rewrite shape_conv2d_no_output by (cbn [conv_out_channels]; lia).
Qed.

Lemma wrn_features_bad_rate nc ic wf n p fs fc (x : Shape) :
  (1 <= n)%Z -> drop_rate_ok p = false ->
  is_ok (wrn_features (wrn_assembled nc ic wf n p fs fc) x) = false.
Proof.
  intros Hn Hp. rewrite wrn_features_eq. wrn_network_fields.
  destruct (shape_conv2d _ _) as [y|e] eqn:Hconv; [|reflexivity].
  cbn [rbind]. rewrite wrn_make_stage_eq.
  rewrite (@is_ok_bind_false _ _ (forward _ _)); [reflexivity|].
  apply stage_forward_first_not_ok; [assumption|].
  now apply wrn_block_bad_rate.
Qed.

Lemma wrn_features_single nc ic wf n p fs fc (b h w : N) :
  (1 <= n)%Z -> 1 <= nc -> 1 <= ic -> 1 <= wf -> 1 <= h -> 1 <= w ->
  drop_rate_ok p = true ->
  b * conv_out (conv_out h 3 2 1) 3 2 1 * conv_out (conv_out w 3 2 1) 3 2 1
  = 1 ->
  wrn_features (wrn_assembled nc ic wf n p fs fc) [b; nc; h; w]
  = Err ValueError.
Proof.
  intros Hn Hnc Hic Hwf Hh Hw Hp Hv3.
  pose proof (conv_out_pos h 3 2 1) as Hh2.
  pose proof (conv_out_pos w 3 2 1) as Hw2.
  assert (Hc1 : 1 <= ic * wf) by nia.
  assert (Hc2 : 1 <= ic * 2 * wf) by nia.
  assert (Hc4 : 1 <= ic * 4 * wf) by nia.
  rewrite wrn_features_eq. wrn_network_fields.
  conv_ok. rewrite !conv_out_unit by assumption.
  destruct (N.eq_dec (b * h * w) 1) as [Hv1|Hv1].
  { rewrite wrn_stage_single
      by first [assumption | lia | now rewrite !conv_out_unit by assumption].
    reflexivity. }
  rewrite wrn_stage_shape
    by first [assumption | lia | intros; reflexivity
             | now rewrite !conv_out_unit by assumption].
  cbn [rbind]. rewrite !conv_out_unit by assumption.
  destruct (N.eq_dec (b * conv_out h 3 2 1 * conv_out w 3 2 1) 1) as [Hv2|Hv2].
  { rewrite wrn_stage_single by first [assumption | lia]. reflexivity. }
  rewrite wrn_stage_shape by first [assumption | lia | nia].
  cbn [rbind].
  rewrite wrn_stage_single by first [assumption | lia]. reflexivity.
Qed.

(** When the probe of wrn goes through. *)
Lemma wrn_probe_iff nc ic wf n p fs fc (b h w : N) :
  is_ok (wrn_features (wrn_assembled nc ic wf n p fs fc) [b; nc; h; w]) = true
  <-> (1 <= n)%Z /\ 1 <= nc /\ 1 <= ic /\ 1 <= wf /\ 1 <= h /\ 1 <= w
      /\ drop_rate_ok p = true
      /\ b * conv_out (conv_out h 3 2 1) 3 2 1
         * conv_out (conv_out w 3 2 1) 3 2 1 <> 1.
Proof.
  split.
  - intro Hok.
    destruct (Z_lt_le_dec n 1) as [Hn|Hn].
    { rewrite wrn_features_no_blocks in Hok by assumption. discriminate. }
    destruct (N.eq_dec ic 0) as [Hic|Hic].
    { rewrite wrn_features_eq in Hok. unfold wrn_assembled in Hok.
      cbn [wrn.conv] in Hok.
      rewrite shape_conv2d_no_output in Hok by assumption. discriminate. }
    destruct (N.eq_dec nc 0) as [Hnc|Hnc].
    { subst nc. rewrite wrn_features_no_channels in Hok;
        [discriminate | assumption | lia]. }
    destruct (N.eq_dec wf 0) as [Hwf|Hwf].
    { subst wf. rewrite wrn_features_no_width in Hok by assumption.
      discriminate. }
    destruct (drop_rate_ok p) eqn:Hp;
      [|rewrite wrn_features_bad_rate in Hok by assumption; discriminate].
    destruct (N.eq_dec h 0) as [Hh|Hh].
    { rewrite wrn_features_eq in Hok. unfold wrn_assembled in Hok.
      cbn [wrn.conv] in Hok.
      rewrite stem_empty_image in Hok by now left. discriminate. }
    destruct (N.eq_dec w 0) as [Hw|Hw].
    { rewrite wrn_features_eq in Hok. unfold wrn_assembled in Hok.
      cbn [wrn.conv] in Hok.
      rewrite stem_empty_image in Hok by now right. discriminate. }
    repeat apply conj; try assumption; try lia.
    intro Hv. rewrite wrn_features_single in Hok by first [assumption | lia].
    discriminate.
  - intros (Hn & Hnc & Hic & Hwf & Hh & Hw & Hp & Hv).
    now rewrite wrn_features_shape.
Qed.

(** ** Depth and construction *)

Lemma block_type_valid (bt : string) :
  existsb (String.eqb bt) ["basic"; "bottleneck"] = true
  <-> bt = "basic" \/ bt = "bottleneck".
Proof.
  cbn [existsb]. rewrite orb_false_r, orb_true_iff, !String.eqb_eq.
  reflexivity.
Qed.

Lemma rp_choice_inv (bt : string) (depth : Z)
    (block : resnet_preact.block_class) (n : Z) :
  rp_choice bt depth = Ok (block, n) ->
  block = rp_block_class bt /\ n = rp_blocks_per_stage bt depth
  /\ (if String.eqb bt "basic" then (n * 6 + 2)%Z = depth
      else (n * 9 + 2)%Z = depth).
Proof.
  unfold rp_choice, rp_block_class, rp_blocks_per_stage, assert.
  destruct (String.eqb bt "basic");
    match goal with |- context [if ?c then Ok tt else _] =>
      destruct c eqn:Hc end; cbn [rbind]; intro Heq; try discriminate;
    injection Heq as <- <-; apply Z.eqb_eq in Hc; auto.
Qed.

Lemma rp_relation_of_choice (bt : string) (depth : Z)
    (block : resnet_preact.block_class) (n : Z) :
  existsb (String.eqb bt) ["basic"; "bottleneck"] = true ->
  rp_choice bt depth = Ok (block, n) ->
  rp_depth_relation bt depth.
Proof.
  intros Hbt Hch. apply block_type_valid in Hbt.
  apply rp_choice_inv in Hch. destruct Hch as [_ [-> Hrel]].
  unfold rp_depth_relation.
  destruct Hbt as [-> | ->]; [left | right]; split; try reflexivity;
    exact Hrel.
Qed.

Lemma rp_choice_of_relation (bt : string) (depth : Z) :
  rp_depth_relation bt depth ->
  existsb (String.eqb bt) ["basic"; "bottleneck"] = true
  /\ rp_choice bt depth
     = Ok (rp_block_class bt, rp_blocks_per_stage bt depth).
Proof.
  intros [[-> Hrel] | [-> Hrel]]; (split; [reflexivity|]);
    unfold rp_choice, rp_block_class, rp_blocks_per_stage in *;
    cbn [String.eqb Ascii.eqb Bool.eqb andb] in *;
    apply Z.eqb_eq in Hrel; now rewrite Hrel.
Qed.

Section Depth.

Context {T : Type} {E : Engine T} {I : Initializers}.

Lemma rp_init_needs_relation (cfg : Config.t) (w : Torch T) :
  let mc := Config.resnet_preact (Config.model cfg) in
  ~ rp_depth_relation (Config.ResnetPreact.block_type mc)
      (Config.ResnetPreact.depth mc) ->
  returned (resnet_preact.Network_init cfg) w = Err AssertionError.
Proof.
  intros mc Hrel.
  destruct (rp_choice (Config.ResnetPreact.block_type mc)
              (Config.ResnetPreact.depth mc)) as [[block n]|e] eqn:Hch.
  - destruct (existsb (String.eqb (Config.ResnetPreact.block_type mc))
                ["basic"; "bottleneck"]) eqn:Hbt.
    + exfalso. apply Hrel. eapply rp_relation_of_choice; eassumption.
    + unfold returned, resnet_preact.Network_init. fold mc.
      now rewrite Hbt.
  - eapply rp_init_assertion. exact Hch.
Qed.

Lemma rp_stage_length (rfr alb : bool) (cin cout : N) (n : Z)
    (block : resnet_preact.block_class) (stride : N) (preact : bool) :
  List.length (resnet_preact._make_stage rfr alb cin cout n block stride preact)
  = Z.to_nat n.
Proof.
  rewrite rp_make_stage_eq, length_map. unfold range. apply length_seq.
Qed.

Lemma wrn_stage_length (cin cout : N) (n : Z) (stride : N) (p : Q) :
  List.length (wrn._make_stage cin cout n wrn.BasicBlock_init stride p)
  = Z.to_nat n.
Proof.
  rewrite wrn_make_stage_eq, length_map. unfold range. apply length_seq.
Qed.

(** A constructed resnet_preact network: its depth satisfies the relation and
    each stage has the blocks per stage the depth gives. *)
Lemma rp_init_relation (cfg : Config.t) (w w' : Torch T)
    (net : resnet_preact.Network) :
  let mc := Config.resnet_preact (Config.model cfg) in
  let bt := Config.ResnetPreact.block_type mc in
  let depth := Config.ResnetPreact.depth mc in
  resnet_preact.Network_init cfg w = (Ok net, w') ->
  rp_depth_relation bt depth
  /\ List.length (resnet_preact.stage1 net)
     = Z.to_nat (rp_blocks_per_stage bt depth)
  /\ List.length (resnet_preact.stage2 net)
     = Z.to_nat (rp_blocks_per_stage bt depth)
  /\ List.length (resnet_preact.stage3 net)
     = Z.to_nat (rp_blocks_per_stage bt depth).
Proof.
  intros mc bt depth Hinit.
  apply rp_init_inv in Hinit.
  destruct Hinit as (block & n & p1 & p2 & p3 & out & flat & fsz & Hbt & Hch
                     & _ & -> & _).
  pose proof (rp_relation_of_choice _ _ Hbt Hch) as Hrel.
  apply rp_choice_inv in Hch. destruct Hch as [_ [-> _]].
  unfold rp_assembled.
  cbn [resnet_preact.stage1 resnet_preact.stage2 resnet_preact.stage3].
  rewrite !rp_stage_length. auto.
Qed.

Lemma wrn_init_relation (cfg : Config.t) (w w' : Torch T) (net : wrn.Network) :
  let depth := Config.Wrn.depth (Config.wrn (Config.model cfg)) in
  wrn.Network_init cfg w = (Ok net, w') ->
  wrn_depth_relation depth
  /\ List.length (wrn.stage1 net) = Z.to_nat (wrn_blocks_per_stage depth)
  /\ List.length (wrn.stage2 net) = Z.to_nat (wrn_blocks_per_stage depth)
  /\ List.length (wrn.stage3 net) = Z.to_nat (wrn_blocks_per_stage depth).
Proof.
  intros depth Hinit.
  apply wrn_init_inv in Hinit.
  destruct Hinit as (out & flat & fsz & Hrel & -> & _).
  unfold wrn_assembled. cbn [wrn.stage1 wrn.stage2 wrn.stage3].
  rewrite !wrn_stage_length. auto.
Qed.

End Depth.

Lemma returned_ok {T A} (m : M T A) (w : Torch T) (a : A) :
  returned m w = Ok a -> m w = (Ok a, final_state m w).
Proof.
  unfold returned, final_state. destruct (m w) as [r w']. cbn [fst snd].
  now intros ->.
Qed.

Lemma is_ok_true {A} (r : result A) : is_ok r = true <-> exists a, r = Ok a.
Proof.
  destruct r as [a|e]; cbn [is_ok]; split; intro H.
  - now exists a.
  - reflexivity.
  - discriminate.
  - destruct H as [a H]. discriminate.
Qed.

(** The probe is a batch of one image: it has more than one value per
    channel after the two stride-2 stages exactly when the image is at least
    5 pixels wide. *)
Lemma probe_values (s : N) :
  1 <= s ->
  1 * conv_out (conv_out s 3 2 1) 3 2 1 * conv_out (conv_out s 3 2 1) 3 2 1 <> 1
  <-> 5 <= s.
Proof.
  intro Hs. rewrite values_after_two_strides by first [assumption | lia]. lia.
Qed.

(** Under the reference engine, with the rest of the configuration usable,
    the resnet_preact network is constructed exactly when the depth relation
    holds with at least one block per stage. *)
Lemma rp_construction_iff {I : Initializers} (cfg : Config.t) (w : Torch Shape) :
  let mc := Config.resnet_preact (Config.model cfg) in
  let bt := Config.ResnetPreact.block_type mc in
  let depth := Config.ResnetPreact.depth mc in
  rp_well_sized cfg ->
  is_ok (returned (resnet_preact.Network_init cfg) w) = true
  <-> rp_depth_relation bt depth /\ (1 <= rp_blocks_per_stage bt depth)%Z.
Proof.
  intros mc bt depth (Hnc & Hic & Himg & Hps & Hinit). fold mc in Hic, Hps.
  split.
  - intro Hok. apply is_ok_true in Hok. destruct Hok as [net Hnet].
    apply returned_ok in Hnet.
    pose proof (rp_init_relation _ _ Hnet) as [Hrel _].
    split; [exact Hrel|].
    apply rp_init_inv in Hnet.
    destruct Hnet as (block & n & p1 & p2 & p3 & out & flat & fsz & Hbt & Hch
                      & _ & -> & Hout & _).
    apply rp_choice_inv in Hch. destruct Hch as [_ [-> _]].
    pose proof (f_equal is_ok Hout) as Hok. cbn [is_ok] in Hok.
    unfold dummy_data in Hok. shape_ops.
    apply rp_probe_iff in Hok. tauto.
  - intros [Hrel Hn].
    apply rp_choice_of_relation in Hrel. destruct Hrel as [Hbt Hch].
    destruct (Config.ResnetPreact.preact_stage mc)
      as [|p1 [|p2 [|p3 ps]]] eqn:Hpss; cbn [List.length] in Hps; try lia.
    unfold returned.
    erewrite rp_init_ok;
      [reflexivity | eassumption | eassumption | eassumption | | |
       | eassumption].
    + unfold dummy_data. shape_ops.
      apply rp_features_shape; try assumption; try lia.
      apply probe_values; lia.
    + apply shape_view_all.
    + reflexivity.
Qed.

(** The same for wrn. *)
Lemma wrn_construction_iff {I : Initializers} (cfg : Config.t)
    (w : Torch Shape) :
  let depth := Config.Wrn.depth (Config.wrn (Config.model cfg)) in
  wrn_well_sized cfg ->
  is_ok (returned (wrn.Network_init cfg) w) = true
  <-> wrn_depth_relation depth /\ (1 <= wrn_blocks_per_stage depth)%Z.
Proof.
  intros depth (Hnc & Hic & Hwf & Himg & Hp & Hinit).
  split.
  - intro Hok. apply is_ok_true in Hok. destruct Hok as [net Hnet].
    apply returned_ok in Hnet.
    pose proof (wrn_init_relation _ _ Hnet) as [Hrel _].
    split; [exact Hrel|].
    apply wrn_init_inv in Hnet.
    destruct Hnet as (out & flat & fsz & _ & -> & Hout & _).
    pose proof (f_equal is_ok Hout) as Hok. cbn [is_ok] in Hok.
    unfold dummy_data in Hok. shape_ops.
    apply wrn_probe_iff in Hok. unfold wrn_blocks_per_stage, depth. tauto.
  - intros [Hrel Hn]. unfold returned.
    erewrite wrn_init_ok; [reflexivity | exact Hrel | | | | eassumption].
    + unfold dummy_data. shape_ops.
      apply wrn_features_shape; try assumption; try lia.
      apply probe_values; lia.
    + apply shape_view_all.
    + reflexivity.
Qed.

(** C1, as the code has it.  Construction succeeds only if the depth
    satisfies the exact divisibility relation of the variant: otherwise it
    fails with an assertion error; and a constructed network has
    [(depth - c) / k] blocks in each stage.  This holds for every engine.
    The converse is not claimed: the relation alone does not make
    construction succeed.  Depth 20 with the basic block gives 3 blocks per
    stage and satisfies the relation; depth 19 violates it. *)
Theorem C1_construction_and_depth :
  forall (T : Type) (E : Engine T) (I : Initializers) (cfg : Config.t)
         (w : Torch T),
    let mc := Config.resnet_preact (Config.model cfg) in
    let bt := Config.ResnetPreact.block_type mc in
    let depth := Config.ResnetPreact.depth mc in
    let wdepth := Config.Wrn.depth (Config.wrn (Config.model cfg)) in
    (~ rp_depth_relation bt depth ->
     returned (resnet_preact.Network_init cfg) w = Err AssertionError)
    /\ (~ wrn_depth_relation wdepth ->
        returned (wrn.Network_init cfg) w = Err AssertionError)
    /\ (forall net,
          returned (resnet_preact.Network_init cfg) w = Ok net ->
          rp_depth_relation bt depth
          /\ List.length (resnet_preact.stage1 net)
             = Z.to_nat (rp_blocks_per_stage bt depth)
          /\ List.length (resnet_preact.stage2 net)
             = Z.to_nat (rp_blocks_per_stage bt depth)
          /\ List.length (resnet_preact.stage3 net)
             = Z.to_nat (rp_blocks_per_stage bt depth))
    /\ (forall net,
          returned (wrn.Network_init cfg) w = Ok net ->
          wrn_depth_relation wdepth
          /\ List.length (wrn.stage1 net)
             = Z.to_nat (wrn_blocks_per_stage wdepth)
          /\ List.length (wrn.stage2 net)
             = Z.to_nat (wrn_blocks_per_stage wdepth)
          /\ List.length (wrn.stage3 net)
             = Z.to_nat (wrn_blocks_per_stage wdepth))
    /\ rp_blocks_per_stage "basic" 20 = 3%Z
    /\ rp_depth_relation "basic" 20
    /\ ~ rp_depth_relation "basic" 19.
Proof.
  intros T E I cfg w mc bt depth wdepth. repeat apply conj.
  - apply rp_init_needs_relation.
  - apply wrn_init_assertion.
  - intros net Hnet. apply returned_ok in Hnet.
    exact (rp_init_relation _ _ Hnet).
  - intros net Hnet. apply returned_ok in Hnet.
    exact (wrn_init_relation _ _ Hnet).
  - reflexivity.
  - left. split; reflexivity.
  - intros [[_ H] | [H _]]; [vm_compute in H|]; discriminate.
Qed.

(** Depth 20 with the basic block: the network is constructed, with three
    blocks in each stage; depth 19 fails the depth assertion. *)
Lemma C1_construction_and_depth_witness :
  is_ok (returned (resnet_preact.Network_init (I := any_initializer)
                     (example_config "basic" 20)) (@fresh Shape)) = true
  /\ (forall net,
        returned (resnet_preact.Network_init (I := any_initializer)
                    (example_config "basic" 20)) (@fresh Shape) = Ok net ->
        List.length (resnet_preact.stage1 net) = 3%nat)
  /\ returned (resnet_preact.Network_init (I := any_initializer)
                 (example_config "basic" 19)) (@fresh Shape)
     = Err AssertionError.
Proof.
  pose proof (@C1_construction_and_depth Shape ShapeEngine any_initializer
                (example_config "basic" 20) fresh)
    as (_ & _ & Hlen & _).
  pose proof (@C1_construction_and_depth Shape ShapeEngine any_initializer
                (example_config "basic" 19) fresh)
    as (Hfail & _ & _ & _ & _ & _ & Hnot).
  repeat apply conj.
  - reflexivity.
  - intros net Hnet. now destruct (Hlen net Hnet) as [_ [H1 _]].
  - apply Hfail. exact Hnot.
Defined.

(** C1 as stated fails: depth 2 (basic block) and depth 4 (wrn) satisfy the
    divisibility relation, with zero blocks per stage, and the construction
    fails: the stages are empty, and the final normalization, built for the
    last width, meets the stem's width in the feature-size probe. *)
Lemma C1_counterexample :
  rp_depth_relation "basic" 2
  /\ returned (resnet_preact.Network_init (I := any_initializer)
                 (example_config "basic" 2)) (@fresh Shape)
     = Err RuntimeError
  /\ wrn_depth_relation 4
  /\ returned (wrn.Network_init (I := any_initializer)
                 (example_config "basic" 4)) (@fresh Shape)
     = Err RuntimeError.
Proof.
  repeat apply conj.
  - left. split; reflexivity.
  - reflexivity.
  - reflexivity.
  - reflexivity.
Qed.

(** ** Channel widths *)

Lemma rp_block_init_out (block : resnet_preact.block_class)
    (cin cout stride : N) (rfr alb preact : bool) :
  rp_block_out (resnet_preact.block_init block cin cout stride rfr alb preact)
  = cout
  /\ rp_block_in (resnet_preact.block_init block cin cout stride rfr alb preact)
     = cin
  /\ rp_block_stride
       (resnet_preact.block_init block cin cout stride rfr alb preact)
     = stride.
Proof. destruct block; repeat split. Qed.

Lemma Forall_nth_block {A} (P : A -> Prop) (first rest : A) (l : list nat) :
  P first -> P rest -> Forall P (map (nth_block first rest) l).
Proof.
  intros Hf Hr. apply Forall_map, Forall_forall. intros i _.
  unfold nth_block. now destruct (i =? 0)%nat.
Qed.






(** ** The forward pass *)

Section ForwardOrder.

Context {T : Type} {E : Engine T}.

(** The forward pass of a network is the sequence of [in_order]. *)
Lemma rp_forward_in_order (net : resnet_preact.Network)
    (x x1 x2 x3 x4 x5 x6 x7 y : T) (w : Torch T) :
  in_order (resnet_preact.conv net) (forward (resnet_preact.stage1 net))
    (forward (resnet_preact.stage2 net)) (forward (resnet_preact.stage3 net))
    (resnet_preact.bn net) (resnet_preact.fc net) x x1 x2 x3 x4 x5 x6 x7 y ->
  resnet_preact.Network_forward net x w
  = (Ok y, after_call w (grad_enabled w) x).
Proof.
  intros (H1 & H2 & H3 & H4 & H5 & H6 & (n & Hn & H7) & (l & Hl & H8)).
  unfold resnet_preact.Network_forward, mbind.
  rewrite rp_forward_conv_run.
  unfold rp_features, returned, resnet_preact._forward_conv, mbind,
    enter_forward_conv, lift. cbn [fst].
  rewrite H1. cbn [rbind]. rewrite H2. cbn [rbind]. rewrite H3. cbn [rbind].
  rewrite H4. cbn [rbind]. rewrite H5. cbn [rbind]. rewrite H6.
  rewrite Hn. cbn [rbind]. rewrite H7. cbn [rbind]. now rewrite Hl, H8.
Qed.

Lemma wrn_forward_in_order (net : wrn.Network)
    (x x1 x2 x3 x4 x5 x6 x7 y : T) (w : Torch T) :
  in_order (wrn.conv net) (forward (wrn.stage1 net))
    (forward (wrn.stage2 net)) (forward (wrn.stage3 net))
    (wrn.bn net) (wrn.fc net) x x1 x2 x3 x4 x5 x6 x7 y ->
  wrn.Network_forward net x w = (Ok y, after_call w (grad_enabled w) x).
Proof.
  intros (H1 & H2 & H3 & H4 & H5 & H6 & (n & Hn & H7) & (l & Hl & H8)).
  unfold wrn.Network_forward, mbind.
  rewrite wrn_forward_conv_run.
  unfold wrn_features, returned, wrn._forward_conv, mbind,
    enter_forward_conv, lift. cbn [fst].
  rewrite H1. cbn [rbind]. rewrite H2. cbn [rbind]. rewrite H3. cbn [rbind].
  rewrite H4. cbn [rbind]. rewrite H5. cbn [rbind]. rewrite H6.
  rewrite Hn. cbn [rbind]. rewrite H7. cbn [rbind]. now rewrite Hl, H8.
Qed.

(** The forward pass of a network is the forward pass the specification
    words, whatever the network, the input and the engine are. *)
Lemma rp_forward_as_spec (net : resnet_preact.Network) (x : T) (w : Torch T) :
  returned (resnet_preact.Network_forward net x) w
  = spec_forward (resnet_preact.conv net) (forward (resnet_preact.stage1 net))
      (forward (resnet_preact.stage2 net)) (forward (resnet_preact.stage3 net))
      (resnet_preact.bn net) (resnet_preact.fc net) x.
Proof.
  unfold returned, resnet_preact.Network_forward, mbind.
  rewrite rp_forward_conv_run.
  unfold rp_features, returned, resnet_preact._forward_conv, mbind,
    enter_forward_conv, lift, spec_forward. cbn [fst].
  destruct (conv2d _ x) as [x1|]; cbn [rbind fst]; [|reflexivity].
  destruct (forward (resnet_preact.stage1 net) x1) as [x2|];
    cbn [rbind fst]; [|reflexivity].
  destruct (forward (resnet_preact.stage2 net) x2) as [x3|];
    cbn [rbind fst]; [|reflexivity].
  destruct (forward (resnet_preact.stage3 net) x3) as [x4|];
    cbn [rbind fst]; [|reflexivity].
  destruct (batch_norm _ x4) as [x5|]; cbn [rbind fst]; [|reflexivity].
  destruct (adaptive_avg_pool2d _ 1) as [x6|]; cbn [rbind fst]; reflexivity.
Qed.

Lemma wrn_forward_as_spec (net : wrn.Network) (x : T) (w : Torch T) :
  returned (wrn.Network_forward net x) w
  = spec_forward (wrn.conv net) (forward (wrn.stage1 net))
      (forward (wrn.stage2 net)) (forward (wrn.stage3 net))
      (wrn.bn net) (wrn.fc net) x.
Proof.
  unfold returned, wrn.Network_forward, mbind.
  rewrite wrn_forward_conv_run.
  unfold wrn_features, returned, wrn._forward_conv, mbind,
    enter_forward_conv, lift, spec_forward. cbn [fst].
  destruct (conv2d _ x) as [x1|]; cbn [rbind fst]; [|reflexivity].
  destruct (forward (wrn.stage1 net) x1) as [x2|];
    cbn [rbind fst]; [|reflexivity].
  destruct (forward (wrn.stage2 net) x2) as [x3|];
    cbn [rbind fst]; [|reflexivity].
  destruct (forward (wrn.stage3 net) x3) as [x4|];
    cbn [rbind fst]; [|reflexivity].
  destruct (batch_norm _ x4) as [x5|]; cbn [rbind fst]; [|reflexivity].
  destruct (adaptive_avg_pool2d _ 1) as [x6|]; cbn [rbind fst]; reflexivity.
Qed.

End ForwardOrder.

Lemma first_stride_rp (rfr alb : bool) (cin cout : N) (n : Z)
    (block : resnet_preact.block_class) (stride : N) (preact : bool) :
  (1 <= n)%Z ->
  first_stride rp_block_stride
    (resnet_preact._make_stage rfr alb cin cout n block stride preact)
  = Some stride.
Proof.
  intro Hn. unfold first_stride.
  rewrite rp_make_stage_eq, modules_stage by assumption.
  cbn [hd_error option_map]. f_equal. apply rp_block_init_out.
Qed.

Lemma first_stride_wrn (cin cout : N) (n : Z) (stride : N) (p : Q) :
  (1 <= n)%Z ->
  first_stride wrn_block_stride
    (wrn._make_stage cin cout n wrn.BasicBlock_init stride p)
  = Some stride.
Proof.
  intro Hn. unfold first_stride.
  now rewrite wrn_make_stage_eq, modules_stage by assumption.
Qed.

(** The forward pass of a constructed resnet_preact network, step by step. *)
Lemma rp_forward_steps {I : Initializers} (cfg : Config.t)
    (w0 w0' : Torch Shape) (net : resnet_preact.Network) (b h w : N) :
  let mc := Config.resnet_preact (Config.model cfg) in
  let ic := Config.ResnetPreact.initial_channels mc in
  let e := resnet_preact.expansion
             (rp_block_class (Config.ResnetPreact.block_type mc)) in
  let nc := Config.n_channels (Config.dataset cfg) in
  let h2 := conv_out h 3 2 1 in
  let w2 := conv_out w 3 2 1 in
  let h3 := conv_out h2 3 2 1 in
  let w3 := conv_out w2 3 2 1 in
  resnet_preact.Network_init cfg w0 = (Ok net, w0') ->
  1 <= b -> 1 <= h -> 1 <= w -> 2 <= b \/ 5 <= h \/ 5 <= w ->
  in_order (resnet_preact.conv net) (forward (resnet_preact.stage1 net))
    (forward (resnet_preact.stage2 net)) (forward (resnet_preact.stage3 net))
    (resnet_preact.bn net) (resnet_preact.fc net)
    [b; nc; h; w]
    [b; ic; h; w] [b; ic; h; w] [b; ic * 2 * e; h2; w2]
    [b; ic * 4 * e; h3; w3] [b; ic * 4 * e; h3; w3]
    [b; ic * 4 * e; 1; 1] [b; ic * 4 * e]
    [b; Config.n_classes (Config.dataset cfg)]
  /\ first_stride rp_block_stride (resnet_preact.stage1 net) = Some 1
  /\ first_stride rp_block_stride (resnet_preact.stage2 net) = Some 2
  /\ first_stride rp_block_stride (resnet_preact.stage3 net) = Some 2.
Proof.
  intros mc ic e nc h2 w2 h3 w3 Hinit Hb Hh Hw Hlarge.
  apply values_after_two_strides in Hlarge; try assumption.
  apply rp_init_inv in Hinit.
  destruct Hinit as (block & n & p1 & p2 & p3 & out & flat & fsz & _ & Hch
                     & _ & -> & Hout & Hflat & Hfsz & _).
  apply rp_choice_inv in Hch. destruct Hch as [-> [_ _]].
  fold mc ic nc in Hout |- *.
  pose proof (f_equal is_ok Hout) as Hok. cbn [is_ok] in Hok.
  unfold dummy_data in Hok, Hout. shape_ops.
  apply rp_probe_iff in Hok.
  destruct Hok as (Hn & Hnc & Hic & Himg & _ & Hprobe).
  fold e in Hic.
  rewrite rp_features_shape in Hout by assumption.
  injection Hout as <-. fold e in Hflat.
  rewrite shape_view_all in Hflat. injection Hflat as <-.
  cbn [getitem nth_error] in Hfsz. injection Hfsz as <-.
  destruct (@rp_trunk_shapes nc ic (Config.ResnetPreact.remove_first_relu mc)
              (Config.ResnetPreact.add_last_bn mc)
              (rp_block_class (Config.ResnetPreact.block_type mc))
              n p1 p2 p3 b h w Hn Hnc Hic Hh Hw Hlarge)
    as (H0 & H1 & H2 & H3 & H4).
  unfold rp_assembled, in_order.
  cbn [resnet_preact.conv resnet_preact.stage1 resnet_preact.stage2
       resnet_preact.stage3 resnet_preact.bn resnet_preact.fc].
  shape_ops. fold e h2 w2 h3 w3 in H2, H3, H4 |- *.
  repeat apply conj; try assumption.
  - apply shape_pool_ok; apply conv_out_pos.
  - exists b. split; [reflexivity | now apply shape_view_batch].
  - eexists. split; [reflexivity | now apply shape_linear_ok].
  - now apply first_stride_rp.
  - now apply first_stride_rp.
  - now apply first_stride_rp.
Qed.

Lemma wrn_forward_steps {I : Initializers} (cfg : Config.t)
    (w0 w0' : Torch Shape) (net : wrn.Network) (b h w : N) :
  let mc := Config.wrn (Config.model cfg) in
  let ic := Config.Wrn.initial_channels mc in
  let k := Config.Wrn.widening_factor mc in
  let nc := Config.n_channels (Config.dataset cfg) in
  let h2 := conv_out h 3 2 1 in
  let w2 := conv_out w 3 2 1 in
  let h3 := conv_out h2 3 2 1 in
  let w3 := conv_out w2 3 2 1 in
  wrn.Network_init cfg w0 = (Ok net, w0') ->
  1 <= b -> 1 <= h -> 1 <= w -> 2 <= b \/ 5 <= h \/ 5 <= w ->
  in_order (wrn.conv net) (forward (wrn.stage1 net))
    (forward (wrn.stage2 net)) (forward (wrn.stage3 net))
    (wrn.bn net) (wrn.fc net)
    [b; nc; h; w]
    [b; ic; h; w] [b; ic * k; h; w] [b; ic * 2 * k; h2; w2]
    [b; ic * 4 * k; h3; w3] [b; ic * 4 * k; h3; w3]
    [b; ic * 4 * k; 1; 1] [b; ic * 4 * k]
    [b; Config.n_classes (Config.dataset cfg)]
  /\ first_stride wrn_block_stride (wrn.stage1 net) = Some 1
  /\ first_stride wrn_block_stride (wrn.stage2 net) = Some 2
  /\ first_stride wrn_block_stride (wrn.stage3 net) = Some 2.
Proof.
  intros mc ic k nc h2 w2 h3 w3 Hinit Hb Hh Hw Hlarge.
  apply values_after_two_strides in Hlarge; try assumption.
  apply wrn_init_inv in Hinit.
  destruct Hinit as (out & flat & fsz & _ & -> & Hout & Hflat & Hfsz & _).
  fold mc ic k nc in Hout |- *.
  pose proof (f_equal is_ok Hout) as Hok. cbn [is_ok] in Hok.
  unfold dummy_data in Hok, Hout. shape_ops.
  apply wrn_probe_iff in Hok.
  destruct Hok as (Hn & Hnc & Hic & Hk & Himg & _ & Hp & Hprobe).
  rewrite wrn_features_shape in Hout by assumption.
  injection Hout as <-.
  rewrite shape_view_all in Hflat. injection Hflat as <-.
  cbn [getitem nth_error] in Hfsz. injection Hfsz as <-.
  destruct (@wrn_trunk_shapes nc ic k _ _ b h w Hn Hnc Hic Hk Hh Hw Hp Hlarge)
    as (H0 & H1 & H2 & H3 & H4).
  unfold wrn_assembled, in_order.
  cbn [wrn.conv wrn.stage1 wrn.stage2 wrn.stage3 wrn.bn wrn.fc].
  shape_ops. fold h2 w2 h3 w3 in H2, H3, H4 |- *.
  repeat apply conj; try assumption.
  - apply shape_pool_ok; apply conv_out_pos.
  - exists b. split; [reflexivity | now apply shape_view_batch].
  - eexists. split; [reflexivity | now apply shape_linear_ok].
  - now apply first_stride_wrn.
  - now apply first_stride_wrn.
  - now apply first_stride_wrn.
Qed.

(** C7, as the code has it.  The forward pass of a network is, for every
    engine, network and input, the pass the specification words: stem
    convolution, stage 1, stage 2, stage 3, final normalization and
    activation, global average pooling to 1x1, flattening and the linear
    classifier, in this order.  In a constructed network (of either family)
    the stages start with strides 1, 2 and 2, and on an input of shape
    (B, n_channels, H, W) with B, H, W at least 1 the pass goes through the
    shapes listed and returns a tensor of shape (B, n_classes), whatever H
    and W are, provided B >= 2, H >= 5 or W >= 5: the normalization layers
    are in training mode and need more than one value per channel, also
    after the two stride-2 reductions. *)
Theorem C7_forward_pass :
  forall (I : Initializers) (cfg : Config.t),
    let nc := Config.n_channels (Config.dataset cfg) in
    let classes := Config.n_classes (Config.dataset cfg) in
    (forall (T : Type) (E : Engine T) (net : resnet_preact.Network) (x : T)
            (w1 : Torch T),
        returned (resnet_preact.Network_forward net x) w1
        = spec_forward (resnet_preact.conv net)
            (forward (resnet_preact.stage1 net))
            (forward (resnet_preact.stage2 net))
            (forward (resnet_preact.stage3 net))
            (resnet_preact.bn net) (resnet_preact.fc net) x)
    /\ (forall (T : Type) (E : Engine T) (net : wrn.Network) (x : T)
               (w1 : Torch T),
          returned (wrn.Network_forward net x) w1
          = spec_forward (wrn.conv net) (forward (wrn.stage1 net))
              (forward (wrn.stage2 net)) (forward (wrn.stage3 net))
              (wrn.bn net) (wrn.fc net) x)
    /\ (forall (w0 w0' w1 : Torch Shape) (net : resnet_preact.Network)
               (b h w : N),
          resnet_preact.Network_init cfg w0 = (Ok net, w0') ->
          1 <= nc -> 1 <= b -> 1 <= h -> 1 <= w ->
          2 <= b \/ 5 <= h \/ 5 <= w ->
          let mc := Config.resnet_preact (Config.model cfg) in
          let c := Config.ResnetPreact.initial_channels mc in
          let e := resnet_preact.expansion
                     (rp_block_class (Config.ResnetPreact.block_type mc)) in
          let h2 := conv_out h 3 2 1 in
          let w2 := conv_out w 3 2 1 in
          let h3 := conv_out h2 3 2 1 in
          let w3 := conv_out w2 3 2 1 in
          in_order (resnet_preact.conv net)
            (forward (resnet_preact.stage1 net))
            (forward (resnet_preact.stage2 net))
            (forward (resnet_preact.stage3 net))
            (resnet_preact.bn net) (resnet_preact.fc net)
            [b; nc; h; w]
            [b; c; h; w] [b; c; h; w] [b; c * 2 * e; h2; w2]
            [b; c * 4 * e; h3; w3] [b; c * 4 * e; h3; w3]
            [b; c * 4 * e; 1; 1] [b; c * 4 * e] [b; classes]
          /\ first_stride rp_block_stride (resnet_preact.stage1 net) = Some 1
          /\ first_stride rp_block_stride (resnet_preact.stage2 net) = Some 2
          /\ first_stride rp_block_stride (resnet_preact.stage3 net) = Some 2
          /\ returned (resnet_preact.Network_forward net [b; nc; h; w]) w1
             = Ok [b; classes])
    /\ (forall (w0 w0' w1 : Torch Shape) (net : wrn.Network) (b h w : N),
          wrn.Network_init cfg w0 = (Ok net, w0') ->
          1 <= nc -> 1 <= b -> 1 <= h -> 1 <= w ->
          2 <= b \/ 5 <= h \/ 5 <= w ->
          let mc := Config.wrn (Config.model cfg) in
          let c := Config.Wrn.initial_channels mc in
          let k := Config.Wrn.widening_factor mc in
          let h2 := conv_out h 3 2 1 in
          let w2 := conv_out w 3 2 1 in
          let h3 := conv_out h2 3 2 1 in
          let w3 := conv_out w2 3 2 1 in
          in_order (wrn.conv net)
            (forward (wrn.stage1 net)) (forward (wrn.stage2 net))
            (forward (wrn.stage3 net))
            (wrn.bn net) (wrn.fc net)
            [b; nc; h; w]
            [b; c; h; w] [b; c * k; h; w] [b; c * 2 * k; h2; w2]
            [b; c * 4 * k; h3; w3] [b; c * 4 * k; h3; w3]
            [b; c * 4 * k; 1; 1] [b; c * 4 * k] [b; classes]
          /\ first_stride wrn_block_stride (wrn.stage1 net) = Some 1
          /\ first_stride wrn_block_stride (wrn.stage2 net) = Some 2
          /\ first_stride wrn_block_stride (wrn.stage3 net) = Some 2
          /\ returned (wrn.Network_forward net [b; nc; h; w]) w1
             = Ok [b; classes]).
Proof.
  intros I cfg nc classes.
  refine (conj _ (conj _ (conj _ _))).
  - intros T E net x w1. apply rp_forward_as_spec.
  - intros T E net x w1. apply wrn_forward_as_spec.
  - intros w0 w0' w1 net b h w Hinit _ Hb Hh Hw Hlarge mc c e h2 w2 h3 w3.
    destruct (@rp_forward_steps I cfg w0 w0' net b h w Hinit Hb Hh Hw Hlarge)
      as (Hord & S1 & S2 & S3).
    refine (conj Hord (conj S1 (conj S2 (conj S3 _)))).
    exact (f_equal fst
             (@rp_forward_in_order _ _ net _ _ _ _ _ _ _ _ _ w1 Hord)).
  - intros w0 w0' w1 net b h w Hinit _ Hb Hh Hw Hlarge mc c k h2 w2 h3 w3.
    destruct (@wrn_forward_steps I cfg w0 w0' net b h w Hinit Hb Hh Hw Hlarge)
      as (Hord & S1 & S2 & S3).
    refine (conj Hord (conj S1 (conj S2 (conj S3 _)))).
    exact (f_equal fst
             (@wrn_forward_in_order _ _ net _ _ _ _ _ _ _ _ _ w1 Hord)).
Qed.

(** A network of depth 20 built for 32x32 images, applied to a batch of five
    7x11 images. *)
Lemma C7_forward_pass_witness :
  exists net w',
    resnet_preact.Network_init (I := any_initializer)
      (example_config "basic" 20) (@fresh Shape) = (Ok net, w')
    /\ returned (resnet_preact.Network_forward net [5; 3; 7; 11]) w'
       = Ok [5; 10].
Proof.
  destruct (resnet_preact.Network_init (I := any_initializer)
              (example_config "basic" 20) (@fresh Shape))
    as [[net|e] w'] eqn:Hinit.
  - exists net, w'. split; [reflexivity|].
    destruct (C7_forward_pass any_initializer (example_config "basic" 20))
      as (_ & _ & Hrp & _).
    exact (proj2 (proj2 (proj2 (proj2
             (Hrp fresh w' w' net 5 7 11 Hinit
                ltac:(vm_compute; discriminate) ltac:(lia) ltac:(lia)
                ltac:(lia) ltac:(lia)))))).
  - vm_compute in Hinit. discriminate Hinit.
Defined.

(** C7 as stated fails: a single 4x4 image survives the two stride-2
    reductions (4 -> 2 -> 1), but the forward pass of the depth-20 network
    does not return: the last stage leaves one value per channel, which a
    normalization layer in training mode rejects. *)
Lemma C7_counterexample :
  conv_out (conv_out 4 3 2 1) 3 2 1 = 1
  /\ is_ok (returned (resnet_preact.Network_init (I := any_initializer)
                        (example_config "basic" 20)) (@fresh Shape)) = true
  /\ returned
       (net <- resnet_preact.Network_init (I := any_initializer)
                 (example_config "basic" 20) ;;
        resnet_preact.Network_forward net [1; 3; 4; 4])%torch (@fresh Shape)
     = Err ValueError.
Proof. repeat split. Qed.

(** ** The feature-size probe *)

(** Under the reference engine the measured feature size is the last
    width. *)
Lemma rp_feature_size {I : Initializers} (cfg : Config.t)
    (w w' : Torch Shape) (net : resnet_preact.Network) :
  let mc := Config.resnet_preact (Config.model cfg) in
  resnet_preact.Network_init cfg w = (Ok net, w') ->
  resnet_preact.feature_size net
  = Some (Config.ResnetPreact.initial_channels mc * 4
          * resnet_preact.expansion
              (rp_block_class (Config.ResnetPreact.block_type mc))).
Proof.
  intros mc Hinit.
  apply rp_init_inv in Hinit.
  destruct Hinit as (block & n & p1 & p2 & p3 & out & flat & fsz & _ & Hch
                     & _ & -> & Hout & Hflat & Hfsz & _).
  apply rp_choice_inv in Hch. destruct Hch as [-> [_ _]].
  pose proof (f_equal is_ok Hout) as Hok. cbn [is_ok] in Hok.
  unfold dummy_data in Hok, Hout. shape_ops.
  apply rp_probe_iff in Hok.
  destruct Hok as (Hn & Hnc & Hic & Himg & _ & Hprobe).
  rewrite rp_features_shape in Hout by assumption.
  injection Hout as <-.
  rewrite shape_view_all in Hflat. injection Hflat as <-.
  cbn [getitem nth_error] in Hfsz. injection Hfsz as <-.
  reflexivity.
Qed.

Lemma wrn_feature_size {I : Initializers} (cfg : Config.t)
    (w w' : Torch Shape) (net : wrn.Network) :
  let mc := Config.wrn (Config.model cfg) in
  wrn.Network_init cfg w = (Ok net, w') ->
  wrn.feature_size net
  = Some (Config.Wrn.initial_channels mc * 4 * Config.Wrn.widening_factor mc).
Proof.
  intros mc Hinit.
  apply wrn_init_inv in Hinit.
  destruct Hinit as (out & flat & fsz & _ & -> & Hout & Hflat & Hfsz & _).
  pose proof (f_equal is_ok Hout) as Hok. cbn [is_ok] in Hok.
  unfold dummy_data in Hok, Hout. shape_ops.
  apply wrn_probe_iff in Hok.
  destruct Hok as (Hn & Hnc & Hic & Hk & Himg & _ & Hp & Hprobe).
  rewrite wrn_features_shape in Hout by assumption.
  injection Hout as <-.
  rewrite shape_view_all in Hflat. injection Hflat as <-.
  cbn [getitem nth_error] in Hfsz. injection Hfsz as <-.
  reflexivity.
Qed.


(** The probe of the depth-20 network: one call, on zeros of shape
    (1, 3, 32, 32), made without gradient tracking although tracking was
    enabled before and is enabled after; 64 features. *)
Example probe_depth_20 :
  forall net w',
    resnet_preact.Network_init (I := any_initializer)
      (example_config "basic" 20) (@fresh Traced) = (Ok net, w') ->
    w' = mkTorch true [mkCall false ([1; 3; 32; 32], Zeros)]
    /\ resnet_preact.feature_size net = Some 64
    /\ resnet_preact.fc net = Some (mkLinear 64 10).
Proof.
  intros net w' Hinit. vm_compute in Hinit. injection Hinit as <- <-.
  repeat split.
Qed.

(* ================================================================== *)
(** * Further properties *)

(** ** Blocks and stages, by shape *)

Lemma conv_out_formula (h s : N) : conv_out h 3 s 1 = (h - 1) / s + 1.
Proof. unfold conv_out. do 2 f_equal. lia. Qed.

(** X1.  A block built for [cin -> cout] with [stride] maps an input of shape
    (b, cin, h, w) to (b, cout, (h-1)/stride + 1, (w-1)/stride + 1), whatever
    its flags are, provided the stride is 1 when the channel counts agree
    and the result has more than one value per channel: the normalization
    layers are in training mode.  A bottleneck block needs [cout >= 4], its
    inner width being [cout // 4]. *)
Theorem block_output_shape :
  forall (cin cout stride : N) (rfr alb preact : bool) (p : Q) (b h w : N),
    1 <= stride -> 1 <= cin -> 1 <= cout -> 1 <= b -> 1 <= h -> 1 <= w ->
    (cin = cout -> stride = 1) ->
    let h' := (h - 1) / stride + 1 in
    let w' := (w - 1) / stride + 1 in
    1 < b * h' * w' ->
    resnet_preact.BasicBlock_forward
      (resnet_preact.BasicBlock_init cin cout stride rfr alb preact)
      [b; cin; h; w] = Ok [b; cout; h'; w']
    /\ (4 <= cout ->
        resnet_preact.BottleneckBlock_forward
          (resnet_preact.BottleneckBlock_init cin cout stride rfr alb preact)
          [b; cin; h; w] = Ok [b; cout; h'; w'])
    /\ (drop_rate_ok p = true ->
        wrn.BasicBlock_forward (wrn.BasicBlock_init cin cout stride p)
          [b; cin; h; w] = Ok [b; cout; h'; w']).
Proof.
  intros cin cout stride rfr alb preact p b h w Hs Hi Ho Hb Hh Hw Hid h' w' Hv.
  subst h' w'. rewrite <- !conv_out_formula in *.
  assert (Hv' : b * conv_out h 3 stride 1 * conv_out w 3 stride 1 <> 1) by lia.
  repeat apply conj.
  - now apply basic_block_shape.
  - intro H4. apply bottleneck_block_shape; try assumption. div_lia.
  - intro Hp. now apply wrn_block_shape.
Qed.

Lemma block_output_shape_witness :
  resnet_preact.BasicBlock_forward
    (resnet_preact.BasicBlock_init 16 32 2 false true false) [8; 16; 7; 10]
  = Ok [8; 32; 4; 5].
Proof.
  exact (proj1 (@block_output_shape 16 32 2 false true false 0 8 7 10
                  ltac:(lia) ltac:(lia) ltac:(lia) ltac:(lia) ltac:(lia)
                  ltac:(lia) ltac:(lia) ltac:(vm_compute; reflexivity))).
Defined.








(** ** Shortcuts of the blocks a network builds *)

Lemma shortcut_by_stride_init (cin cout stride : N) :
  (cin = cout -> stride = 1) ->
  shortcut_by_stride
    (if negb (cin =? cout)
     then add_module "conv" (mkConv2d cin cout 1 stride 0 false) []
     else [])
    cin cout stride.
Proof.
  intro Hid. unfold shortcut_by_stride.
  destruct (N.eqb_spec cin cout) as [Heq|Hne]; cbn [negb].
  - split; [intros _; auto | reflexivity].
  - split; [discriminate | intros [Heq _]; contradiction].
Qed.

Lemma rp_block_shortcut_by_stride (block : resnet_preact.block_class)
    (cin cout stride : N) (rfr alb preact : bool) :
  (cin = cout -> stride = 1) ->
  let b := resnet_preact.block_init block cin cout stride rfr alb preact in
  shortcut_by_stride (rp_block_shortcut b) (rp_block_in b) (rp_block_out b)
    (rp_block_stride b).
Proof.
  intro Hid. destruct block; now apply shortcut_by_stride_init.
Qed.

Lemma wrn_block_shortcut_by_stride (cin cout stride : N) (p : Q) :
  (cin = cout -> stride = 1) ->
  let b := wrn.BasicBlock_init cin cout stride p in
  shortcut_by_stride (wrn.shortcut b) (conv_in_channels (wrn.conv1 b))
    (wrn_block_out b) (wrn_block_stride b).
Proof. intro Hid. now apply shortcut_by_stride_init. Qed.

Lemma rp_stage_Forall (P : resnet_preact.Block -> Prop) (rfr alb : bool)
    (cin cout : N) (n : Z) (block : resnet_preact.block_class) (stride : N)
    (preact : bool) :
  P (resnet_preact.block_init block cin cout stride rfr alb preact) ->
  P (resnet_preact.block_init block cout cout 1 rfr alb false) ->
  Forall P
    (modules (resnet_preact._make_stage rfr alb cin cout n block stride preact)).
Proof.
  intros Hf Hr. rewrite rp_make_stage_eq. unfold modules.
  rewrite map_map. cbn [snd]. now apply Forall_nth_block.
Qed.

Lemma wrn_stage_Forall (P : wrn.BasicBlock -> Prop) (cin cout : N) (n : Z)
    (stride : N) (p : Q) :
  P (wrn.BasicBlock_init cin cout stride p) ->
  P (wrn.BasicBlock_init cout cout 1 p) ->
  Forall P (modules (wrn._make_stage cin cout n wrn.BasicBlock_init stride p)).
Proof.
  intros Hf Hr. rewrite wrn_make_stage_eq. unfold modules.
  rewrite map_map. cbn [snd]. now apply Forall_nth_block.
Qed.

Lemma width_doubles (c e : N) : 1 <= c -> e = 1 \/ e = 4 ->
  c <> c * 2 * e /\ c * 2 * e <> c * 4 * e.
Proof. intros Hc [-> | ->]; lia. Qed.

Lemma wide_width_doubles (c k : N) : 1 <= c -> 1 <= k ->
  c * k <> c * 2 * k.
Proof.
  intros Hc Hk. assert (1 * 1 <= c * k) by (apply N.mul_le_mono; assumption).
  lia.
Qed.

(** X4.  In a network constructed with a positive initial width (and, for wrn, a
    positive widening factor) every block of every stage has the identity
    shortcut exactly when its channel counts agree and its stride is 1: the
    stride-2 blocks are the first blocks of stages 2 and 3, where the width
    changes.  This holds for every engine. *)
Theorem network_shortcuts_follow_stride :
  forall (T : Type) (E : Engine T) (I : Initializers) (cfg : Config.t)
         (w w' w'' : Torch T) (rp_net : resnet_preact.Network)
         (wrn_net : wrn.Network),
    1 <= Config.ResnetPreact.initial_channels
           (Config.resnet_preact (Config.model cfg)) ->
    1 <= Config.Wrn.initial_channels (Config.wrn (Config.model cfg)) ->
    1 <= Config.Wrn.widening_factor (Config.wrn (Config.model cfg)) ->
    (resnet_preact.Network_init cfg w = (Ok rp_net, w') ->
     Forall (fun b => shortcut_by_stride (rp_block_shortcut b) (rp_block_in b)
                        (rp_block_out b) (rp_block_stride b))
       (modules (resnet_preact.stage1 rp_net)
        ++ modules (resnet_preact.stage2 rp_net)
        ++ modules (resnet_preact.stage3 rp_net)))
    /\ (wrn.Network_init cfg w = (Ok wrn_net, w'') ->
        Forall (fun b => shortcut_by_stride (wrn.shortcut b)
                           (conv_in_channels (wrn.conv1 b))
                           (wrn_block_out b) (wrn_block_stride b))
          (modules (wrn.stage1 wrn_net) ++ modules (wrn.stage2 wrn_net)
           ++ modules (wrn.stage3 wrn_net))).
Proof.
  intros T E I cfg w w' w'' rp_net wrn_net Hic Hwc Hwk. split.
  - intro Hinit. apply rp_init_inv in Hinit.
    destruct Hinit as (block & n & p1 & p2 & p3 & out & flat & fsz & _ & _
                       & _ & -> & _).
    destruct (width_doubles Hic (expansion_cases block)) as [H12 H23].
    unfold rp_assembled.
    cbn [resnet_preact.stage1 resnet_preact.stage2 resnet_preact.stage3].
    repeat (apply Forall_app; split);
      apply rp_stage_Forall; apply rp_block_shortcut_by_stride;
      intros; try reflexivity; contradiction.
  - intro Hinit. apply wrn_init_inv in Hinit.
    destruct Hinit as (out & flat & fsz & _ & -> & _).
    pose proof (wide_width_doubles Hwc Hwk) as H23.
    assert (H34 : Config.Wrn.initial_channels (Config.wrn (Config.model cfg))
                  * 2 * Config.Wrn.widening_factor
                          (Config.wrn (Config.model cfg))
                  <> Config.Wrn.initial_channels
                       (Config.wrn (Config.model cfg))
                     * 4 * Config.Wrn.widening_factor
                             (Config.wrn (Config.model cfg))).
    { pose proof (@wide_width_doubles
        (Config.Wrn.initial_channels (Config.wrn (Config.model cfg)) * 2)
        (Config.Wrn.widening_factor (Config.wrn (Config.model cfg)))
        ltac:(lia) Hwk). lia. }
    unfold wrn_assembled. cbn [wrn.stage1 wrn.stage2 wrn.stage3].
    repeat (apply Forall_app; split);
      apply wrn_stage_Forall; apply wrn_block_shortcut_by_stride;
      intros; try reflexivity; contradiction.
Qed.

Lemma network_shortcuts_follow_stride_witness :
  exists net w',
    resnet_preact.Network_init (I := any_initializer)
      (example_config "bottleneck" 29) (@fresh Shape) = (Ok net, w')
    /\ Forall (fun b => shortcut_by_stride (rp_block_shortcut b)
                          (rp_block_in b) (rp_block_out b)
                          (rp_block_stride b))
         (modules (resnet_preact.stage1 net)
          ++ modules (resnet_preact.stage2 net)
          ++ modules (resnet_preact.stage3 net)).
Proof.
  destruct (resnet_preact.Network_init (I := any_initializer)
              (example_config "bottleneck" 29) (@fresh Shape))
    as [[net|e] w'] eqn:Hinit.
  - exists net, w'. split; [reflexivity|].
    exact (proj1 (@network_shortcuts_follow_stride Shape ShapeEngine
                    any_initializer (example_config "bottleneck" 29)
                    fresh w' fresh net
                    (wrn_assembled 0 0 0 0 0 None None)
                    ltac:(vm_compute; discriminate)
                    ltac:(vm_compute; discriminate)
                    ltac:(vm_compute; discriminate)) Hinit).
  - vm_compute in Hinit. discriminate Hinit.
Defined.

(** ** Construction and the global state *)

Section ConstructionState.

Context {T : Type} {E : Engine T} {I : Initializers}.

Ltac config_fields :=
  cbn [Config.resnet_preact Config.wrn Config.model Config.dataset
       Config.ResnetPreact.initial_channels
       Config.ResnetPreact.remove_first_relu Config.ResnetPreact.add_last_bn
       Config.ResnetPreact.block_type Config.ResnetPreact.depth
       Config.ResnetPreact.preact_stage
       Config.Wrn.depth Config.Wrn.initial_channels
       Config.Wrn.widening_factor Config.Wrn.drop_rate
       Config.n_channels Config.image_size Config.n_classes Config.init_mode]
    in *.

(** Whatever happens, construction leaves the state as it found it or with
    the one call of the probe added. *)
Lemma rp_init_state (cfg : Config.t) (w : Torch T) :
  final_state (resnet_preact.Network_init cfg) w = w
  \/ final_state (resnet_preact.Network_init cfg) w
     = after_call w false (dummy_data cfg).
Proof.
  destruct cfg as [[[ic rfr alb bt depth ps] wr mode] [nc img ncls]].
  unfold final_state, resnet_preact.Network_init, dummy_data. config_fields.
  fold (rp_choice bt depth).
  destruct (existsb (String.eqb bt) ["basic"; "bottleneck"]);
    [|now left].
  destruct (rp_choice bt depth) as [[block n]|e]; [|now left].
  destruct ps as [|p1 [|p2 [|p3 ps]]]; try now left.
  right. unfold mbind, lift, no_grad, mret. cbn [assert getitem nth_error].
  rewrite rp_forward_conv_run.
  cbn [resnet_preact.n_channels nth grad_enabled calls after_call].
  match goal with |- context [rp_features ?s ?d] =>
    destruct (rp_features s d) as [out|e] end; [|reflexivity].
  destruct (view [Infer] out) as [flat|e]; [|reflexivity]. cbn [rbind].
  destruct (getitem (size flat) 0) as [fsz|e]; [|reflexivity].
  destruct (create_initializer mode) as [[]|e]; reflexivity.
Qed.

Lemma wrn_init_state (cfg : Config.t) (w : Torch T) :
  final_state (wrn.Network_init cfg) w = w
  \/ final_state (wrn.Network_init cfg) w
     = after_call w false (dummy_data cfg).
Proof.
  destruct cfg as [[rp [depth ic wf p] mode] [nc img ncls]].
  unfold final_state, wrn.Network_init, dummy_data. config_fields.
  destruct (_ =? depth)%Z; [|now left].
  right. unfold mbind, lift, no_grad, mret. cbn [assert].
  rewrite wrn_forward_conv_run.
  cbn [wrn.n_channels nth grad_enabled calls after_call].
  match goal with |- context [wrn_features ?s ?d] =>
    destruct (wrn_features s d) as [out|e] end; [|reflexivity].
  destruct (view [Infer] out) as [flat|e]; [|reflexivity]. cbn [rbind].
  destruct (getitem (size flat) 0) as [fsz|e]; [|reflexivity].
  destruct (create_initializer mode) as [[]|e]; reflexivity.
Qed.

(** A failed assertion leaves the state untouched. *)
Lemma rp_init_assertion_state (cfg : Config.t) (w : Torch T) :
  let mc := Config.resnet_preact (Config.model cfg) in
  ~ rp_depth_relation (Config.ResnetPreact.block_type mc)
      (Config.ResnetPreact.depth mc) ->
  final_state (resnet_preact.Network_init cfg) w = w.
Proof.
  destruct cfg as [[[ic rfr alb bt depth ps] wr mode] [nc img ncls]].
  config_fields. intro Hrel.
  unfold final_state, resnet_preact.Network_init. config_fields.
  fold (rp_choice bt depth).
  destruct (existsb (String.eqb bt) ["basic"; "bottleneck"]) eqn:Hbt;
    [|reflexivity].
  destruct (rp_choice bt depth) as [[block n]|e] eqn:Hch; [|reflexivity].
  exfalso. apply Hrel. eapply rp_relation_of_choice; eassumption.
Qed.

Lemma wrn_init_assertion_state (cfg : Config.t) (w : Torch T) :
  ~ wrn_depth_relation (Config.Wrn.depth (Config.wrn (Config.model cfg))) ->
  final_state (wrn.Network_init cfg) w = w.
Proof.
  destruct cfg as [[rp [depth ic wf p] mode] [nc img ncls]].
  config_fields. intro Hd. apply Z.eqb_neq in Hd.
  unfold final_state, wrn.Network_init. config_fields.
  unfold wrn_blocks_per_stage in Hd. now rewrite Hd.
Qed.

(** With fewer than three pre-activation flags the construction stops at
    the missing one. *)
Lemma rp_init_missing_flag (cfg : Config.t) (w : Torch T) :
  let mc := Config.resnet_preact (Config.model cfg) in
  rp_depth_relation (Config.ResnetPreact.block_type mc)
    (Config.ResnetPreact.depth mc) ->
  (List.length (Config.ResnetPreact.preact_stage mc) < 3)%nat ->
  resnet_preact.Network_init cfg w = (Err IndexError, w).
Proof.
  destruct cfg as [[[ic rfr alb bt depth ps] wr mode] [nc img ncls]].
  config_fields. intros Hrel Hps.
  apply rp_choice_of_relation in Hrel. destruct Hrel as [Hbt Hch].
  unfold resnet_preact.Network_init. config_fields.
  rewrite Hbt. fold (rp_choice bt depth). rewrite Hch.
  unfold mbind, lift. cbn [assert].
  destruct ps as [|p1 [|p2 [|p3 ps]]]; cbn [List.length] in Hps;
    try reflexivity; lia.
Qed.

End ConstructionState.

(** X5.  Construction never changes the gradient mode, whether it succeeds or
    raises (also when the probe raises inside [torch.no_grad()]), and it calls
    the convolutional part at most once: the call log is unchanged or has
    exactly the call of the probe added.  This holds for every engine and
    both families. *)
Theorem construction_keeps_grad_mode :
  forall (T : Type) (E : Engine T) (I : Initializers) (cfg : Config.t)
         (w : Torch T),
    let rp := final_state (resnet_preact.Network_init cfg) w in
    let wr := final_state (wrn.Network_init cfg) w in
    let probe := mkCall false (dummy_data cfg) in
    (grad_enabled rp = grad_enabled w
     /\ (calls rp = calls w \/ calls rp = calls w ++ [probe]))
    /\ (grad_enabled wr = grad_enabled w
        /\ (calls wr = calls w \/ calls wr = calls w ++ [probe])).
Proof.
  intros T E I cfg w rp wr probe. split.
  - destruct (rp_init_state cfg w) as [H|H]; unfold rp; rewrite H;
      split; try reflexivity; [now left | now right].
  - destruct (wrn_init_state cfg w) as [H|H]; unfold wr; rewrite H;
      split; try reflexivity; [now left | now right].
Qed.

(** X6.  A depth (or block type) that violates the relation fails the
    construction before anything is run: the result is an assertion error
    and the global state is exactly the initial one, with no call of the
    convolutional part. *)
Theorem bad_depth_fails_before_probe :
  forall (T : Type) (E : Engine T) (I : Initializers) (cfg : Config.t)
         (w : Torch T),
    let mc := Config.resnet_preact (Config.model cfg) in
    (~ rp_depth_relation (Config.ResnetPreact.block_type mc)
         (Config.ResnetPreact.depth mc) ->
     resnet_preact.Network_init cfg w = (Err AssertionError, w))
    /\ (~ wrn_depth_relation
            (Config.Wrn.depth (Config.wrn (Config.model cfg))) ->
        wrn.Network_init cfg w = (Err AssertionError, w)).
Proof.
  intros T E I cfg w mc. split; intro Hrel.
  - pose proof (rp_init_needs_relation cfg w Hrel) as Hr.
    pose proof (rp_init_assertion_state cfg w Hrel) as Hs.
    unfold returned in Hr. unfold final_state in Hs.
    destruct (resnet_preact.Network_init cfg w) as [r s].
    cbn [fst snd] in *. now subst.
  - pose proof (wrn_init_assertion cfg w Hrel) as Hr.
    pose proof (wrn_init_assertion_state cfg w Hrel) as Hs.
    unfold returned in Hr. unfold final_state in Hs.
    destruct (wrn.Network_init cfg w) as [r s].
    cbn [fst snd] in *. now subst.
Qed.

Lemma bad_depth_fails_before_probe_witness :
  resnet_preact.Network_init (I := any_initializer)
    (example_config "basic" 21) (@fresh Shape)
  = (Err AssertionError, fresh).
Proof.
  apply (proj1 (bad_depth_fails_before_probe ShapeEngine any_initializer
                  (example_config "basic" 21) fresh)).
  intros [[_ H] | [H _]]; [vm_compute in H|]; discriminate.
Defined.

(** X7.  When the depth relation holds but [preact_stage] has fewer than three
    entries, construction fails with an index error at the missing entry,
    before the probe, for every engine. *)
Theorem short_preact_stage_fails :
  forall (T : Type) (E : Engine T) (I : Initializers) (cfg : Config.t)
         (w : Torch T),
    let mc := Config.resnet_preact (Config.model cfg) in
    rp_depth_relation (Config.ResnetPreact.block_type mc)
      (Config.ResnetPreact.depth mc) ->
    (List.length (Config.ResnetPreact.preact_stage mc) < 3)%nat ->
    resnet_preact.Network_init cfg w = (Err IndexError, w).
Proof.
  intros T E I cfg w mc Hrel Hps. now apply rp_init_missing_flag.
Qed.

Lemma short_preact_stage_fails_witness :
  resnet_preact.Network_init (I := any_initializer)
    (Config.mk
       (Config.mkModel
          (Config.ResnetPreact.mk 16 false false "basic" 20 [true; true])
          (Config.Wrn.mk 16 16 10 0) "kaiming_fan_out")
       (Config.mkDataset 3 32 10))
    (@fresh Shape)
  = (Err IndexError, fresh).
Proof.
  apply (@short_preact_stage_fails Shape ShapeEngine any_initializer).
  - left. split; reflexivity.
  - vm_compute. lia.
Defined.

(** ** What a constructed network tells about its configuration *)

(** Under the reference engine a constructed resnet_preact network has at
    least one block per stage, a width of at least one channel in every
    convolution and a non-empty image. *)
Lemma rp_init_sized {I : Initializers} (cfg : Config.t) (w w' : Torch Shape)
    (net : resnet_preact.Network) :
  let mc := Config.resnet_preact (Config.model cfg) in
  let bt := Config.ResnetPreact.block_type mc in
  resnet_preact.Network_init cfg w = (Ok net, w') ->
  (1 <= rp_blocks_per_stage bt (Config.ResnetPreact.depth mc))%Z
  /\ 1 <= Config.ResnetPreact.initial_channels mc
          / resnet_preact.expansion (rp_block_class bt)
  /\ 1 <= Config.image_size (Config.dataset cfg).
Proof.
  intros mc bt Hinit. apply rp_init_inv in Hinit.
  destruct Hinit as (block & n & p1 & p2 & p3 & out & flat & fsz & _ & Hch
                     & _ & -> & Hout & _).
  apply rp_choice_inv in Hch. destruct Hch as [-> [-> _]].
  pose proof (f_equal is_ok Hout) as Hok. cbn [is_ok] in Hok.
  unfold dummy_data in Hok. shape_ops.
  apply rp_probe_iff in Hok. tauto.
Qed.

Lemma wrn_init_sized {I : Initializers} (cfg : Config.t) (w w' : Torch Shape)
    (net : wrn.Network) :
  let mc := Config.wrn (Config.model cfg) in
  wrn.Network_init cfg w = (Ok net, w') ->
  (1 <= wrn_blocks_per_stage (Config.Wrn.depth mc))%Z
  /\ 1 <= Config.Wrn.initial_channels mc
  /\ 1 <= Config.Wrn.widening_factor mc
  /\ 1 <= Config.image_size (Config.dataset cfg)
  /\ drop_rate_ok (Config.Wrn.drop_rate mc) = true.
Proof.
  intros mc Hinit. apply wrn_init_inv in Hinit.
  destruct Hinit as (out & flat & fsz & _ & -> & Hout & _).
  pose proof (f_equal is_ok Hout) as Hok. cbn [is_ok] in Hok.
  unfold dummy_data in Hok. shape_ops.
  apply wrn_probe_iff in Hok. unfold wrn_blocks_per_stage. tauto.
Qed.

(** Under the reference engine a constructed network also has at least one
    input channel and an image of at least 5 pixels. *)
Lemma rp_init_channels {I : Initializers} (cfg : Config.t)
    (w w' : Torch Shape) (net : resnet_preact.Network) :
  resnet_preact.Network_init cfg w = (Ok net, w') ->
  1 <= Config.n_channels (Config.dataset cfg)
  /\ 5 <= Config.image_size (Config.dataset cfg).
Proof.
  intro Hinit. apply rp_init_inv in Hinit.
  destruct Hinit as (block & n & p1 & p2 & p3 & out & flat & fsz & _ & _
                     & _ & -> & Hout & _).
  pose proof (f_equal is_ok Hout) as Hok. cbn [is_ok] in Hok.
  unfold dummy_data in Hok. shape_ops.
  apply rp_probe_iff in Hok.
  destruct Hok as (_ & Hnc & _ & Himg & _ & Hv).
  split; [assumption | now apply probe_values].
Qed.

Lemma wrn_init_channels {I : Initializers} (cfg : Config.t)
    (w w' : Torch Shape) (net : wrn.Network) :
  wrn.Network_init cfg w = (Ok net, w') ->
  1 <= Config.n_channels (Config.dataset cfg)
  /\ 5 <= Config.image_size (Config.dataset cfg).
Proof.
  intro Hinit. apply wrn_init_inv in Hinit.
  destruct Hinit as (out & flat & fsz & _ & -> & Hout & _).
  pose proof (f_equal is_ok Hout) as Hok. cbn [is_ok] in Hok.
  unfold dummy_data in Hok. shape_ops.
  apply wrn_probe_iff in Hok.
  destruct Hok as (_ & Hnc & _ & _ & Himg & _ & _ & Hv).
  split; [assumption | now apply probe_values].
Qed.

(** X8.  Under the reference engine a network is constructed only from a
    configuration with at least one block per stage, a non-empty image and
    at least one output channel in every convolution: an initial width of at
    least 1 with the basic block and of at least 4 with the bottleneck block
    (whose inner width is [out_channels // 4]); for wrn a positive initial
    width and widening factor, and a dropout rate that is not above 1. *)
Theorem constructed_network_is_sized :
  forall (I : Initializers) (cfg : Config.t) (w w' w'' : Torch Shape)
         (rp_net : resnet_preact.Network) (wrn_net : wrn.Network),
    let mc := Config.resnet_preact (Config.model cfg) in
    let bt := Config.ResnetPreact.block_type mc in
    let wc := Config.wrn (Config.model cfg) in
    (resnet_preact.Network_init cfg w = (Ok rp_net, w') ->
     (1 <= rp_blocks_per_stage bt (Config.ResnetPreact.depth mc))%Z
     /\ 1 <= Config.image_size (Config.dataset cfg)
     /\ (bt = "basic" -> 1 <= Config.ResnetPreact.initial_channels mc)
     /\ (bt = "bottleneck" -> 4 <= Config.ResnetPreact.initial_channels mc))
    /\ (wrn.Network_init cfg w = (Ok wrn_net, w'') ->
        (1 <= wrn_blocks_per_stage (Config.Wrn.depth wc))%Z
        /\ 1 <= Config.image_size (Config.dataset cfg)
        /\ 1 <= Config.Wrn.initial_channels wc
        /\ 1 <= Config.Wrn.widening_factor wc
        /\ ~ (1 < Config.Wrn.drop_rate wc)%Q).
Proof.
  intros I cfg w w' w'' rp_net wrn_net mc bt wc. split; intro Hinit.
  - destruct (rp_init_sized _ _ Hinit) as (Hn & Hic & Himg).
    fold mc bt in Hn, Hic.
    repeat apply conj; try assumption.
    + intro Hbt. rewrite Hbt in Hic. cbn in Hic.
      now rewrite N.div_1_r in Hic.
    + intro Hbt. rewrite Hbt in Hic.
      change (1 <= Config.ResnetPreact.initial_channels mc / 4) in Hic.
      div_lia.
  - destruct (wrn_init_sized _ _ Hinit) as (Hn & Hic & Hk & Himg & Hp).
    fold wc in Hn, Hic, Hk, Hp.
    repeat apply conj; try assumption.
    intro Hgt. unfold drop_rate_ok, Qpositive in Hp.
    apply orb_true_iff in Hp. destruct Hp as [Hp|Hp].
    + apply negb_true_iff, negb_false_iff in Hp. apply Qle_bool_iff in Hp.
      apply (Qlt_irrefl 1).
      apply Qlt_le_trans with (Config.Wrn.drop_rate wc); [assumption|].
      apply Qle_trans with 0%Q; [assumption | discriminate].
    + apply Qle_bool_iff in Hp. apply (Qlt_irrefl 1).
      now apply Qlt_le_trans with (Config.Wrn.drop_rate wc).
Qed.

Lemma constructed_network_is_sized_witness :
  exists net w',
    resnet_preact.Network_init (I := any_initializer)
      (example_config "bottleneck" 29) (@fresh Shape) = (Ok net, w')
    /\ (1 <= rp_blocks_per_stage "bottleneck" 29)%Z.
Proof.
  destruct (resnet_preact.Network_init (I := any_initializer)
              (example_config "bottleneck" 29) (@fresh Shape))
    as [[net|e] w'] eqn:Hinit.
  - exists net, w'. split; [reflexivity|].
    exact (proj1 (proj1 (@constructed_network_is_sized any_initializer
                           (example_config "bottleneck" 29) fresh w' fresh
                           net (wrn_assembled 0 0 0 0 0 None None)) Hinit)).
  - vm_compute in Hinit. discriminate Hinit.
Defined.

(** X9.  Under the reference engine the measured feature size is the last channel
    width, [initial_channels * 4 * expansion] (for wrn
    [initial_channels * 4 * widening_factor]), whatever the configured image
    size is, and the classifier takes that many features. *)
Theorem feature_size_is_last_width :
  forall (I : Initializers) (cfg : Config.t) (w w' w'' : Torch Shape)
         (rp_net : resnet_preact.Network) (wrn_net : wrn.Network),
    let mc := Config.resnet_preact (Config.model cfg) in
    let wc := Config.wrn (Config.model cfg) in
    let classes := Config.n_classes (Config.dataset cfg) in
    let c :=
      Config.ResnetPreact.initial_channels mc * 4
      * resnet_preact.expansion
          (rp_block_class (Config.ResnetPreact.block_type mc)) in
    let k :=
      Config.Wrn.initial_channels wc * 4 * Config.Wrn.widening_factor wc in
    (resnet_preact.Network_init cfg w = (Ok rp_net, w') ->
     resnet_preact.feature_size rp_net = Some c
     /\ resnet_preact.fc rp_net = Some (mkLinear c classes))
    /\ (wrn.Network_init cfg w = (Ok wrn_net, w'') ->
        wrn.feature_size wrn_net = Some k
        /\ wrn.fc wrn_net = Some (mkLinear k classes)).
Proof.
  intros I cfg w w' w'' rp_net wrn_net mc wc classes c k.
  split; intro Hinit.
  - pose proof (rp_feature_size _ _ Hinit) as Hfs. fold mc c in Hfs.
    split; [exact Hfs|].
    apply rp_init_inv in Hinit.
    destruct Hinit as (block & n & p1 & p2 & p3 & out & flat & fsz & _ & _
                       & _ & -> & _).
    unfold rp_assembled in *.
    cbn [resnet_preact.fc resnet_preact.feature_size] in *.
    now injection Hfs as ->.
  - pose proof (wrn_feature_size _ _ Hinit) as Hfs. fold wc k in Hfs.
    split; [exact Hfs|].
    apply wrn_init_inv in Hinit.
    destruct Hinit as (out & flat & fsz & _ & -> & _).
    unfold wrn_assembled in *. cbn [wrn.fc wrn.feature_size] in *.
    now injection Hfs as ->.
Qed.

Lemma feature_size_is_last_width_witness :
  exists net w',
    wrn.Network_init (I := any_initializer) (example_config "basic" 16)
      (@fresh Shape) = (Ok net, w')
    /\ wrn.feature_size net = Some 640.
Proof.
  destruct (wrn.Network_init (I := any_initializer)
              (example_config "basic" 16) (@fresh Shape))
    as [[net|e] w'] eqn:Hinit.
  - exists net, w'. split; [reflexivity|].
    exact (proj1 (proj2 (@feature_size_is_last_width any_initializer
                           (example_config "basic" 16) fresh fresh w'
                           (rp_assembled 0 0 false false
                              resnet_preact.BasicBlock_class 0 false false
                              false None None) net) Hinit)).
  - vm_compute in Hinit. discriminate Hinit.
Defined.

(** X10.  The depth is recovered from a constructed network (reference engine):
    it is the number of blocks of a stage times the layers per block (6 for
    the basic block and for wrn, 9 for the bottleneck block) plus 2 (plus 4
    for wrn), and the three stages have the same number of blocks. *)
Theorem depth_from_blocks :
  forall (I : Initializers) (cfg : Config.t) (w w' w'' : Torch Shape)
         (rp_net : resnet_preact.Network) (wrn_net : wrn.Network),
    let mc := Config.resnet_preact (Config.model cfg) in
    let wc := Config.wrn (Config.model cfg) in
    (resnet_preact.Network_init cfg w = (Ok rp_net, w') ->
     Config.ResnetPreact.depth mc
     = (Z.of_nat (List.length (resnet_preact.stage1 rp_net))
        * rp_layers_per_block (Config.ResnetPreact.block_type mc) + 2)%Z
     /\ List.length (resnet_preact.stage2 rp_net)
        = List.length (resnet_preact.stage1 rp_net)
     /\ List.length (resnet_preact.stage3 rp_net)
        = List.length (resnet_preact.stage1 rp_net))
    /\ (wrn.Network_init cfg w = (Ok wrn_net, w'') ->
        Config.Wrn.depth wc
        = (Z.of_nat (List.length (wrn.stage1 wrn_net)) * 6 + 4)%Z
        /\ List.length (wrn.stage2 wrn_net) = List.length (wrn.stage1 wrn_net)
        /\ List.length (wrn.stage3 wrn_net)
           = List.length (wrn.stage1 wrn_net)).
Proof.
  intros I cfg w w' w'' rp_net wrn_net mc wc. split; intro Hinit.
  - destruct (rp_init_sized _ _ Hinit) as (Hn & _).
    destruct (rp_init_relation _ _ Hinit) as (Hrel & H1 & H2 & H3).
    fold mc in Hn, Hrel, H1, H2, H3.
    rewrite H1, H2, H3. repeat split.
    rewrite Z2Nat.id by lia. unfold rp_layers_per_block.
    destruct Hrel as [[Hbt Hrel] | [Hbt Hrel]]; rewrite Hbt in *;
      cbn [String.eqb Ascii.eqb Bool.eqb andb]; lia.
  - destruct (wrn_init_sized _ _ Hinit) as (Hn & _).
    destruct (wrn_init_relation _ _ Hinit) as (Hrel & H1 & H2 & H3).
    fold wc in Hn, Hrel, H1, H2, H3.
    rewrite H1, H2, H3. repeat split.
    rewrite Z2Nat.id by lia. unfold wrn_depth_relation in Hrel. lia.
Qed.

Lemma depth_from_blocks_witness :
  exists net w',
    resnet_preact.Network_init (I := any_initializer)
      (example_config "basic" 20) (@fresh Shape) = (Ok net, w')
    /\ (20 = Z.of_nat (List.length (resnet_preact.stage1 net)) * 6 + 2)%Z.
Proof.
  destruct (resnet_preact.Network_init (I := any_initializer)
              (example_config "basic" 20) (@fresh Shape))
    as [[net|e] w'] eqn:Hinit.
  - exists net, w'. split; [reflexivity|].
    exact (proj1 (proj1 (@depth_from_blocks any_initializer
                           (example_config "basic" 20) fresh w' fresh
                           net (wrn_assembled 0 0 0 0 0 None None)) Hinit)).
  - vm_compute in Hinit. discriminate Hinit.
Defined.

(** ** Resolution, input channels and image size *)

Lemma shape_conv2d_channels (l : Conv2d) (b c h w : N) :
  c <> conv_in_channels l -> shape_conv2d l [b; c; h; w] = Err RuntimeError.
Proof.
  intro Hc. unfold shape_conv2d.
  destruct (_ || _); [reflexivity|].
  now replace (c =? conv_in_channels l) with false
    by (symmetry; now apply N.eqb_neq).
Qed.

Lemma trunk_chain {T} (r0 : result T) (f1 f2 f3 f4 : T -> result T)
    (x1 x2 x3 x4 x5 : T) :
  r0 = Ok x1 -> f1 x1 = Ok x2 -> f2 x2 = Ok x3 -> f3 x3 = Ok x4 ->
  f4 x4 = Ok x5 ->
  (x <- r0 ;; x <- f1 x ;; x <- f2 x ;; x <- f3 x ;; f4 x)%result = Ok x5.
Proof.
  intros -> H1 H2 H3 H4. cbn [rbind]. rewrite H1. cbn [rbind].
  rewrite H2. cbn [rbind]. now rewrite H3.
Qed.

(** X11.  The feature map a constructed network hands to the pooling has a
    quarter of the input resolution, rounded up: on an input of shape
    (b, n_channels, h, w) it has shape (b, last width, (h+3)/4, (w+3)/4),
    provided it has more than one value per channel (b >= 2, h >= 5 or
    w >= 5), the normalization layers being in training mode. *)
Theorem feature_map_resolution :
  forall (I : Initializers) (cfg : Config.t) (w0 w0' w0'' : Torch Shape)
         (rp_net : resnet_preact.Network) (wrn_net : wrn.Network)
         (b h w : N),
    1 <= Config.n_channels (Config.dataset cfg) ->
    1 <= b -> 1 <= h -> 1 <= w -> 2 <= b \/ 5 <= h \/ 5 <= w ->
    let nc := Config.n_channels (Config.dataset cfg) in
    let mc := Config.resnet_preact (Config.model cfg) in
    let wc := Config.wrn (Config.model cfg) in
    (resnet_preact.Network_init cfg w0 = (Ok rp_net, w0') ->
     (x <- conv2d (resnet_preact.conv rp_net) [b; nc; h; w] ;;
      x <- forward (resnet_preact.stage1 rp_net) x ;;
      x <- forward (resnet_preact.stage2 rp_net) x ;;
      x <- forward (resnet_preact.stage3 rp_net) x ;;
      batch_norm (resnet_preact.bn rp_net) x)%result
     = Ok [b;
           Config.ResnetPreact.initial_channels mc * 4
           * resnet_preact.expansion
               (rp_block_class (Config.ResnetPreact.block_type mc));
           (h + 3) / 4; (w + 3) / 4])
    /\ (wrn.Network_init cfg w0 = (Ok wrn_net, w0'') ->
        (x <- conv2d (wrn.conv wrn_net) [b; nc; h; w] ;;
         x <- forward (wrn.stage1 wrn_net) x ;;
         x <- forward (wrn.stage2 wrn_net) x ;;
         x <- forward (wrn.stage3 wrn_net) x ;;
         batch_norm (wrn.bn wrn_net) x)%result
        = Ok [b;
              Config.Wrn.initial_channels wc * 4
              * Config.Wrn.widening_factor wc;
              (h + 3) / 4; (w + 3) / 4]).
Proof.
  intros I cfg w0 w0' w0'' rp_net wrn_net b h w Hnc Hb Hh Hw Hlarge nc mc wc.
  subst nc mc wc.
  apply values_after_two_strides in Hlarge; try assumption.
  split; intro Hinit.
  - destruct (rp_init_sized _ _ Hinit) as (Hn & Hic & _).
    apply rp_init_inv in Hinit.
    destruct Hinit as (block & n & p1 & p2 & p3 & out & flat & fsz & _ & Hch
                       & _ & -> & _).
    apply rp_choice_inv in Hch. destruct Hch as [-> [-> _]].
    destruct (@rp_trunk_shapes (Config.n_channels (Config.dataset cfg)) _
                (Config.ResnetPreact.remove_first_relu
                   (Config.resnet_preact (Config.model cfg)))
                (Config.ResnetPreact.add_last_bn
                   (Config.resnet_preact (Config.model cfg)))
                _ _ p1 p2 p3 b h w Hn Hnc Hic Hh Hw Hlarge)
      as (H0 & H1 & H2 & H3 & H4).
    unfold rp_assembled.
    cbn [resnet_preact.conv resnet_preact.stage1 resnet_preact.stage2
         resnet_preact.stage3 resnet_preact.bn].
    rewrite !conv_out_twice in H3, H4 by assumption.
    eapply trunk_chain; [exact H0 | exact H1 | exact H2 | exact H3 | exact H4].
  - destruct (wrn_init_sized _ _ Hinit) as (Hn & Hic & Hk & _ & Hp).
    apply wrn_init_inv in Hinit.
    destruct Hinit as (out & flat & fsz & _ & -> & _).
    destruct (@wrn_trunk_shapes (Config.n_channels (Config.dataset cfg)) _ _
                _ _ b h w Hn Hnc Hic Hk Hh Hw Hp Hlarge)
      as (H0 & H1 & H2 & H3 & H4).
    unfold wrn_assembled.
    cbn [wrn.conv wrn.stage1 wrn.stage2 wrn.stage3 wrn.bn].
    rewrite !conv_out_twice in H3, H4 by assumption.
    eapply trunk_chain; [exact H0 | exact H1 | exact H2 | exact H3 | exact H4].
Qed.

Lemma feature_map_resolution_witness :
  exists net w',
    resnet_preact.Network_init (I := any_initializer)
      (example_config "basic" 20) (@fresh Shape) = (Ok net, w')
    /\ (x <- conv2d (resnet_preact.conv net) [2; 3; 30; 45] ;;
        x <- forward (resnet_preact.stage1 net) x ;;
        x <- forward (resnet_preact.stage2 net) x ;;
        x <- forward (resnet_preact.stage3 net) x ;;
        batch_norm (resnet_preact.bn net) x)%result
       = Ok [2; 64; 8; 12].
Proof.
  destruct (resnet_preact.Network_init (I := any_initializer)
              (example_config "basic" 20) (@fresh Shape))
    as [[net|e] w'] eqn:Hinit.
  - exists net, w'. split; [reflexivity|].
    exact (proj1 (@feature_map_resolution any_initializer
                    (example_config "basic" 20) fresh w' fresh net
                    (wrn_assembled 0 0 0 0 0 None None) 2 30 45
                    ltac:(vm_compute; discriminate) ltac:(lia) ltac:(lia)
                    ltac:(lia) ltac:(lia)) Hinit).
  - vm_compute in Hinit. discriminate Hinit.
Defined.

(** X12.  An input whose channel count is not the configured one is rejected by
    the stem convolution: the forward pass of a constructed network fails
    with a runtime error. *)
Theorem forward_rejects_other_channel_count :
  forall (I : Initializers) (cfg : Config.t) (w0 w0' w0'' w1 : Torch Shape)
         (rp_net : resnet_preact.Network) (wrn_net : wrn.Network)
         (b c h w : N),
    c <> Config.n_channels (Config.dataset cfg) ->
    (resnet_preact.Network_init cfg w0 = (Ok rp_net, w0') ->
     returned (resnet_preact.Network_forward rp_net [b; c; h; w]) w1
     = Err RuntimeError)
    /\ (wrn.Network_init cfg w0 = (Ok wrn_net, w0'') ->
        returned (wrn.Network_forward wrn_net [b; c; h; w]) w1
        = Err RuntimeError).
Proof.
  intros I cfg w0 w0' w0'' w1 rp_net wrn_net b c h w Hc.
  split; intro Hinit.
  - apply rp_init_inv in Hinit.
    destruct Hinit as (block & n & p1 & p2 & p3 & out & flat & fsz & _ & _
                       & _ & -> & _).
    unfold returned, resnet_preact.Network_forward, mbind.
    rewrite rp_forward_conv_run, rp_features_eq. unfold rp_assembled.
    cbn [resnet_preact.conv].
    now rewrite shape_conv2d_channels.
  - apply wrn_init_inv in Hinit.
    destruct Hinit as (out & flat & fsz & _ & -> & _).
    unfold returned, wrn.Network_forward, mbind.
    rewrite wrn_forward_conv_run, wrn_features_eq. unfold wrn_assembled.
    cbn [wrn.conv].
    now rewrite shape_conv2d_channels.
Qed.

Lemma forward_rejects_other_channel_count_witness :
  exists net w',
    resnet_preact.Network_init (I := any_initializer)
      (example_config "basic" 20) (@fresh Shape) = (Ok net, w')
    /\ returned (resnet_preact.Network_forward net [8; 1; 32; 32]) w'
       = Err RuntimeError.
Proof.
  destruct (resnet_preact.Network_init (I := any_initializer)
              (example_config "basic" 20) (@fresh Shape))
    as [[net|e] w'] eqn:Hinit.
  - exists net, w'. split; [reflexivity|].
    exact (proj1 (@forward_rejects_other_channel_count any_initializer
                    (example_config "basic" 20) fresh w' fresh w' net
                    (wrn_assembled 0 0 0 0 0 None None) 8 1 32 32
                    ltac:(vm_compute; discriminate)) Hinit).
  - vm_compute in Hinit. discriminate Hinit.
Defined.

(** X13.  A dropout rate that is not positive (zero or negative) switches dropout
    off: the wrn block computes what the block with rate 0 computes, for
    every engine and input, and the dropout primitive is not called. *)
Theorem nonpositive_drop_rate_is_no_dropout :
  forall (T : Type) (E : Engine T) (cin cout stride : N) (p : Q) (x : T),
    (p <= 0)%Q ->
    wrn.BasicBlock_forward (wrn.BasicBlock_init cin cout stride p) x
    = wrn.BasicBlock_forward (wrn.BasicBlock_init cin cout stride 0) x.
Proof.
  intros T E cin cout stride p x Hp.
  assert (Hq : Qpositive p = false).
  { unfold Qpositive. apply negb_false_iff. now apply Qle_bool_iff. }
  unfold wrn.BasicBlock_forward.
  cbn [wrn._preactivate_both wrn.BasicBlock_init wrn.bn1 wrn.conv1 wrn.bn2
       wrn.conv2 wrn.shortcut wrn.drop_rate wrn.training].
  rewrite Hq. reflexivity.
Qed.

Lemma nonpositive_drop_rate_is_no_dropout_witness :
  wrn.BasicBlock_forward (wrn.BasicBlock_init 16 32 2 (-1 # 2))
    (([1; 16; 8; 8], Input) : Traced)
  = wrn.BasicBlock_forward (wrn.BasicBlock_init 16 32 2 0)
      (([1; 16; 8; 8], Input) : Traced).
Proof.
  apply (@nonpositive_drop_rate_is_no_dropout Traced TracedEngine).
  vm_compute. discriminate.
Defined.

(** X14.  The configured image size only feeds the probe: under the reference
    engine, a configuration that constructs a network constructs the same
    network with any other image size of at least 5 pixels (the probe, a
    single image, must leave more than one value per channel for the
    normalization layers in training mode). *)
Theorem network_independent_of_image_size :
  forall (I : Initializers) (cfg : Config.t) (w w' w'' : Torch Shape)
         (rp_net : resnet_preact.Network) (wrn_net : wrn.Network) (s : N),
    5 <= s ->
    (resnet_preact.Network_init cfg w = (Ok rp_net, w') ->
     returned (resnet_preact.Network_init (with_image_size cfg s)) w
     = Ok rp_net)
    /\ (wrn.Network_init cfg w = (Ok wrn_net, w'') ->
        returned (wrn.Network_init (with_image_size cfg s)) w = Ok wrn_net).
Proof.
  intros I cfg w w' w'' rp_net wrn_net s Hs.
  assert (Hv : 1 * conv_out (conv_out s 3 2 1) 3 2 1
               * conv_out (conv_out s 3 2 1) 3 2 1 <> 1)
    by (apply probe_values; lia).
  split; intro Hinit.
  - destruct (rp_init_channels _ _ Hinit) as (Hnc & _).
    destruct (rp_init_sized _ _ Hinit) as (Hn & Hic & _).
    pose proof (rp_feature_size _ _ Hinit) as Hfs.
    apply rp_init_inv in Hinit.
    destruct Hinit as (block & n & p1 & p2 & p3 & out & flat & fsz & Hbt & Hch
                       & Hps & -> & _ & _ & _ & Hi & _).
    pose proof (rp_choice_inv _ _ Hch) as [Hblock [Hnn _]].
    rewrite <- Hblock in Hic, Hfs. rewrite <- Hnn in Hn.
    unfold rp_assembled in Hfs. cbn [resnet_preact.feature_size] in Hfs.
    injection Hfs as ->.
    unfold returned.
    erewrite (@rp_init_ok Shape ShapeEngine I (with_image_size cfg s));
      [reflexivity | exact Hbt | exact Hch | exact Hps | | | | exact Hi].
    + unfold dummy_data, with_image_size.
      cbn [Config.dataset Config.model Config.n_channels Config.image_size].
      shape_ops. apply rp_features_shape; try assumption; lia.
    + apply shape_view_all.
    + reflexivity.
  - destruct (wrn_init_channels _ _ Hinit) as (Hnc & _).
    destruct (wrn_init_sized _ _ Hinit) as (Hn & Hic & Hk & _ & Hp).
    pose proof (wrn_feature_size _ _ Hinit) as Hfs.
    apply wrn_init_inv in Hinit.
    destruct Hinit as (out & flat & fsz & Hrel & -> & _ & _ & _ & Hi & _).
    unfold wrn_assembled in Hfs. cbn [wrn.feature_size] in Hfs.
    injection Hfs as ->.
    unfold returned.
    erewrite (@wrn_init_ok Shape ShapeEngine I (with_image_size cfg s));
      [reflexivity | exact Hrel | | | | exact Hi].
    + unfold dummy_data, with_image_size.
      cbn [Config.dataset Config.model Config.n_channels Config.image_size].
      shape_ops. apply wrn_features_shape; try assumption; lia.
    + apply shape_view_all.
    + reflexivity.
Qed.

Lemma network_independent_of_image_size_witness :
  exists net w',
    resnet_preact.Network_init (I := any_initializer)
      (example_config "basic" 20) (@fresh Shape) = (Ok net, w')
    /\ returned (resnet_preact.Network_init (I := any_initializer)
                   (with_image_size (example_config "basic" 20) 224)) fresh
       = Ok net.
Proof.
  destruct (resnet_preact.Network_init (I := any_initializer)
              (example_config "basic" 20) (@fresh Shape))
    as [[net|e] w'] eqn:Hinit.
  - exists net, w'. split; [reflexivity|].
    exact (proj1 (@network_independent_of_image_size any_initializer
                    (example_config "basic" 20) fresh w' fresh net
                    (wrn_assembled 0 0 0 0 0 None None) 224
                    ltac:(lia)) Hinit).
  - vm_compute in Hinit. discriminate Hinit.
Defined.

(** X15.  When the initializer for the configured mode cannot be created, no
    network is constructed, in either family and for every engine. *)
Theorem no_network_without_initializer :
  forall (T : Type) (E : Engine T) (I : Initializers) (cfg : Config.t)
         (w : Torch T) (e : error),
    create_initializer (Config.init_mode (Config.model cfg)) = Err e ->
    is_ok (returned (resnet_preact.Network_init cfg) w) = false
    /\ is_ok (returned (wrn.Network_init cfg) w) = false.
Proof.
  intros T E I cfg w e He. split.
  - destruct (returned (resnet_preact.Network_init cfg) w) as [net|e'] eqn:Hr;
      [|reflexivity].
    apply returned_ok, rp_init_inv in Hr.
    destruct Hr as (block & n & p1 & p2 & p3 & out & flat & fsz & _ & _
                    & _ & _ & _ & _ & _ & Hi & _).
    rewrite He in Hi. discriminate Hi.
  - destruct (returned (wrn.Network_init cfg) w) as [net|e'] eqn:Hr;
      [|reflexivity].
    apply returned_ok, wrn_init_inv in Hr.
    destruct Hr as (out & flat & fsz & _ & _ & _ & _ & _ & Hi & _).
    rewrite He in Hi. discriminate Hi.
Qed.

Lemma no_network_without_initializer_witness :
  is_ok (returned (resnet_preact.Network_init
                     (I := fun _ => Err ValueError)
                     (example_config "basic" 20)) (@fresh Shape)) = false.
Proof.
  exact (proj1 (@no_network_without_initializer Shape ShapeEngine
                  (fun _ => Err ValueError) (example_config "basic" 20)
                  fresh ValueError eq_refl)).
Defined.

(** X16.  When construction succeeds (reference engine).  For a configuration
    whose other fields are usable (at least one input channel, at least one
    output channel in every convolution, an image of at least 5 pixels,
    three pre-activation flags, a dropout rate that is not above 1, an
    initializer for the configured mode), the network is constructed exactly
    when the depth satisfies the relation with at least one block per
    stage. *)
Theorem usable_configuration_constructs :
  forall (I : Initializers) (cfg : Config.t) (w : Torch Shape),
    let mc := Config.resnet_preact (Config.model cfg) in
    let bt := Config.ResnetPreact.block_type mc in
    let depth := Config.ResnetPreact.depth mc in
    let wdepth := Config.Wrn.depth (Config.wrn (Config.model cfg)) in
    (rp_well_sized cfg ->
     (is_ok (returned (resnet_preact.Network_init cfg) w) = true
      <-> rp_depth_relation bt depth /\ (1 <= rp_blocks_per_stage bt depth)%Z))
    /\ (wrn_well_sized cfg ->
        (is_ok (returned (wrn.Network_init cfg) w) = true
         <-> wrn_depth_relation wdepth
             /\ (1 <= wrn_blocks_per_stage wdepth)%Z)).
Proof.
  intros I cfg w mc bt depth wdepth. split.
  - apply rp_construction_iff.
  - apply wrn_construction_iff.
Qed.

(** The bottleneck network of depth 29 for 32x32 images is constructed; with
    depth 2 it is not. *)
Lemma usable_configuration_constructs_witness :
  is_ok (returned (resnet_preact.Network_init (I := any_initializer)
                     (example_config "bottleneck" 29)) (@fresh Shape)) = true
  /\ is_ok (returned (resnet_preact.Network_init (I := any_initializer)
                        (example_config "bottleneck" 2)) (@fresh Shape))
     = false.
Proof.
  assert (Hsized : forall d,
    rp_well_sized (H := any_initializer) (example_config "bottleneck" d)).
  { intro d. repeat split; vm_compute; try reflexivity; discriminate. }
  split.
  - apply (proj1 (@usable_configuration_constructs any_initializer
                    (example_config "bottleneck" 29) fresh) (Hsized 29%Z)).
    split; [right; split; reflexivity | vm_compute; discriminate].
  - apply not_true_is_false. intro Hok.
    apply (proj1 (@usable_configuration_constructs any_initializer
                    (example_config "bottleneck" 2) fresh) (Hsized 2%Z)) in Hok.
    destruct Hok as [_ Hn]. vm_compute in Hn. now apply Hn.
Defined.
